(** * synapseutils.copy: recursive entity copy and wiki replication

    A shallow embedding of [synapseutils/copy.py] and of the part of the
    Synapse service the copy functions talk to, and of the pure functions
    of [synapseclient/utils.py], followed by the properties of the copy
    engine and of the utilities. *)

From Stdlib Require Import String List Ascii Arith Lia Bool.
From Stdlib Require Import Decimal DecimalNat DecimalString.
From Stdlib Require DecimalFacts.
From Stdlib Require Import ZArith DecimalZ.
From Stdlib Require Import Strings.Byte.
Import ListNotations.
Open Scope string_scope.

Set Implicit Arguments.

(** ** Strings *)

(** Python's [str(n)] for a natural number. *)
Definition str_of_nat (n : nat) : string :=
  NilZero.string_of_uint (Nat.to_uint n).

(** [pat in s] of Python: [pat] occurs in [s] as a substring. *)
Fixpoint occursb (pat s : string) : bool :=
  match s with
  | EmptyString => prefix pat EmptyString
  | String _ s' => prefix pat s || occursb pat s'
  end.

(** [re.sub(pattern, repl, s)].  Every pattern the copy code builds is an
    entity id ([syn<digits>]), a wiki page id (digits) or the two joined by
    [/wiki/]: it has no regular-expression metacharacter and the replacement
    has no backslash, so the substitution is the literal one, leftmost
    matches first and without overlap.  [skip] counts the characters of a
    match still to be dropped. *)
Fixpoint sub_from (pattern repl : string) (skip : nat) (s : string) : string :=
  match s with
  | EmptyString => EmptyString
  | String c s' =>
      match skip with
      | S k => sub_from pattern repl k s'
      | O =>
          if prefix pattern s
          then repl ++ sub_from pattern repl (String.length pattern - 1) s'
          else String c (sub_from pattern repl 0 s')
      end
  end.

(** The empty pattern matches before every character and at the end. *)
Fixpoint sub_empty (repl s : string) : string :=
  match s with
  | EmptyString => repl
  | String c s' => repl ++ String c (sub_empty repl s')
  end.

Definition re_sub (pattern repl s : string) : string :=
  match pattern with
  | EmptyString => sub_empty repl s
  | _ => sub_from pattern repl 0 s
  end.

(** [s.lower()] on ASCII. *)
Definition lower_ascii (c : ascii) : ascii :=
  let n := nat_of_ascii c in
  if ((65 <=? n)%nat && (n <=? 90)%nat)%bool then ascii_of_nat (n + 32) else c.

Fixpoint lower (s : string) : string :=
  match s with
  | EmptyString => EmptyString
  | String c s' => String (lower_ascii c) (lower s')
  end.

Definition opt_eqb (a b : option string) : bool :=
  match a, b with
  | Some x, Some y => String.eqb x y
  | None, None => true
  | _, _ => false
  end.

(** ** Dictionaries

    A Python [dict] with string keys, kept as the list of its writes, oldest
    first: [d[k] = v] adds a write, [d[k]] reads the last write to [k].  The
    iteration order of a Python 2 dict is unspecified; the model iterates in
    the order in which the keys were first written. *)

Definition Dict (V : Type) : Type := list (string * V).

Fixpoint dict_get {V : Type} (k : string) (d : Dict V) : option V :=
  match d with
  | [] => None
  | (k', v) :: d' =>
      match dict_get k d' with
      | Some v' => Some v'
      | None => if String.eqb k k' then Some v else None
      end
  end.

Definition dict_set {V : Type} (k : string) (v : V) (d : Dict V) : Dict V :=
  (d ++ [(k, v)])%list.

Definition dict_mem {V : Type} (k : string) (d : Dict V) : bool :=
  existsb (fun kv => String.eqb k (fst kv)) d.

Fixpoint dict_keys_from {V : Type} (seen : list string) (d : Dict V)
  : list string :=
  match d with
  | [] => []
  | (k, _) :: d' =>
      if existsb (String.eqb k) seen then dict_keys_from seen d'
      else k :: dict_keys_from (k :: seen) d'
  end.

Definition dict_keys {V : Type} (d : Dict V) : list string :=
  dict_keys_from [] d.

(** ** Entities, wiki pages and the state of the service *)

Inductive EntityType : Type :=
| Project | Folder | File | Link | Schema | OtherType.

Definition EntityType_eqb (a b : EntityType) : bool :=
  match a, b with
  | Project, Project | Folder, Folder | File, File | Link, Link
  | Schema, Schema | OtherType, OtherType => true
  | _, _ => false
  end.

Record FileHandle : Type := mkFileHandle {
  fh_id : string;
  fh_createdBy : string;
  fh_fileName : string
}.

Record Activity : Type := mkActivity {
  act_name : string;
  act_used : list string
}.

(** An entity, as fetched from the service or as built locally before it is
    stored ([ent_id] is empty until the service has issued one). *)
Record Entity : Type := mkEntity {
  ent_id : string;
  ent_type : EntityType;
  ent_name : string;
  ent_parentId : option string;
  ent_annotations : list (string * string);
  ent_versionNumber : nat;
  ent_dataFileHandleId : option string;
  ent_externalURL : option string;
  ent_path : option string;
  ent_synapseStore : bool;
  ent_targetId : string;
  ent_targetVersionNumber : option nat;
  ent_columnIds : list string;
  ent_rows : list (list string);
  ent_fileHandles : list FileHandle
}.

Record WikiPage : Type := mkWiki {
  wiki_id : string;
  wiki_ownerId : string;
  wiki_parentWikiId : option string;
  wiki_title : option string;
  wiki_markdown : string;
  wiki_attachmentFileHandleIds : list string;
  wiki_attachmentHandles : list FileHandle;
  wiki_attachments : list string
}.

(** A wiki header: a dictionary with keys [id], [title] and, for every page
    but the root, [parentId]. *)
Record WikiHeader : Type := mkHeader {
  h_id : string;
  h_parentId : option string;
  h_title : option string
}.

Inductive Transfer : Type :=
| Download (fileHandleId : string)
| Upload (path : string).

Record World : Type := mkWorld {
  entities : list Entity;
  wikis : list WikiPage;
  provenance : Dict Activity;
  ownerId : string;
  counter : nat;
  transfers : list Transfer;
  stdout : list string
}.

Definition set_entities (es : list Entity) (w : World) : World :=
  mkWorld es (wikis w) (provenance w) (ownerId w) (counter w)
          (transfers w) (stdout w).

Definition set_wikis (ws : list WikiPage) (w : World) : World :=
  mkWorld (entities w) ws (provenance w) (ownerId w) (counter w)
          (transfers w) (stdout w).

Definition set_provenance (p : Dict Activity) (w : World) : World :=
  mkWorld (entities w) (wikis w) p (ownerId w) (counter w)
          (transfers w) (stdout w).

Definition set_counter (n : nat) (w : World) : World :=
  mkWorld (entities w) (wikis w) (provenance w) (ownerId w) n
          (transfers w) (stdout w).

Definition add_transfer (t : Transfer) (w : World) : World :=
  mkWorld (entities w) (wikis w) (provenance w) (ownerId w) (counter w)
          ((transfers w ++ [t])%list) (stdout w).

Definition add_stdout (line : string) (w : World) : World :=
  mkWorld (entities w) (wikis w) (provenance w) (ownerId w) (counter w)
          (transfers w) ((stdout w ++ [line])%list).

(** What the service holds: everything but the client's own output. *)
Definition remote_unchanged (w w' : World) : Prop :=
  entities w' = entities w /\ wikis w' = wikis w /\
  provenance w' = provenance w /\ counter w' = counter w /\
  transfers w' = transfers w.

(** ** Exceptions and the monad of the client *)

Inductive Exn : Type :=
| ValueError (msg : string)
| SynapseHTTPError
| KeyError (key : string).

Inductive Res (A : Type) : Type :=
| Ok (a : A) (w : World)
| Raise (e : Exn) (w : World)
| OutOfFuel.

Arguments Ok {A} a w.
Arguments Raise {A} e w.
Arguments OutOfFuel {A}.

Definition M (A : Type) : Type := World -> Res A.

Definition ret {A : Type} (a : A) : M A := fun w => Ok a w.

Definition bind {A B : Type} (c : M A) (k : A -> M B) : M B :=
  fun w =>
    match c w with
    | Ok a w' => k a w'
    | Raise e w' => Raise e w'
    | OutOfFuel => OutOfFuel
    end.

Definition raise {A : Type} (e : Exn) : M A := fun w => Raise e w.

Definition out_of_fuel {A : Type} : M A := fun _ => OutOfFuel.

Definition print (line : string) : M unit :=
  fun w => Ok tt (add_stdout line w).

Notation "x <- c ;; k" := (bind c (fun x => k))
  (at level 61, c at next level, right associativity).
Notation "c ;;; k" := (bind c (fun _ => k))
  (at level 61, right associativity).

(** [for x in xs: acc = body(acc, x)] *)
Fixpoint for_each {A S : Type} (xs : list A) (body : S -> A -> M S) (acc : S)
  : M S :=
  match xs with
  | [] => ret acc
  | x :: xs' => acc' <- body acc x ;; for_each xs' body acc'
  end.

Fixpoint for_ {A : Type} (xs : list A) (body : A -> M unit) : M unit :=
  match xs with
  | [] => ret tt
  | x :: xs' => body x ;;; for_ xs' body
  end.

(** [try: c  except SynapseHTTPError: handler] *)
Definition except_SynapseHTTPError {A : Type} (c : M A) (handler : M A)
  : M A :=
  fun w =>
    match c w with
    | Raise SynapseHTTPError w' => handler w'
    | r => r
    end.

(** [try: c  except Exception as e: handler] *)
Definition except_Exception {A : Type} (c : M A) (handler : Exn -> M A)
  : M A :=
  fun w =>
    match c w with
    | Raise e w' => handler e w'
    | r => r
    end.

(** ** The remote service client

    Modelled from the spec: the Synapse client object [syn] (entity CRUD,
    queries by parent, provenance, file handles, table rows), an external
    collaborator of the copy engine whose code is not part of this
    repository.  The service keeps its entities in the order in which it
    created them and issues ids from one counter; it refuses to create a
    Link whose target it does not hold, and with an entity of the same name
    under the same parent a store updates that entity in place (one of
    another type is refused). *)

Definition new_entity (t : EntityType) (name : string)
  (parent : option string) : Entity :=
  mkEntity "" t name parent [] 0 None None None true "" None [] [] [].

Definition set_ent_annotations (a : list (string * string)) (e : Entity)
  : Entity :=
  mkEntity (ent_id e) (ent_type e) (ent_name e) (ent_parentId e) a
    (ent_versionNumber e) (ent_dataFileHandleId e) (ent_externalURL e)
    (ent_path e) (ent_synapseStore e) (ent_targetId e)
    (ent_targetVersionNumber e) (ent_columnIds e) (ent_rows e)
    (ent_fileHandles e).

Definition set_ent_dataFileHandleId (h : option string) (e : Entity)
  : Entity :=
  mkEntity (ent_id e) (ent_type e) (ent_name e) (ent_parentId e)
    (ent_annotations e) (ent_versionNumber e) h (ent_externalURL e)
    (ent_path e) (ent_synapseStore e) (ent_targetId e)
    (ent_targetVersionNumber e) (ent_columnIds e) (ent_rows e)
    (ent_fileHandles e).

Definition set_ent_path (p : option string) (store : bool) (e : Entity)
  : Entity :=
  mkEntity (ent_id e) (ent_type e) (ent_name e) (ent_parentId e)
    (ent_annotations e) (ent_versionNumber e) (ent_dataFileHandleId e)
    (ent_externalURL e) p store (ent_targetId e)
    (ent_targetVersionNumber e) (ent_columnIds e) (ent_rows e)
    (ent_fileHandles e).

Definition set_ent_target (t : string) (v : option nat) (e : Entity)
  : Entity :=
  mkEntity (ent_id e) (ent_type e) (ent_name e) (ent_parentId e)
    (ent_annotations e) (ent_versionNumber e) (ent_dataFileHandleId e)
    (ent_externalURL e) (ent_path e) (ent_synapseStore e) t v
    (ent_columnIds e) (ent_rows e) (ent_fileHandles e).

Definition set_ent_columns (cols : list string) (rows : list (list string))
  (e : Entity) : Entity :=
  mkEntity (ent_id e) (ent_type e) (ent_name e) (ent_parentId e)
    (ent_annotations e) (ent_versionNumber e) (ent_dataFileHandleId e)
    (ent_externalURL e) (ent_path e) (ent_synapseStore e) (ent_targetId e)
    (ent_targetVersionNumber e) cols rows (ent_fileHandles e).

(** The file handle and external URL the service attaches to a stored
    file. *)
Definition set_ent_handle (h : option string) (url : option string)
  (hs : list FileHandle) (e : Entity) : Entity :=
  mkEntity (ent_id e) (ent_type e) (ent_name e) (ent_parentId e)
    (ent_annotations e) (ent_versionNumber e) h url
    (ent_path e) (ent_synapseStore e) (ent_targetId e)
    (ent_targetVersionNumber e) (ent_columnIds e) (ent_rows e) hs.

(** The id and version the service gives a stored entity; an entity stored
    without a name is named by its id, and the local path is not part of
    what the service keeps. *)
Definition stamp (i : string) (version : nat) (e : Entity) : Entity :=
  mkEntity i (ent_type e)
    (if String.eqb (ent_name e) "" then i else ent_name e) (ent_parentId e)
    (ent_annotations e) version (ent_dataFileHandleId e) (ent_externalURL e)
    None (ent_synapseStore e) (ent_targetId e)
    (ent_targetVersionNumber e) (ent_columnIds e) (ent_rows e)
    (ent_fileHandles e).

Definition find_entity (i : string) (w : World) : option Entity :=
  find (fun e => String.eqb (ent_id e) i) (entities w).

Definition children_of (parent : string) (w : World) : list Entity :=
  filter (fun e => opt_eqb (ent_parentId e) (Some parent)) (entities w).

Definition cache_path (fileHandleId : string) : string :=
  "/cache/" ++ fileHandleId.

(** [syn.get(entity, version=version, downloadFile=downloadFile)] *)
Definition syn_get (entity : string) (version : option nat)
  (downloadFile : bool) : M Entity :=
  fun w =>
    match find_entity entity w with
    | None => Raise SynapseHTTPError w
    | Some e =>
        if match version with
           | Some v => negb (Nat.eqb v (ent_versionNumber e))
           | None => false
           end
        then Raise SynapseHTTPError w
        else
          match ent_type e, ent_dataFileHandleId e, ent_externalURL e with
          | File, Some h, None =>
              if downloadFile
              then Ok (set_ent_path (Some (cache_path h)) (ent_synapseStore e) e)
                      (add_transfer (Download h) w)
              else Ok e w
          | _, _, _ => Ok e w
          end
    end.

(** [syn.query('select name from entity where parentId == "<parent>"')['results']] *)
Definition syn_query_names (parent : string) : M (list string) :=
  fun w => Ok (map ent_name (children_of parent w)) w.

(** [syn.chunkedQuery('select id, name from entity where parentId=="<parent>"')] *)
Definition syn_chunkedQuery (parent : string) : M (list string) :=
  fun w => Ok (map ent_id (children_of parent w)) w.

(** [syn.query('select name from table where projectId == "<project>"')['results']] *)
Definition syn_query_table_names (project : string) : M (list string) :=
  fun w =>
    Ok (map ent_name
          (filter (fun e => EntityType_eqb (ent_type e) Schema)
                  (children_of project w))) w.

(** [syn.getUserProfile().ownerId] *)
Definition syn_getUserProfile : M string :=
  fun w => Ok (ownerId w) w.

(** [syn.getProvenance(entity)]: fails with a 404 when none is recorded. *)
Definition syn_getProvenance (entity : string) : M Activity :=
  fun w =>
    match dict_get entity (provenance w) with
    | Some a => Ok a w
    | None => Raise SynapseHTTPError w
    end.

(** [syn.restGET('/entity/<id>/version/<v>/filehandles')['list']] *)
Definition syn_restGET_filehandles (entity : string) (version : nat)
  : M (list FileHandle) :=
  fun w =>
    match find_entity entity w with
    | Some e =>
        if Nat.eqb version (ent_versionNumber e)
        then Ok (ent_fileHandles e) w
        else Raise SynapseHTTPError w
    | None => Raise SynapseHTTPError w
    end.

(** [syn.tableQuery('select * from <id>').asDataFrame()] *)
Definition syn_tableQuery (table : string) : M (list (list string)) :=
  fun w =>
    match find_entity table w with
    | Some e => Ok (ent_rows e) w
    | None => Raise SynapseHTTPError w
    end.

Definition known_fileHandle (h : string) (w : World) : list FileHandle :=
  match find (fun fh => String.eqb (fh_id fh) h)
             (flat_map ent_fileHandles (entities w)) with
  | Some fh => [fh]
  | None => []
  end.

(** What a store does with the file of a File entity: a local path is
    uploaded under a fresh file handle of the acting user, an external URL
    gets a fresh handle without any transfer, a given file handle is kept. *)
Definition store_file (obj : Entity) : M Entity :=
  fun w =>
    match ent_type obj, ent_path obj with
    | File, Some p =>
        let h := mkFileHandle (str_of_nat (counter w)) (ownerId w) p in
        let w1 := set_counter (S (counter w)) w in
        if ent_synapseStore obj
        then Ok (set_ent_handle (Some (fh_id h)) None [h] obj)
                (add_transfer (Upload p) w1)
        else Ok (set_ent_handle (Some (fh_id h)) (Some p) [h] obj) w1
    | File, None =>
        match ent_dataFileHandleId obj with
        | Some h =>
            Ok (set_ent_handle (Some h) (ent_externalURL obj)
                  (known_fileHandle h w) obj) w
        | None => Ok obj w
        end
    | _, _ => Ok obj w
    end.

Definition same_place (a b : Entity) : bool :=
  opt_eqb (ent_parentId a) (ent_parentId b)
  && String.eqb (ent_name a) (ent_name b).

(** The entity found at a place gives way to the one stored there. *)
Fixpoint replace_first (here : Entity -> bool) (stored : Entity)
  (es : list Entity) : list Entity :=
  match es with
  | [] => []
  | e :: es' =>
      if here e then stored :: es' else e :: replace_first here stored es'
  end.

Definition record_activity (i : string) (activity : option Activity)
  (w : World) : World :=
  match activity with
  | Some a => set_provenance (dict_set i a (provenance w)) w
  | None => w
  end.

(** [syn.store(obj, activity=activity)] for an entity. *)
Definition syn_store (obj : Entity) (activity : option Activity) : M Entity :=
  fun w =>
    if EntityType_eqb (ent_type obj) Link
       && match find_entity (ent_targetId obj) w with
          | Some _ => false
          | None => true
          end
    then Raise SynapseHTTPError w
    else
      match store_file obj w with
      | Ok obj1 w1 =>
          match (if String.eqb (ent_name obj1) "" then None
                 else find (same_place obj1) (entities w1)) with
          | Some old =>
              if EntityType_eqb (ent_type old) (ent_type obj1)
              then
                let stored :=
                  stamp (ent_id old) (S (ent_versionNumber old)) obj1 in
                Ok stored
                   (record_activity (ent_id stored) activity
                      (set_entities
                         (replace_first (same_place obj1) stored
                                        (entities w1)) w1))
              else Raise SynapseHTTPError w1
          | None =>
              let stored := stamp ("syn" ++ str_of_nat (counter w1)) 1 obj1 in
              Ok stored
                 (record_activity (ent_id stored) activity
                    (set_counter (S (counter w1))
                       (set_entities (entities w1 ++ [stored])%list w1)))
          end
      | Raise e w1 => Raise e w1
      | OutOfFuel => OutOfFuel
      end.

(** ** Options of a copy

    The keyword arguments the copy functions read, with the defaults of
    [kwargs.get]. *)
Record Kwargs : Type := mkKwargs {
  version : option nat;
  update : bool;
  setProvenance : option string;
  excludeTypes : list string;
  updateLinks : bool;
  updateSynIds : bool;
  entitySubPageId : option string;
  destinationSubPageId : option string;
  mapping : Dict string
}.

Definition default_kwargs : Kwargs :=
  mkKwargs None false (Some "traceback") [] true true None None [].

(** ** Copy functions *)

Definition dquote : string :=
  String (Ascii false true false false false true false false) EmptyString.

(** ['An item named "%s" already exists in this location. <what> could not be copied' % name] *)
Definition already_exists (what name : string) : string :=
  "An item named " ++ dquote ++ name ++ dquote
  ++ " already exists in this location. " ++ what ++ " could not be copied".

Definition table_already_exists (name : string) : string :=
  "A table named " ++ dquote ++ name ++ dquote
  ++ " already exists in this location. Table could not be copied".

(** [for i in search['results']: if i['entity.name'] == name: raise ValueError(msg)] *)
Definition check_name (search : list string) (name msg : string) : M unit :=
  for_ search
       (fun i => if String.eqb i name then raise (ValueError msg) else ret tt).

(** The [for ... else] of [_copyFile]: the creator of the first listed file
    handle whose id is the entity's data file handle, [None] without one. *)
Fixpoint createdBy_of (fileHandleList : list FileHandle)
  (dataFileHandleId : option string) : option string :=
  match fileHandleList with
  | [] => None
  | fileHandle :: rest =>
      if opt_eqb (Some (fh_id fileHandle)) dataFileHandleId
      then Some (fh_createdBy fileHandle)
      else createdBy_of rest dataFileHandleId
  end.

(** Lines 192-204 of [_copyFile]: the activity the copy is stored with. *)
Definition setProvenance_known (setProvenance : option string) : bool :=
  opt_eqb setProvenance (Some "traceback")
  || opt_eqb setProvenance (Some "existing")
  || match setProvenance with
     | None => true
     | Some s => String.eqb (lower s) "none"
     end.

Definition resolve_provenance (setProvenance : option string) (ent : Entity)
  : M (option Activity) :=
  if opt_eqb setProvenance (Some "traceback")
  then ret (Some (mkActivity "Copied file" [ent_id ent]))
  else if opt_eqb setProvenance (Some "existing")
  then except_SynapseHTTPError
         (a <- syn_getProvenance (ent_id ent) ;; ret (Some a))
         (ret None)
  else if match setProvenance with
          | None => true
          | Some s => String.eqb (lower s) "none"
          end
  then ret None
  else raise (ValueError
         "setProvenance must be one of None, existing, or traceback").

(** Lines 217-234: the File to store and the entity its annotations are
    taken from (the branch that rehosts fetches [ent] again). *)
Definition new_file (entity destinationId : string) (version : option nat)
  (profile : string) (createdBy : option string) (ent : Entity)
  : M (Entity * Entity) :=
  if opt_eqb (Some profile) createdBy
  then
    let new_ent := new_entity File (ent_name ent) (Some destinationId) in
    ret (set_ent_dataFileHandleId (ent_dataFileHandleId ent) new_ent, ent)
  else
    match ent_externalURL ent with
    | None =>
        let store := true in
        ent <- syn_get entity version store ;;
        let path := ent_path ent in
        ret (set_ent_path path store
               (new_entity File (ent_name ent) (Some destinationId)), ent)
    | Some _ =>
        let store := false in
        ent <- syn_get entity version store ;;
        let path := ent_externalURL ent in
        ret (set_ent_path path store
               (new_entity File (ent_name ent) (Some destinationId)), ent)
    end.

Definition _copyFile (entity destinationId : string) (version : option nat)
  (update : bool) (setProvenance : option string) : M string :=
  ent <- syn_get entity version false ;;
  (if negb update
   then search <- syn_query_names destinationId ;;
        check_name search (ent_name ent) (already_exists "File" (ent_name ent))
   else ret tt) ;;;
  profile <- syn_getUserProfile ;;
  act <- resolve_provenance setProvenance ent ;;
  fileHandleList <- syn_restGET_filehandles (ent_id ent)
                                            (ent_versionNumber ent) ;;
  let createdBy := createdBy_of fileHandleList (ent_dataFileHandleId ent) in
  new_ent_ent <- new_file entity destinationId version profile createdBy ent ;;
  let new_ent := fst new_ent_ent in
  let ent := snd new_ent_ent in
  let new_ent := set_ent_annotations (ent_annotations ent) new_ent in
  new_ent <- (match act with
              | Some a => syn_store new_ent (Some a)
              | None => syn_store new_ent None
              end) ;;
  ret (ent_id new_ent).

Definition _copyTable (entity destinationId : string) (setAnnotations : bool)
  : M string :=
  print ("Getting table " ++ entity) ;;;
  myTableSchema <- syn_get entity None true ;;
  search <- syn_query_table_names destinationId ;;
  check_name search (ent_name myTableSchema)
             (table_already_exists (ent_name myTableSchema)) ;;;
  d <- syn_tableQuery (ent_id myTableSchema) ;;
  let colIds := ent_columnIds myTableSchema in
  let newTableSchema :=
    set_ent_columns colIds []
      (new_entity Schema (ent_name myTableSchema) (Some destinationId)) in
  let newTableSchema :=
    if setAnnotations
    then set_ent_annotations (ent_annotations myTableSchema) newTableSchema
    else newTableSchema in
  if Nat.ltb 0 (List.length d)
  then
    print ("Created new table using schema " ++ ent_name newTableSchema) ;;;
    newTable <- syn_store (set_ent_columns colIds d newTableSchema) None ;;
    ret (ent_id newTable)
  else
    print ("No data, so storing schema " ++ ent_name newTableSchema) ;;;
    newTableSchema <- syn_store newTableSchema None ;;
    ret (ent_id newTableSchema).

Definition _copyLink (entity destinationId : string) : M (option string) :=
  ent <- syn_get entity None true ;;
  search <- syn_query_names destinationId ;;
  check_name search (ent_name ent) (already_exists "Link" (ent_name ent)) ;;;
  let newLink :=
    set_ent_target (ent_targetId ent) (ent_targetVersionNumber ent)
      (new_entity Link "" (Some destinationId)) in
  except_Exception
    (newLink <- syn_store newLink None ;; ret (Some (ent_id newLink)))
    (fun e =>
       print ("WARNING: The target of this link " ++ ent_id ent
              ++ " no longer exists") ;;;
       ret None).

(** [_copyFolder] returns the id of the new folder; the [mapping] it was
    given is the caller's own dictionary, which the recursive calls write
    to, so the model returns its new contents as well.  [_copyRecursive] is
    the function the folder's children are copied with. *)
Definition _copyFolder
  (_copyRecursive : string -> string -> Dict string -> Kwargs
                    -> M (Dict string))
  (entity destinationId : string) (mapping : Dict string) (kwargs : Kwargs)
  : M (string * Dict string) :=
  oldFolder <- syn_get entity None true ;;
  search <- syn_query_names destinationId ;;
  check_name search (ent_name oldFolder)
             (already_exists "Folder" (ent_name oldFolder)) ;;;
  let newFolder := new_entity Folder (ent_name oldFolder) (Some destinationId) in
  let newFolder := set_ent_annotations (ent_annotations oldFolder) newFolder in
  newFolder <- syn_store newFolder None ;;
  entities <- syn_chunkedQuery entity ;;
  mapping <- for_each entities
               (fun mapping ent =>
                  _copyRecursive ent (ent_id newFolder) mapping kwargs)
               mapping ;;
  ret (ent_id newFolder, mapping).

Definition allowed_excludeTypes : list string := ["file"; "link"; "table"].

Definition str_in (x : string) (xs : list string) : bool :=
  existsb (String.eqb x) xs.

(** The last lines of [_copyRecursive]. *)
Definition report (ent : Entity) (copiedId : option string)
  (mapping : Dict string) : M (Dict string) :=
  match copiedId with
  | Some c => print ("Copied " ++ ent_id ent ++ " to " ++ c)
  | None => print (ent_id ent ++ " not copied")
  end ;;;
  ret mapping.

(** The recursion follows the entity tree held by the service, which the
    copy itself extends; [fuel] bounds its depth. *)
Fixpoint _copyRecursive (fuel : nat) (entity destinationId : string)
  (mapping : Dict string) (kwargs : Kwargs) {struct fuel}
  : M (Dict string) :=
  match fuel with
  | O => out_of_fuel
  | S fuel' =>
      let version := version kwargs in
      let setProvenance := setProvenance kwargs in
      let excludeTypes := excludeTypes kwargs in
      let update := update kwargs in
      if negb (forallb (fun i => str_in i allowed_excludeTypes) excludeTypes)
      then raise (ValueError
        "Excluded types can only be a list of these values: file, table, and link")
      else
        ent <- syn_get entity None false ;;
        match ent_type ent with
        | Project =>
            match version with
            | Some _ => raise (ValueError
                "Cannot specify version when copying a project of folder")
            | None =>
                dest <- syn_get destinationId None true ;;
                if negb (EntityType_eqb (ent_type dest) Project)
                then raise (ValueError
                  "You must give a destinationId of a new project to copy projects")
                else
                  let copiedId := destinationId in
                  let mapping := dict_set (ent_id ent) copiedId mapping in
                  entities <- syn_chunkedQuery (ent_id ent) ;;
                  mapping <- for_each entities
                               (fun mapping i =>
                                  _copyRecursive fuel' i destinationId
                                                 mapping kwargs)
                               mapping ;;
                  report ent (Some copiedId) mapping
            end
        | Folder =>
            match version with
            | Some _ => raise (ValueError
                "Cannot specify version when copying a project of folder")
            | None =>
                r <- _copyFolder (_copyRecursive fuel') (ent_id ent)
                                 destinationId mapping kwargs ;;
                let copiedId := fst r in
                let mapping := dict_set (ent_id ent) copiedId (snd r) in
                report ent (Some copiedId) mapping
            end
        | File =>
            if negb (str_in "file" excludeTypes)
            then
              copiedId <- _copyFile (ent_id ent) destinationId version update
                                    setProvenance ;;
              let mapping := dict_set (ent_id ent) copiedId mapping in
              report ent (Some copiedId) mapping
            else report ent None mapping
        | Link =>
            if negb (str_in "link" excludeTypes)
            then
              copiedId <- _copyLink (ent_id ent) destinationId ;;
              match copiedId with
              | Some c =>
                  let mapping := dict_set (ent_id ent) c mapping in
                  report ent copiedId mapping
              | None => report ent copiedId mapping
              end
            else report ent None mapping
        | Schema =>
            if negb (str_in "table" excludeTypes)
            then
              copiedId <- _copyTable (ent_id ent) destinationId false ;;
              let mapping := dict_set (ent_id ent) copiedId mapping in
              report ent (Some copiedId) mapping
            else report ent None mapping
        | OtherType =>
            raise (ValueError "Not able to copy this type of file")
        end
  end.

(** [copy]'s recursive half is above; its wiki half follows the wiki
    functions below. *)

(** ** Wiki pages on the service

    Modelled from the spec: the wiki calls of the Synapse client (header
    tree, page fetch, attachment handles and download, page create and
    update).  The header list of an owner is the list of its pages in the
    order the service holds them; the root page has no [parentId]. *)

Definition header_of (p : WikiPage) : WikiHeader :=
  mkHeader (wiki_id p) (wiki_parentWikiId p) (wiki_title p).

Definition pages_of (owner : string) (w : World) : list WikiPage :=
  filter (fun p => String.eqb (wiki_ownerId p) owner) (wikis w).

(** [syn.getWikiHeaders(owner)]: fails when the owner has no wiki. *)
Definition syn_getWikiHeaders (owner : Entity) : M (list WikiHeader) :=
  fun w =>
    match pages_of (ent_id owner) w with
    | [] => Raise SynapseHTTPError w
    | ps => Ok (map header_of ps) w
    end.

Definition find_wiki (owner i : string) (w : World) : option WikiPage :=
  find (fun p => String.eqb (wiki_id p) i) (pages_of owner w).

(** [syn.getWiki(owner, subpageId)] *)
Definition syn_getWiki (owner : Entity) (subpageId : string) : M WikiPage :=
  fun w =>
    match find_wiki (ent_id owner) subpageId w with
    | Some p => Ok p w
    | None => Raise SynapseHTTPError w
    end.

(** [syn.restGET("/entity/<owner>/wiki/<id>/attachmenthandles")['list']] *)
Definition syn_restGET_attachmenthandles (owner i : string)
  : M (list FileHandle) :=
  fun w =>
    match find_wiki owner i w with
    | Some p => Ok (wiki_attachmentHandles p) w
    | None => Raise SynapseHTTPError w
    end.

Definition tempdir : string := "/tmp".

(** [syn._downloadWikiAttachment(owner, wiki, fileName, destination=tempdir)['path']] *)
Definition syn_downloadWikiAttachment (owner : string) (wiki : WikiPage)
  (fileName : string) : M string :=
  fun w => Ok (tempdir ++ "/" ++ fileName) (add_transfer (Download fileName) w).

Definition set_wiki_markdown (s : string) (p : WikiPage) : WikiPage :=
  mkWiki (wiki_id p) (wiki_ownerId p) (wiki_parentWikiId p) (wiki_title p) s
         (wiki_attachmentFileHandleIds p) (wiki_attachmentHandles p)
         (wiki_attachments p).

Definition set_wiki_attachments (a : list string) (p : WikiPage) : WikiPage :=
  mkWiki (wiki_id p) (wiki_ownerId p) (wiki_parentWikiId p) (wiki_title p)
         (wiki_markdown p) (wiki_attachmentFileHandleIds p)
         (wiki_attachmentHandles p) a.

(** [Wiki(owner=owner, title=title, markdown=markdown, attachments=attachments, parentWikiId=parentWikiId)] *)
Definition new_wiki (owner : Entity) (title markdown : string)
  (attachments : list string) (parentWikiId : option string) : WikiPage :=
  mkWiki "" (ent_id owner) parentWikiId (Some title) markdown [] []
         attachments.

(** The uploads of a wiki store: every local attachment becomes a fresh
    file handle of the acting user. *)
Fixpoint upload_attachments (paths : list string) (w : World)
  : list FileHandle * World :=
  match paths with
  | [] => ([], w)
  | p :: paths' =>
      let h := mkFileHandle (str_of_nat (counter w)) (ownerId w) p in
      let r := upload_attachments paths'
                 (add_transfer (Upload p) (set_counter (S (counter w)) w)) in
      (h :: fst r, snd r)
  end.

Fixpoint replace_wiki (stored : WikiPage) (ps : list WikiPage)
  : list WikiPage :=
  match ps with
  | [] => []
  | p :: ps' =>
      if String.eqb (wiki_ownerId p) (wiki_ownerId stored)
         && String.eqb (wiki_id p) (wiki_id stored)
      then stored :: ps'
      else p :: replace_wiki stored ps'
  end.

(** [syn.store(wiki)]: a page without an id is created, one with an id is
    updated; the local attachments are uploaded and leave the object. *)
Definition syn_store_wiki (wiki : WikiPage) : M WikiPage :=
  fun w =>
    let up := upload_attachments (wiki_attachments wiki) w in
    let w1 := snd up in
    let filled (i : string) :=
      mkWiki i (wiki_ownerId wiki) (wiki_parentWikiId wiki) (wiki_title wiki)
             (wiki_markdown wiki)
             (wiki_attachmentFileHandleIds wiki ++ map fh_id (fst up))%list
             (wiki_attachmentHandles wiki ++ fst up)%list [] in
    if String.eqb (wiki_id wiki) ""
    then
      let stored := filled (str_of_nat (counter w1)) in
      Ok stored
         (set_counter (S (counter w1))
            (set_wikis (wikis w1 ++ [stored])%list w1))
    else
      match find_wiki (wiki_ownerId wiki) (wiki_id wiki) w1 with
      | Some _ =>
          let stored := filled (wiki_id wiki) in
          Ok stored (set_wikis (replace_wiki stored (wikis w1)) w1)
      | None => Raise SynapseHTTPError w1
      end.

(** ** Wiki functions *)

(** [i.pop("parentId", None)] *)
Definition pop_parentId (i : WikiHeader) : WikiHeader :=
  mkHeader (h_id i) None (h_title i).

Fixpoint list_update {A : Type} (n : nat) (x : A) (l : list A) : list A :=
  match l, n with
  | [], _ => []
  | _ :: l', O => x :: l'
  | y :: l', S n' => y :: list_update n' x l'
  end.

(** The [for i in wikiHeaders] loop of [_getSubWikiHeaders].  The headers
    are objects shared between [wikiHeaders] and [mapping], and the loop
    strips the [parentId] of one of them in place: [wikiHeaders] is threaded
    through as the store of these objects and the loop walks its positions.
    [mapping] holds the headers as they were when appended; none changes
    afterwards, the only [pop] being the one before the first append. *)
Fixpoint subwiki_loop
  (_getSubWikiHeaders : list WikiHeader -> string -> list WikiHeader
                        -> option (list WikiHeader * list WikiHeader))
  (positions : list nat) (wikiHeaders : list WikiHeader) (subPageId : string)
  (mapping : list WikiHeader)
  : option (list WikiHeader * list WikiHeader) :=
  match positions with
  | [] => Some (wikiHeaders, mapping)
  | n :: rest =>
      match nth_error wikiHeaders n with
      | None => subwiki_loop _getSubWikiHeaders rest wikiHeaders subPageId
                             mapping
      | Some i =>
          if String.eqb (h_id i) subPageId
             && Nat.eqb (List.length mapping) 0
          then
            let i := pop_parentId i in
            subwiki_loop _getSubWikiHeaders rest
                         (list_update n i wikiHeaders) subPageId
                         (mapping ++ [i])%list
          else if String.eqb (h_id i) subPageId
          then subwiki_loop _getSubWikiHeaders rest wikiHeaders subPageId
                            (mapping ++ [i])%list
          else
            match h_parentId i with
            | Some parentId =>
                if String.eqb parentId subPageId
                then
                  match _getSubWikiHeaders wikiHeaders (h_id i) mapping with
                  | Some (wikiHeaders', mapping') =>
                      subwiki_loop _getSubWikiHeaders rest wikiHeaders'
                                   subPageId mapping'
                  | None => None
                  end
                else subwiki_loop _getSubWikiHeaders rest wikiHeaders
                                  subPageId mapping
            | None => subwiki_loop _getSubWikiHeaders rest wikiHeaders
                                   subPageId mapping
            end
      end
  end.

(** [_getSubWikiHeaders(wikiHeaders, subPageId, mapping)]; the result is the
    pair of the header objects after the call and the returned [mapping],
    [None] when [fuel] does not cover the depth of the recursion. *)
Fixpoint _getSubWikiHeaders (fuel : nat) (wikiHeaders : list WikiHeader)
  (subPageId : string) (mapping : list WikiHeader) {struct fuel}
  : option (list WikiHeader * list WikiHeader) :=
  match fuel with
  | O => None
  | S fuel' =>
      subwiki_loop (_getSubWikiHeaders fuel')
                   (seq 0 (List.length wikiHeaders)) wikiHeaders subPageId
                   mapping
  end.

Inductive WikiResult : Type :=
| NewWikiHeaders (newWh : list WikiHeader)
| NoWiki.

Definition nl : string :=
  String (Ascii false true false true false false false false) EmptyString.

Definition tab : string :=
  String (Ascii true false false true false false false false) EmptyString.

(** [d[k]], a [KeyError] without the key. *)
Definition dict_lookup {V : Type} (k : string) (d : Dict V) : M V :=
  match dict_get k d with
  | Some v => ret v
  | None => raise (KeyError k)
  end.

Definition opt_key (k : option string) : string :=
  match k with
  | Some s => s
  | None => "None"
  end.

(** Lines 374-385 of [copyWiki]: the attachments of a page are downloaded
    to be uploaded again. *)
Definition download_attachments (wiki : WikiPage) : M (list string) :=
  match wiki_attachmentFileHandleIds wiki with
  | [] => ret []
  | _ =>
      results <- syn_restGET_attachmenthandles (wiki_ownerId wiki)
                                               (wiki_id wiki) ;;
      let file_handles :=
        fold_left (fun d fh => dict_set (fh_id fh) fh d) results [] in
      for_each (wiki_attachmentFileHandleIds wiki)
               (fun attachments fhid =>
                  fh <- dict_lookup fhid file_handles ;;
                  path <- syn_downloadWikiAttachment (wiki_ownerId wiki) wiki
                                                     (fh_fileName fh) ;;
                  ret (attachments ++ [path])%list)
               []
  end.

Definition title_of (wiki : WikiPage) : string :=
  match wiki_title wiki with
  | Some t => t
  | None => ""
  end.

(** The body of [for i in oldWh] in [copyWiki], on the two dictionaries the
    loop fills. *)
Definition copy_page (oldOwn newOwn : Entity)
  (destinationSubPageId : option string)
  (maps : Dict string * Dict WikiPage) (i : WikiHeader)
  : M (Dict string * Dict WikiPage) :=
  let wikiIdMap := fst maps in
  let newWikis := snd maps in
  wiki <- syn_getWiki oldOwn (h_id i) ;;
  print ("Got wiki " ++ h_id i) ;;;
  attachments <- download_attachments wiki ;;
  wNew <-
    match h_parentId i with
    | Some _ =>
        parentWikiId <- dict_lookup (opt_key (wiki_parentWikiId wiki))
                                    wikiIdMap ;;
        syn_store_wiki
          (new_wiki newOwn (title_of wiki) (wiki_markdown wiki) attachments
                    (Some parentWikiId))
    | None =>
        match destinationSubPageId with
        | Some d =>
            wNew <- syn_getWiki newOwn d ;;
            let wNew := set_wiki_attachments attachments wNew in
            let wNew := set_wiki_markdown (wiki_markdown wiki) wNew in
            syn_store_wiki wNew
        | None =>
            syn_store_wiki
              (new_wiki newOwn (title_of wiki) (wiki_markdown wiki)
                        attachments destinationSubPageId)
        end
    end ;;
  let newWikis := dict_set (wiki_id wNew) wNew newWikis in
  let wikiIdMap := dict_set (wiki_id wiki) (wiki_id wNew) wikiIdMap in
  ret (wikiIdMap, newWikis).

(** Lines 410-419: the new markdown of one page under [updateLinks]. *)
Definition rewrite_links (entity destinationId : string)
  (wikiIdMap : Dict string) (s : string) : string :=
  let s :=
    fold_left
      (fun s oldWikiId2 =>
         match dict_get oldWikiId2 wikiIdMap with
         | Some newWikiId2 =>
             let oldProjectAndWikiId := entity ++ "/wiki/" ++ oldWikiId2 in
             let newProjectAndWikiId :=
               destinationId ++ "/wiki/" ++ newWikiId2 in
             re_sub oldProjectAndWikiId newProjectAndWikiId s
         | None => s
         end)
      (dict_keys wikiIdMap) s in
  re_sub entity destinationId s.

(** Lines 429-434: the new markdown of one page under [updateSynIds]. *)
Definition rewrite_synIds (entityMap : Dict string) (s : string) : string :=
  fold_left
    (fun s oldSynId =>
       match dict_get oldSynId entityMap with
       | Some newSynId => re_sub oldSynId newSynId s
       | None => s
       end)
    (dict_keys entityMap) s.

(** Lines 403-420. *)
Definition update_links (updateLinks : bool) (entity destinationId : string)
  (wikiIdMap : Dict string) (newWikis : Dict WikiPage)
  : M (Dict WikiPage) :=
  if updateLinks
  then
    print ("Updating internal links:" ++ nl) ;;;
    for_each (dict_keys wikiIdMap)
      (fun newWikis oldWikiId =>
         newWikiId <- dict_lookup oldWikiId wikiIdMap ;;
         newWiki <- dict_lookup newWikiId newWikis ;;
         print (tab ++ "Updating internal links for Page: " ++ newWikiId
                ++ nl) ;;;
         let s := wiki_markdown newWiki in
         let s := rewrite_links entity destinationId wikiIdMap s in
         ret (dict_set newWikiId (set_wiki_markdown s newWiki) newWikis))
      newWikis
  else ret newWikis.

(** Lines 422-436. *)
Definition update_synIds (updateSynIds : bool)
  (entityMap : option (Dict string)) (wikiIdMap : Dict string)
  (newWikis : Dict WikiPage) : M (Dict WikiPage) :=
  match updateSynIds, entityMap with
  | true, Some entityMap =>
      print ("Updating Synapse references:" ++ nl) ;;;
      for_each (dict_keys wikiIdMap)
        (fun newWikis oldWikiId =>
           newWikiId <- dict_lookup oldWikiId wikiIdMap ;;
           newWiki <- dict_lookup newWikiId newWikis ;;
           print ("Updated Synapse references for Page: " ++ newWikiId
                  ++ nl) ;;;
           let s := wiki_markdown newWiki in
           let s := rewrite_synIds entityMap s in
           print ("Done updating Synpase IDs." ++ nl) ;;;
           ret (dict_set newWikiId (set_wiki_markdown s newWiki) newWikis))
        newWikis
  | _, _ => ret newWikis
  end.

(** Lines 438-442. *)
Definition store_wikis (wikiIdMap : Dict string) (newWikis : Dict WikiPage)
  : M (Dict WikiPage) :=
  print ("Storing new Wikis" ++ nl) ;;;
  for_each (dict_keys wikiIdMap)
    (fun newWikis oldWikiId =>
       newWikiId <- dict_lookup oldWikiId wikiIdMap ;;
       page <- dict_lookup newWikiId newWikis ;;
       stored <- syn_store_wiki page ;;
       print (tab ++ "Stored: " ++ newWikiId ++ nl) ;;;
       ret (dict_set newWikiId stored newWikis))
    newWikis.

(** Lines 364-365: the headers [copyWiki] goes through, [None] when [fuel]
    does not cover [_getSubWikiHeaders]. *)
Definition restrict_headers (fuel : nat) (oldWh : list WikiHeader)
  (entitySubPageId : option string) : option (list WikiHeader) :=
  match entitySubPageId with
  | Some subPageId =>
      match _getSubWikiHeaders fuel oldWh subPageId [] with
      | Some r => Some (snd r)
      | None => None
      end
  | None => Some oldWh
  end.

Definition copyWiki (fuel : nat) (entity destinationId : string)
  (entitySubPageId destinationSubPageId : option string)
  (updateLinks updateSynIds : bool) (entityMap : option (Dict string))
  : M WikiResult :=
  oldOwn <- syn_get entity None false ;;
  oldWh <- except_SynapseHTTPError
             (oldWh <- syn_getWikiHeaders oldOwn ;; ret (Some oldWh))
             (ret None) ;;
  match oldWh with
  | Some oldWh =>
      oldWh <- match restrict_headers fuel oldWh entitySubPageId with
               | Some oldWh => ret oldWh
               | None => out_of_fuel
               end ;;
      newOwn <- syn_get destinationId None false ;;
      maps <- for_each oldWh (copy_page oldOwn newOwn destinationSubPageId)
                       ([], []) ;;
      let wikiIdMap := fst maps in
      let newWikis := snd maps in
      newWikis <- update_links updateLinks entity destinationId wikiIdMap
                               newWikis ;;
      newWikis <- update_synIds updateSynIds entityMap wikiIdMap newWikis ;;
      newWikis <- store_wikis wikiIdMap newWikis ;;
      newWh <- syn_getWikiHeaders newOwn ;;
      ret (NewWikiHeaders newWh)
  | None => ret NoWiki
  end.

(** [copy(syn, entity, destinationId, copyWikiPage, **kwargs)] *)
Definition copy (fuel : nat) (entity destinationId : string)
  (copyWikiPage : bool) (kwargs : Kwargs) : M (Dict string) :=
  let updateLinks := updateLinks kwargs in
  let updateSynIds := updateSynIds kwargs in
  let entitySubPageId := entitySubPageId kwargs in
  let destinationSubPageId := destinationSubPageId kwargs in
  let mapping := mapping kwargs in
  mapping <- _copyRecursive fuel entity destinationId mapping kwargs ;;
  (if copyWikiPage
   then
     for_ (dict_keys mapping)
          (fun oldEnt =>
             newEnt <- dict_lookup oldEnt mapping ;;
             copyWiki fuel oldEnt newEnt entitySubPageId destinationSubPageId
                      updateLinks updateSynIds (Some mapping) ;;;
             ret tt)
   else ret tt) ;;;
  ret mapping.

(** ** Sample data

    A project [syn1] holding a folder [syn2] with a file [syn3] of another
    user, a link [syn4] to an entity that is gone and a link [syn5] to the
    file; an empty project [syn9]; a two-page wiki on [syn1]. *)

Definition sample_entity (i : string) (t : EntityType) (name : string)
  (parent : option string) : Entity :=
  mkEntity i t name parent [] 1 None None None true "" None [] [] [].

Definition sample_file (i name parent handle creator : string) : Entity :=
  mkEntity i File name (Some parent) [("tissue", "liver")] 1 (Some handle)
           None None true "" None [] []
           [mkFileHandle handle creator name].

Definition sample_external (i name parent handle creator url : string)
  : Entity :=
  mkEntity i File name (Some parent) [] 1 (Some handle) (Some url) None false
           "" None [] [] [mkFileHandle handle creator name].

Definition sample_link (i name parent target : string) : Entity :=
  mkEntity i Link name (Some parent) [] 1 None None None true target None
           [] [] [].

Definition sample_world : World :=
  mkWorld
    [ sample_entity "syn1" Project "study" None;
      sample_entity "syn2" Folder "raw" (Some "syn1");
      sample_file "syn3" "data.txt" "syn2" "100" "u2";
      sample_link "syn4" "gone" "syn2" "syn77";
      sample_link "syn5" "data" "syn2" "syn3";
      sample_entity "syn9" Project "copy" None ]
    [ mkWiki "5" "syn1" None (Some "home") "see syn1/wiki/5" [] [] [];
      mkWiki "6" "syn1" (Some "5") (Some "methods") "back to syn1/wiki/5"
             [] [] [] ]
    [] "u1" 200 [] [].

(** ** The rewriting passes in the words of the specification

    Reference definitions for the refinement statement on the Reference
    Rewriter: the link pass replaces, for every pair of the wiki id map,
    [<source>/wiki/<old>] by [<destination>/wiki/<new>] and then every bare
    [<source>] that is left by [<destination>]; the entity pass replaces
    every old entity reference by its counterpart. *)

Definition spec_link_pass (sourceEntityRef destinationEntityRef : string)
  (wikiIdMap : list (string * string)) (markdown : string) : string :=
  let linked :=
    fold_left
      (fun md pair =>
         re_sub (sourceEntityRef ++ "/wiki/" ++ fst pair)
                (destinationEntityRef ++ "/wiki/" ++ snd pair) md)
      wikiIdMap markdown in
  re_sub sourceEntityRef destinationEntityRef linked.

Definition spec_entity_pass (entityMapping : list (string * string))
  (markdown : string) : string :=
  fold_left (fun md pair => re_sub (fst pair) (snd pair) md)
            entityMapping markdown.

(** What the two rewriting loops do to one page. *)
Definition links_of (entity destinationId : string) (wikiIdMap : Dict string)
  (page : WikiPage) : WikiPage :=
  set_wiki_markdown
    (rewrite_links entity destinationId wikiIdMap (wiki_markdown page)) page.

Definition synIds_of (entityMap : Dict string) (page : WikiPage) : WikiPage :=
  set_wiki_markdown (rewrite_synIds entityMap (wiki_markdown page)) page.

(** ** Well-formed states of the service *)

(** The service has not yet issued the id its counter stands at as the file
    handle of an entity. *)
Definition counter_fresh (w : World) : Prop :=
  forall e, In e (entities w) ->
            ent_dataFileHandleId e <> Some (str_of_nat (counter w)).

(** [version] is absent or names the version the service holds. *)
Definition version_held (version : option nat) (ent : Entity) : Prop :=
  version = None \/ version = Some (ent_versionNumber ent).

(** No entity under [destinationId] bears the name [name]. *)
Definition name_free (name destinationId : string) (w : World) : Prop :=
  forall e, In e (entities w) -> ent_parentId e = Some destinationId ->
            ent_name e <> name.

Definition warning_of (ent : Entity) : string :=
  "WARNING: The target of this link " ++ ent_id ent ++ " no longer exists".

(** A file whose version lists only a preview handle, not its data file
    handle [100], in an otherwise empty project, and an empty project. *)
Definition unlisted_file : Entity :=
  mkEntity "syn3" File "data.txt" (Some "syn1") [] 1 (Some "100") None None
           true "" None [] [] [mkFileHandle "101" "u1" "preview.png"].

Definition unlisted_world : World :=
  mkWorld
    [ sample_entity "syn1" Project "study" None;
      unlisted_file;
      sample_entity "syn9" Project "copy" None ]
    [] [] "u1" 200 [] [].

(** The messages of the three argument errors. *)
Definition excludeTypes_message : string :=
  "Excluded types can only be a list of these values: file, table, and link".

Definition version_message : string :=
  "Cannot specify version when copying a project of folder".

Definition setProvenance_message : string :=
  "setProvenance must be one of None, existing, or traceback".

(** Options with a [setProvenance] the copy does not know. *)
Definition bogus_provenance : Kwargs :=
  mkKwargs None false (Some "bogus") [] true true None None [].

(** ** The entity tree and what a walk writes

    The tree is the one the service holds: the children of a Project or
    Folder are the entities that name it as their parent. *)

Definition is_container (e : Entity) : bool :=
  match ent_type e with
  | Project | Folder => true
  | _ => false
  end.

Definition child_ids (parent : string) (w : World) : list string :=
  map ent_id (children_of parent w).

Inductive reachable (w : World) : string -> string -> Prop :=
| reachable_root : forall root e,
    find_entity root w = Some e -> reachable w root root
| reachable_child : forall root e child x,
    find_entity root w = Some e -> is_container e = true ->
    In child (child_ids root w) -> reachable w child x ->
    reachable w root x.

(** An entity whose kind is listed in [excludeTypes]. *)
Definition excluded (kwargs : Kwargs) (e : Entity) : Prop :=
  (ent_type e = File /\ str_in "file" (excludeTypes kwargs) = true)
  \/ (ent_type e = Link /\ str_in "link" (excludeTypes kwargs) = true)
  \/ (ent_type e = Schema /\ str_in "table" (excludeTypes kwargs) = true).

(** A Link whose target the service does not hold. *)
Definition broken_link (w : World) (e : Entity) : Prop :=
  ent_type e = Link /\ find_entity (ent_targetId e) w = None.

(** [x] is a key of [mapping], or is excluded, or is a broken link. *)
Definition covered (w : World) (kwargs : Kwargs) (mapping : Dict string)
  (x : string) : Prop :=
  In x (dict_keys mapping)
  \/ exists e, find_entity x w = Some e
               /\ (excluded kwargs e \/ broken_link w e).

(** [w'] holds every entity of [w] under its id and type, links as they
    were, and every child of [w] under its parent. *)
Definition extends (w w' : World) : Prop :=
  (forall i e, find_entity i w = Some e ->
     exists e', find_entity i w' = Some e'
                /\ ent_type e' = ent_type e
                /\ (ent_type e = Link -> e' = e))
  /\ (forall parent, incl (child_ids parent w) (child_ids parent w')).

(** A computation of the client only ever extends the service. *)
Definition grows {A : Type} (c : M A) : Prop :=
  forall w,
    match c w with
    | Ok _ w' => extends w w'
    | Raise _ w' => extends w w'
    | OutOfFuel => True
    end.

(** The order of the writes to the mapping.  [written] is the list of the
    writes of a walk, oldest first.  The claim of the specification: the
    entry of the parent of every entity but the root is written before the
    entity's own. *)
Definition parent_first (w : World) (root : string) (written : Dict string)
  : Prop :=
  forall before c v after,
    written = (before ++ (c, v) :: after)%list -> c <> root ->
    exists p, In c (child_ids p w) /\ In p (map fst before).

(** What the walk does: the entry of a Project precedes those of its
    children, the entry of a Folder follows them. *)
Definition ordered (w : World) (before after : Dict string) (c : string)
  : Prop :=
  exists p ep,
    find_entity p w = Some ep /\ In c (child_ids p w)
    /\ ((ent_type ep = Project /\ In p (map fst before))
        \/ (ent_type ep = Folder /\ In p (map fst after))).

Definition project_first_folder_last (w : World) (root : string)
  (written : Dict string) : Prop :=
  forall before c v after,
    written = (before ++ (c, v) :: after)%list -> c <> root ->
    ordered w before after c.

(** What a successful walk from [entity] has done: [mapping'] is [mapping]
    followed by the writes of the walk, in the order of the walk, and the
    writes cover what was reachable in the state [w0] the copy started
    from. *)
Definition walk_post (w0 : World) (kwargs : Kwargs) (entity : string)
  (mapping mapping' : Dict string) (w' : World) : Prop :=
  exists written,
    mapping' = (mapping ++ written)%list
    /\ project_first_folder_last w' entity written
    /\ forall x, reachable w0 entity x -> covered w0 kwargs written x.

(** The same for the loop over the children [cs] of one container. *)
Definition loop_post (w0 : World) (kwargs : Kwargs) (cs : list string)
  (mapping mapping' : Dict string) (w' : World) : Prop :=
  exists written,
    mapping' = (mapping ++ written)%list
    /\ (forall before c v after,
           written = (before ++ (c, v) :: after)%list ->
           In c cs \/ ordered w' before after c)
    /\ forall c x, In c cs -> reachable w0 c x ->
                   covered w0 kwargs written x.

(** ** Wiki trees *)

(** Every header that names a parent comes after the header of that
    parent. *)
Definition parents_precede (hs : list WikiHeader) : Prop :=
  forall before h after,
    hs = (before ++ h :: after)%list ->
    forall p, h_parentId h = Some p -> In p (map h_id before).

(** The header list of a wiki as the copy relies on it: page ids are
    distinct and parents are listed before their children. *)
Definition headers_wf (hs : list WikiHeader) : Prop :=
  NoDup (map h_id hs) /\ parents_precede hs.

(** The attachments of a page are among the file handles the service lists
    for it. *)
Definition attachments_listed (p : WikiPage) : Prop :=
  incl (wiki_attachmentFileHandleIds p) (map fh_id (wiki_attachmentHandles p)).

(** The ids at and above the counter have not been issued to a page. *)
Definition wiki_ids_issued (w : World) : Prop :=
  forall p n, In p (wikis w) -> counter w <= n -> wiki_id p <> str_of_nat n.

Definition wiki_service_ok (w : World) : Prop :=
  Forall attachments_listed (wikis w) /\ wiki_ids_issued w.

(** A wiki with three pages which the service lists children first. *)
Definition child_first_world : World :=
  mkWorld
    [ sample_entity "syn1" Project "study" None;
      sample_entity "syn9" Project "copy" None ]
    [ mkWiki "7" "syn1" (Some "6") (Some "details") "" [] [] [];
      mkWiki "6" "syn1" (Some "5") (Some "methods") "" [] [] [];
      mkWiki "5" "syn1" None (Some "home") "" [] [] [] ]
    [] "u1" 200 [] [].

(** The same wiki listed parents first. *)
Definition parent_first_world : World :=
  mkWorld
    [ sample_entity "syn1" Project "study" None;
      sample_entity "syn9" Project "copy" None ]
    [ mkWiki "5" "syn1" None (Some "home") "" [] [] [];
      mkWiki "6" "syn1" (Some "5") (Some "methods") "" [] [] [];
      mkWiki "7" "syn1" (Some "6") (Some "details") "" [] [] [];
      mkWiki "8" "syn1" (Some "5") (Some "results") "" [] [] [] ]
    [] "u1" 200 [] [].

(** What the copy relies on of a page the service holds: its id, its owner
    and its parent. *)
Definition shape (p : WikiPage) : string * string * option string :=
  (wiki_id p, wiki_ownerId p, wiki_parentWikiId p).

(** [w'] holds the pages of [w] where they were, each with the shape it
    had, and maybe more after them. *)
Definition wiki_extends (w w' : World) : Prop :=
  exists more, map shape (wikis w') = (map shape (wikis w) ++ more)%list.

(** The page of [owner] with id [i], on shapes. *)
Definition shape_at (owner i : string) (s : string * string * option string)
  : bool :=
  String.eqb (snd (fst s)) owner && String.eqb (fst (fst s)) i.

(** The header [h] stands for a page of [owner] in [w], under the parent
    the header names (if it names one). *)
Definition header_for (owner : Entity) (w : World) (h : WikiHeader) : Prop :=
  exists page,
    find_wiki (ent_id owner) (h_id h) w = Some page
    /\ forall p, h_parentId h = Some p -> wiki_parentWikiId page = Some p.

(** The destination sub-page, when one is given, is a page of the
    destination. *)
Definition destination_page_ok (newOwn : Entity)
  (destinationSubPageId : option string) (w : World) : Prop :=
  forall d, destinationSubPageId = Some d ->
            d <> "" /\ exists page, find_wiki (ent_id newOwn) d w = Some page.

(** The pages of the headers [copied] have been copied: [wikiIdMap] was
    written for them in their order, and the copy of every page with a
    parent lies under the copy of that parent. *)
Definition pages_copied (newOwn : Entity) (copied : list WikiHeader)
  (wikiIdMap : Dict string) (w : World) : Prop :=
  map fst wikiIdMap = map h_id copied
  /\ forall h p,
      In h copied -> h_parentId h = Some p ->
      exists new newp page',
        dict_get (h_id h) wikiIdMap = Some new
        /\ dict_get p wikiIdMap = Some newp
        /\ find_wiki (ent_id newOwn) new w = Some page'
        /\ wiki_parentWikiId page' = Some newp.

(** [x] is [s] or lies below it in the tree the headers [hs] describe. *)
Inductive descends (hs : list WikiHeader) (s : string) : string -> Prop :=
| descends_self : descends hs s s
| descends_child : forall h y,
    In h hs -> h_parentId h = Some y -> descends hs s y ->
    descends hs s (h_id h).

(** What one call of [_getSubWikiHeaders] for the page [s] with header [hd]
    appends to a non-empty [mapping]: the header of [s], then headers that
    each name a parent appended before them, all different and all below
    [s]. *)
Definition subtree_appended (hs : list WikiHeader) (s : string)
  (hd : WikiHeader) (out : list WikiHeader) : Prop :=
  (exists tl,
      out = hd :: tl
      /\ forall before x after,
          tl = (before ++ x :: after)%list ->
          exists p, h_parentId x = Some p
                    /\ In p (map h_id (hd :: before)))
  /\ NoDup (map h_id out)
  /\ forall x, In x out -> In x hs /\ descends hs s (h_id x).

(** What the loop of the call for [s] appends from position [j] on, past
    the header of [s]: the subtrees of the children of [s] found there. *)
Definition children_appended (hs : list WikiHeader) (s : string) (j : nat)
  (out : list WikiHeader) : Prop :=
  (forall before x after,
      out = (before ++ x :: after)%list ->
      exists p, h_parentId x = Some p
                /\ (p = s \/ In p (map h_id before)))
  /\ NoDup (map h_id out)
  /\ forall x, In x out ->
       In x hs
       /\ exists i hc, j <= i /\ nth_error hs i = Some hc
                       /\ h_parentId hc = Some s
                       /\ descends hs (h_id hc) (h_id x).

(** The check of [parents_precede], given the ids [seen] so far. *)
Fixpoint parents_precedeb (seen : list string) (hs : list WikiHeader) : bool :=
  match hs with
  | [] => true
  | h :: rest =>
      match h_parentId h with
      | Some p => str_in p seen
      | None => true
      end
      && parents_precedeb (h_id h :: seen) rest
  end.

(** The messages of the two refusals by type. *)
Definition project_destination_message : string :=
  "You must give a destinationId of a new project to copy projects".

Definition unsupported_type_message : string :=
  "Not able to copy this type of file".

(** The provenance the service holds once a copy has been stored under
    [newId] with the activity [act]. *)
Definition provenance_with (newId : string) (act : option Activity)
  (w : World) : Dict Activity :=
  match act with
  | Some a => dict_set newId a (provenance w)
  | None => provenance w
  end.

(** A table [syn6] with two columns, one row and an annotation in project
    [syn1], and an empty project [syn9]. *)
Definition sample_table : Entity :=
  mkEntity "syn6" Schema "assay" (Some "syn1") [("species", "mouse")] 1 None
           None None true "" None ["c1"; "c2"] [["a"; "b"]] [].

Definition table_world : World :=
  mkWorld
    [ sample_entity "syn1" Project "study" None;
      sample_table;
      sample_entity "syn9" Project "copy" None ]
    [] [] "u1" 200 [] [].

(** A source wiki of one page on [syn1] and a destination wiki on [syn9]
    whose page [31] lies under its root [30]. *)
Definition subpage_world : World :=
  mkWorld
    [ sample_entity "syn1" Project "study" None;
      sample_entity "syn9" Project "copy" None ]
    [ mkWiki "5" "syn1" None (Some "home") "welcome" [] [] [];
      mkWiki "30" "syn9" None (Some "front") "" [] [] [];
      mkWiki "31" "syn9" (Some "30") (Some "landing") "old text" [] [] [] ]
    [] "u1" 200 [] [].

(** ** What a walk leaves as it is *)

(** [e'] is [e] as far as its place in the tree goes. *)
Definition entity_kept (e e' : Entity) : Prop :=
  ent_id e' = ent_id e /\ ent_type e' = ent_type e
  /\ ent_parentId e' = ent_parentId e /\ ent_name e' = ent_name e.

(** From [w] to [w'] no wiki page has changed, and every entity of [w] is
    still held under its id, with its type, its parent and its name. *)
Definition walk_frame (w w' : World) : Prop :=
  wikis w' = wikis w
  /\ ownerId w' = ownerId w
  /\ counter w <= counter w'
  /\ forall e, In e (entities w) ->
               exists e', In e' (entities w') /\ entity_kept e e'.

(** Every outcome of [c], a result or an exception, is related by [R] to
    the state [c] started from. *)
Definition keeps {A : Type} (R : World -> World -> Prop) (c : M A) : Prop :=
  forall w,
    match c w with
    | Ok _ w' => R w w'
    | Raise _ w' => R w w'
    | OutOfFuel => True
    end.

(** ** The tree of the copies *)

(** [new] lies under [dest], or is the Project [dest] itself (a Project is
    copied onto its destination). *)
Definition placed (new : Entity) (dest : string) : Prop :=
  ent_parentId new = Some dest
  \/ (ent_type new = Project /\ ent_id new = dest).

(** The service holds an entity [c] and an entity [v] of the same type,
    the latter placed at [dest]. *)
Definition copy_held (w : World) (c v dest : string) : Prop :=
  exists src new,
    In src (entities w) /\ ent_id src = c
    /\ In new (entities w) /\ ent_id new = v
    /\ ent_type new = ent_type src /\ placed new dest.

(** Every entry written by the walk from [root] to [destinationId] maps an
    entity to a copy of its type: the copy of [root] is placed at
    [destinationId], and the copy of any other entity at the copy of its
    parent. *)
Definition mirrored (w : World) (root destinationId : string)
  (written : Dict string) : Prop :=
  forall c v,
    In (c, v) written ->
    (c = root /\ copy_held w c v destinationId)
    \/ exists p vp,
        In (p, vp) written /\ In c (child_ids p w) /\ copy_held w c v vp.

(** The same for the loop over the children [cs] of one container, copied
    to [destinationId]. *)
Definition children_mirrored (w : World) (cs : list string)
  (destinationId : string) (written : Dict string) : Prop :=
  forall c v,
    In (c, v) written ->
    (In c cs /\ copy_held w c v destinationId)
    \/ exists p vp,
        In (p, vp) written /\ In c (child_ids p w) /\ copy_held w c v vp.

(** ** Utility functions ([synapseclient/utils.py])

    Strings are Python 2 byte strings. *)

(** A Python value, as far as [isinstance(obj, basestring)] tells. *)
Inductive PyObj : Type :=
| PyString (s : string)
| PyOther.

(** [\d] *)
Definition is_digit (c : ascii) : bool :=
  let n := nat_of_ascii c in ((48 <=? n)%nat && (n <=? 57)%nat)%bool.

(** What is left of [s] after its prefix [p], if [p] is a prefix of [s]. *)
Fixpoint strip_prefix (p s : string) : option string :=
  match p, s with
  | EmptyString, _ => Some s
  | String a p', String b s' =>
      if Ascii.eqb a b then strip_prefix p' s' else None
  | String _ _, EmptyString => None
  end.

(** What the greedy [\d*] matches at the start of [s]: its longest prefix
    of digits. *)
Fixpoint digits (s : string) : string :=
  match s with
  | EmptyString => EmptyString
  | String c s' => if is_digit c then String c (digits s') else EmptyString
  end.

(** [is_synapse_id(obj)]: group 1 of [re.match(r'(syn\d+)', obj)]. *)
Definition is_synapse_id (obj : PyObj) : option string :=
  match obj with
  | PyString s =>
      match strip_prefix "syn" s with
      | Some rest =>
          match digits rest with
          | EmptyString => None
          | ds => Some ("syn" ++ ds)
          end
      | None => None
      end
  | PyOther => None
  end.

(** What follows the leftmost occurrence of the literal [pat] in [s]: where
    [re.search] finds it. *)
Fixpoint after_first (pat s : string) : option string :=
  match strip_prefix pat s with
  | Some rest => Some rest
  | None =>
      match s with
      | EmptyString => None
      | String _ s' => after_first pat s'
      end
  end.

(** What the greedy [[^ ]*] matches at the start of [s]. *)
Fixpoint until_space (s : string) : string :=
  match s with
  | EmptyString => EmptyString
  | String c s' =>
      if Ascii.eqb c " " then EmptyString else String c (until_space s')
  end.

(** [extract_filename(content_disposition)] *)
Definition extract_filename (content_disposition : string) : string :=
  match after_first "filename=" content_disposition with
  | Some rest => until_space rest
  | None => "filename"
  end.

(** ["%d" % n] *)
Definition str_of_Z (n : Z) : string :=
  NilZero.string_of_int (Z.to_int n).

(** The periods of [format_time_interval], with their lengths in seconds. *)
Definition periods : list (string * Z) :=
  [ ("year", 60 * 60 * 24 * 365); ("month", 60 * 60 * 24 * 30);
    ("day", 60 * 60 * 24); ("hour", 60 * 60); ("minute", 60);
    ("second", 1) ]%Z.

(** The body of [for period_name, period_seconds in periods], on the pair
    of [result] and [seconds]; [divmod] on integers is the floored
    division. *)
Definition period_step (state : list string * Z) (period : string * Z)
  : list string * Z :=
  let result := fst state in
  let seconds := snd state in
  let period_name := fst period in
  let period_seconds := snd period in
  if (seconds >? period_seconds)%Z || String.eqb period_name "second"
  then
    let period_value := (seconds / period_seconds)%Z in
    let seconds := (seconds mod period_seconds)%Z in
    if (period_value >? 0)%Z || String.eqb period_name "second"
    then
      if (period_value =? 1)%Z
      then ((result
               ++ [(str_of_Z period_value ++ " " ++ period_name)%string])%list,
            seconds)
      else ((result
               ++ [(str_of_Z period_value ++ " " ++ period_name
                    ++ "s")%string])%list,
            seconds)
    else (result, seconds)
  else state.

(** [format_time_interval(seconds)] for a whole number of seconds. *)
Definition format_time_interval (seconds : Z) : string :=
  String.concat ", " (fst (fold_left period_step periods ([], seconds))).

(** A number of periods of one kind, as the result shows it, and what a
    list of them amounts to in seconds. *)
Definition format_part (part : Z * (string * Z)) : string :=
  if (fst part =? 1)%Z
  then str_of_Z (fst part) ++ " " ++ fst (snd part)
  else str_of_Z (fst part) ++ " " ++ fst (snd part) ++ "s".

Definition total_seconds (parts : list (Z * (string * Z))) : Z :=
  fold_right (fun part acc => (fst part * snd (snd part) + acc)%Z) 0%Z parts.

(** *** Chunks of a file *)

(** An open file: its bytes and the offset of the next read. *)
Record FileObj : Type := mkFileObj {
  file_bytes : list byte;
  file_offset : nat
}.

(** [fileobj.read(size)] for a positive [size]: at most [size] bytes from
    the offset on, which moves past them. *)
Definition file_read (size : nat) (fileobj : FileObj)
  : list byte * FileObj :=
  let data := firstn size (skipn (file_offset fileobj) (file_bytes fileobj)) in
  (data,
   mkFileObj (file_bytes fileobj) (file_offset fileobj + List.length data)).

(** A [Chunk]; the file object it reads from is shared by all the chunks of
    a file and is threaded through their methods. *)
Record Chunk : Type := mkChunk {
  chunk_size : Z;
  chunk_position : Z;
  chunk_closed : bool
}.

(** [Chunk(fileobj, size)] *)
Definition new_chunk (size : Z) : Chunk := mkChunk size 0 false.

(** [Chunk.read(size)], [None] for the default of [size]; the result [None]
    is Python's. *)
Definition Chunk_read (size : option Z) (self : Chunk) (fileobj : FileObj)
  : option (list byte) * (Chunk * FileObj) :=
  let size :=
    match size with
    | None => (chunk_size self - chunk_position self)%Z
    | Some size =>
        if (size <=? 0)%Z
        then (chunk_size self - chunk_position self)%Z
        else Z.min size (chunk_size self - chunk_position self)
    end in
  if chunk_closed self || (size <=? 0)%Z
  then (None, (self, fileobj))
  else
    let self :=
      mkChunk (chunk_size self) (chunk_position self + size)
              (chunk_closed self) in
    let r := file_read (Z.to_nat size) fileobj in
    (Some (fst r), (self, snd r)).

(** [Chunk.close()] *)
Definition Chunk_close (self : Chunk) : Chunk :=
  mkChunk (chunk_size self) (chunk_position self) true.

Definition BUFFER_SIZE : Z := 8 * 2 ^ 10.

(** [Chunk.next()]; [None] stands for [StopIteration]. *)
Definition Chunk_next (self : Chunk) (fileobj : FileObj)
  : option (list byte) * (Chunk * FileObj) :=
  if chunk_closed self
  then (None, (self, fileobj))
  else
    let r := Chunk_read (Some BUFFER_SIZE) self fileobj in
    match fst r with
    | None => (None, snd r)
    | Some [] => (None, snd r)
    | Some data => (Some data, snd r)
    end.

(** What [chunks] has done when it stops: its chunks, all yielded; the
    ValueError of [len(chunk)] for a chunk of negative size, after the
    chunks yielded before; or no end within [fuel] rounds of the loop. *)
Inductive ChunksResult : Type :=
| Chunks (cs : list Chunk)
| ChunksValueError (cs : list Chunk)
| ChunksOutOfFuel.

(** [while remaining > 0] of [chunks]. *)
Fixpoint chunks_loop (fuel : nat) (remaining chunksize : Z) : ChunksResult :=
  match fuel with
  | O => ChunksOutOfFuel
  | S fuel' =>
      if (remaining >? 0)%Z
      then
        let chunk := new_chunk (Z.min remaining chunksize) in
        if (chunk_size chunk <? 0)%Z
        then ChunksValueError []
        else
          match chunks_loop fuel' (remaining - chunk_size chunk) chunksize with
          | Chunks cs => Chunks (chunk :: cs)
          | ChunksValueError cs => ChunksValueError (chunk :: cs)
          | ChunksOutOfFuel => ChunksOutOfFuel
          end
      else Chunks []
  end.

(** [chunks(fileobj, chunksize)]; the size of the file on disk is the
    number of bytes of the open file. *)
Definition chunks (fuel : nat) (fileobj : FileObj) (chunksize : Z)
  : ChunksResult :=
  chunks_loop fuel (Z.of_nat (List.length (file_bytes fileobj))) chunksize.

(** [[chunk.read() for chunk in cs]], the chunks taken in turn. *)
Fixpoint read_chunks (cs : list Chunk) (fileobj : FileObj)
  : list (option (list byte)) * FileObj :=
  match cs with
  | [] => ([], fileobj)
  | chunk :: cs' =>
      let r := Chunk_read None chunk fileobj in
      let rest := read_chunks cs' (snd (snd r)) in
      (fst r :: fst rest, snd rest)
  end.

(** A sequence of reads of one chunk, each with its [size] argument. *)
Fixpoint read_many (sizes : list (option Z)) (self : Chunk)
  (fileobj : FileObj) : list (option (list byte)) * (Chunk * FileObj) :=
  match sizes with
  | [] => ([], (self, fileobj))
  | size :: sizes' =>
      let r := Chunk_read size self fileobj in
      let rest := read_many sizes' (fst (snd r)) (snd (snd r)) in
      (fst r :: fst rest, snd rest)
  end.

(** The number of bytes handed out by a sequence of reads. *)
Definition bytes_read (results : list (option (list byte))) : nat :=
  list_sum (map (fun r => match r with
                          | Some data => List.length data
                          | None => 0
                          end) results).

(** The sizes [chunks] cuts [n] bytes into. *)
Definition chunk_sizes (n chunksize : Z) : list Z :=
  (repeat chunksize (Z.to_nat (n / chunksize))
   ++ (if (n mod chunksize =? 0)%Z then [] else [(n mod chunksize)%Z]))%list.

(** [[data for data in chunk]]: [next] until it stops; [None] when [fuel]
    calls have not reached the end. *)
Fixpoint Chunk_iterate (fuel : nat) (self : Chunk) (fileobj : FileObj)
  : option (list (list byte) * (Chunk * FileObj)) :=
  match fuel with
  | O => None
  | S fuel' =>
      let r := Chunk_next self fileobj in
      match fst r with
      | None => Some ([], snd r)
      | Some data =>
          match Chunk_iterate fuel' (fst (snd r)) (snd (snd r)) with
          | Some rest => Some (data :: fst rest, snd rest)
          | None => None
          end
      end
  end.

(** *** Subclasses

    [itersubclasses(cls, _seen)] over a class hierarchy given by
    [subclasses_of], the list [cls.__subclasses__()] of every class; the
    classes are told apart by [C_eqb].  The generator is run to its end: the
    result is the list of the classes it yields, in order, with the set
    [_seen] as the call leaves it (the set is shared by the nested calls),
    and [None] when the nesting is deeper than [fuel].  Every [cls] of the
    model is a class, so the TypeError for other objects does not arise. *)

(** The loop [for sub in subs]. *)
Fixpoint subclasses_loop {C : Type} (C_eqb : C -> C -> bool)
  (itersubclasses : C -> list C -> option (list C * list C))
  (subs : list C) (_seen : list C) : option (list C * list C) :=
  match subs with
  | [] => Some ([], _seen)
  | sub :: rest =>
      if existsb (C_eqb sub) _seen
      then subclasses_loop C_eqb itersubclasses rest _seen
      else
        match itersubclasses sub (sub :: _seen) with
        | Some (below, _seen) =>
            match subclasses_loop C_eqb itersubclasses rest _seen with
            | Some (more, _seen) => Some ((sub :: below ++ more)%list, _seen)
            | None => None
            end
        | None => None
        end
  end.

Fixpoint itersubclasses {C : Type} (C_eqb : C -> C -> bool)
  (subclasses_of : C -> list C) (fuel : nat) (cls : C) (_seen : list C)
  : option (list C * list C) :=
  match fuel with
  | O => None
  | S fuel' =>
      subclasses_loop C_eqb (itersubclasses C_eqb subclasses_of fuel')
                      (subclasses_of cls) _seen
  end.

(** [x] is a subclass of [cls], direct or not. *)
Inductive subclass_below {C : Type} (subclasses_of : C -> list C) (cls : C)
  : C -> Prop :=
| below_direct : forall x,
    In x (subclasses_of cls) -> subclass_below subclasses_of cls x
| below_step : forall y x,
    subclass_below subclasses_of cls y -> In x (subclasses_of y) ->
    subclass_below subclasses_of cls x.

(** The classes of [universe] not yet in [_seen]. *)
Definition unseen {C : Type} (C_eqb : C -> C -> bool) (universe : list C)
  (_seen : list C) : list C :=
  filter (fun x => negb (existsb (C_eqb x) _seen)) universe.

(** What one run of the loop [for sub in subs], or one call, has done: the
    classes yielded are new and distinct, [_seen] has grown by exactly
    them, and the subclasses of every one of them have been seen. *)
Definition yielded_ok {C : Type} (subclasses_of : C -> list C)
  (from : C -> Prop) (seen out seen' : list C) : Prop :=
  NoDup out /\
  (forall x, In x out -> ~ In x seen /\ from x) /\
  (forall x, In x seen' <-> In x seen \/ In x out) /\
  (forall x y, In x out -> In y (subclasses_of x) -> In y seen').

(** The hierarchy of the docstring of [itersubclasses]: B and C derive from
    A, D from B and C, and E from D. *)
Definition docstring_subclasses (cls : string) : list string :=
  if String.eqb cls "A" then ["B"; "C"]
  else if String.eqb cls "B" then ["D"]
  else if String.eqb cls "C" then ["D"]
  else if String.eqb cls "D" then ["E"]
  else [].

(** ** What a wiki copy leaves as it is *)

(** From [w] to [w'] no entity and no provenance record has changed, the
    pages of every owner but [destinationId] are what they were, and every
    page of [destinationId] is still held under its id. *)
Definition wiki_frame (destinationId : string) (w w' : World) : Prop :=
  entities w' = entities w
  /\ provenance w' = provenance w
  /\ (forall owner, owner <> destinationId ->
                    pages_of owner w' = pages_of owner w)
  /\ (forall i, find_wiki destinationId i w <> None ->
                find_wiki destinationId i w' <> None).

(** [keeps R c], with [P] of the value [c] returns. *)
Definition keeps_to {A : Type} (R : World -> World -> Prop) (P : A -> Prop)
  (c : M A) : Prop :=
  forall w,
    match c w with
    | Ok a w' => R w w' /\ P a
    | Raise _ w' => R w w'
    | OutOfFuel => True
    end.

(** Every page of the dictionary [newWikis] belongs to [owner]. *)
Definition pages_owned (owner : string) (newWikis : Dict WikiPage) : Prop :=
  Forall (fun kv => wiki_ownerId (snd kv) = owner) newWikis.

(** Every entity of [w] is still held in [w'] under its id, with its type,
    its parent and its name. *)
Definition entities_kept (w w' : World) : Prop :=
  forall e, In e (entities w) ->
            exists e', In e' (entities w') /\ entity_kept e e'.

(** *** Whitespace

    [normalize_whitespace(s)] on a byte string ([str] of Python 2, in the
    C locale). *)

(** The characters [s.strip()] removes: space, [\t], [\n], [\v], [\f] and
    [\r]; they are also the class [\s] of [re]. *)
Definition is_space (c : ascii) : bool :=
  let n := nat_of_ascii c in
  ((n =? 32)%nat || ((9 <=? n)%nat && (n <=? 13)%nat))%bool.

Fixpoint lstrip (s : string) : string :=
  match s with
  | EmptyString => EmptyString
  | String c s' => if is_space c then lstrip s' else s
  end.

Fixpoint rstrip (s : string) : string :=
  match s with
  | EmptyString => EmptyString
  | String c s' =>
      match rstrip s' with
      | EmptyString => if is_space c then EmptyString else String c EmptyString
      | r => String c r
      end
  end.

(** [s.strip()] *)
Definition strip (s : string) : string := rstrip (lstrip s).

(** The class [[\x00-\x20\s]]. *)
Definition is_blank (c : ascii) : bool :=
  ((nat_of_ascii c <=? 32)%nat || is_space c)%bool.

(** [re.sub(r'[\x00-\x20\s]+', ' ', s)]: the matches of a class repeated
    with [+] are the maximal runs of its characters; [in_run] tells that
    the character before belongs to the run being replaced. *)
Fixpoint sub_blank_runs (in_run : bool) (s : string) : string :=
  match s with
  | EmptyString => EmptyString
  | String c s' =>
      if is_blank c
      then if in_run then sub_blank_runs true s'
           else String " " (sub_blank_runs true s')
      else String c (sub_blank_runs false s')
  end.

Definition normalize_whitespace (s : string) : string :=
  sub_blank_runs false (strip s).

(** The characters of [s] outside the class, in order. *)
Fixpoint visible (s : string) : string :=
  match s with
  | EmptyString => EmptyString
  | String c s' => if is_blank c then visible s' else String c (visible s')
  end.

(** No two spaces of [s] are neighbours; [after_space] tells that the
    character before [s] is a space. *)
Fixpoint single_spaced_from (after_space : bool) (s : string) : bool :=
  match s with
  | EmptyString => true
  | String c s' =>
      if Ascii.eqb c " "
      then negb after_space && single_spaced_from true s'
      else single_spaced_from false s'
  end.

Definition single_spaced (s : string) : bool := single_spaced_from false s.

(** [s] does not end with whitespace; [ok] is the answer for the empty
    string. *)
Fixpoint ends_visible (ok : bool) (s : string) : bool :=
  match s with
  | EmptyString => ok
  | String c s' => ends_visible (negb (is_space c)) s'
  end.

Definition starts_visible (s : string) : bool :=
  match s with
  | EmptyString => true
  | String c _ => negb (is_space c)
  end.

(** * Properties of the copy engine *)

Unset Implicit Arguments.

(** ** Dictionaries *)

Section DictFacts.
Context {V : Type}.
Implicit Types (d : Dict V) (k : string) (v : V).

Lemma dict_get_app k d d' :
  dict_get k (d ++ d')%list =
  match dict_get k d' with
  | Some v => Some v
  | None => dict_get k d
  end.
Proof.
  induction d as [|[k0 v0] d IH]; simpl.
  - destruct (dict_get k d'); reflexivity.
  - rewrite IH. destruct (dict_get k d'); reflexivity.
Qed.

Lemma dict_get_set_same k v d : dict_get k (dict_set k v d) = Some v.
Proof.
  unfold dict_set. rewrite dict_get_app. simpl.
  now rewrite String.eqb_refl.
Qed.

Lemma dict_get_set_other k k' v d :
  k <> k' -> dict_get k (dict_set k' v d) = dict_get k d.
Proof.
  intros Hne. unfold dict_set. rewrite dict_get_app. simpl.
  destruct (String.eqb_spec k k'); [contradiction | reflexivity].
Qed.

Lemma dict_get_absent k d : ~ In k (map fst d) -> dict_get k d = None.
Proof.
  induction d as [|[k0 v0] d IH]; simpl; intros Hn; [reflexivity|].
  rewrite IH by tauto.
  destruct (String.eqb_spec k k0); [subst; tauto | reflexivity].
Qed.

Lemma dict_get_present k d :
  In k (map fst d) -> exists v, dict_get k d = Some v.
Proof.
  induction d as [|[k0 v0] d IH]; simpl; intros Hin; [contradiction|].
  destruct (dict_get k d) as [v|] eqn:E; [now exists v|].
  destruct Hin as [->|Hin].
  - rewrite String.eqb_refl. now exists v0.
  - destruct (IH Hin) as [v Hv]. discriminate.
Qed.

Lemma dict_get_in k v d : dict_get k d = Some v -> In (k, v) d.
Proof.
  induction d as [|[k0 v0] d IH]; simpl; [discriminate|].
  destruct (dict_get k d) as [v'|] eqn:E.
  - intros [= ->]. right. now apply IH.
  - destruct (String.eqb_spec k k0); [|discriminate].
    intros [= ->]. subst. now left.
Qed.

Lemma dict_get_unique k v d :
  NoDup (map fst d) -> In (k, v) d -> dict_get k d = Some v.
Proof.
  induction d as [|[k0 v0] d IH]; simpl; intros Hnd Hin; [contradiction|].
  inversion Hnd as [|? ? Hnotin Hnd']; subst.
  destruct Hin as [[= -> ->]|Hin].
  - rewrite dict_get_absent by assumption.
    now rewrite String.eqb_refl.
  - now rewrite (IH Hnd' Hin).
Qed.

Lemma dict_keys_from_in seen d k :
  In k (dict_keys_from seen d) <-> In k (map fst d) /\ ~ In k seen.
Proof.
  revert seen. induction d as [|[k0 v0] d IH]; simpl; intros seen.
  - tauto.
  - destruct (existsb (String.eqb k0) seen) eqn:E.
    + rewrite IH. apply existsb_exists in E. destruct E as [x [Hx Hk]].
      apply String.eqb_eq in Hk. subst x.
      split; [tauto|]. intros [[->|H] Hn]; tauto.
    + assert (Hk0 : ~ In k0 seen).
      { intros Hin.
        assert (existsb (String.eqb k0) seen = true) as Ht.
        { apply existsb_exists. exists k0. split; [assumption|].
          apply String.eqb_refl. }
        congruence. }
      simpl. rewrite IH. simpl.
      destruct (string_dec k0 k) as [->|Hne]; [tauto|].
      split.
      * intros [H|[H1 H2]]; [contradiction|]. split; [tauto|]. tauto.
      * intros [[H|H] Hn]; [contradiction|]. right. split; [assumption|].
        intros [H'|H']; [contradiction|tauto].
Qed.

Lemma dict_keys_in d k : In k (dict_keys d) <-> In k (map fst d).
Proof.
  unfold dict_keys. rewrite dict_keys_from_in. simpl. tauto.
Qed.

Lemma dict_keys_from_nodup seen d :
  NoDup (map fst d) -> (forall k, In k (map fst d) -> ~ In k seen) ->
  dict_keys_from seen d = map fst d.
Proof.
  revert seen. induction d as [|[k0 v0] d IH]; simpl; intros seen Hnd Hs;
    [reflexivity|].
  inversion Hnd as [|? ? Hnotin Hnd']; subst.
  destruct (existsb (String.eqb k0) seen) eqn:E.
  - apply existsb_exists in E. destruct E as [x [Hx Hk]].
    apply String.eqb_eq in Hk. subst x. exfalso. apply (Hs k0); auto.
  - f_equal. apply IH; [assumption|].
    intros k Hk [<-|Hin]; [contradiction|]. apply (Hs k); auto.
Qed.

Lemma dict_keys_nodup d : NoDup (map fst d) -> dict_keys d = map fst d.
Proof.
  intros Hnd. apply dict_keys_from_nodup; [assumption|]. intros k _ [].
Qed.

Lemma dict_keys_set d k v :
  forall x, In x (dict_keys d) -> In x (dict_keys (dict_set k v d)).
Proof.
  intros x. rewrite !dict_keys_in. unfold dict_set.
  rewrite map_app, in_app_iff. tauto.
Qed.

Lemma dict_keys_set_same d k v : In k (dict_keys (dict_set k v d)).
Proof.
  rewrite dict_keys_in. unfold dict_set.
  rewrite map_app, in_app_iff. simpl. tauto.
Qed.
End DictFacts.

(** ** Literal substitution *)

Lemma sub_from_absent pattern repl s :
  occursb pattern s = false -> sub_from pattern repl 0 s = s.
Proof.
  induction s as [|c s IH]; simpl; [reflexivity|].
  intros H. apply orb_false_iff in H. destruct H as [Hp Ho].
  simpl in Hp. rewrite Hp. now rewrite IH.
Qed.

Lemma occursb_empty s : occursb EmptyString s = true.
Proof. destruct s; reflexivity. Qed.

Lemma re_sub_absent pattern repl s :
  occursb pattern s = false -> re_sub pattern repl s = s.
Proof.
  intros H. destruct pattern as [|c p].
  - rewrite occursb_empty in H. discriminate.
  - unfold re_sub. now apply sub_from_absent.
Qed.

Lemma fold_left_fixed {A : Type} (f : string -> A -> string) (l : list A)
  (s : string) :
  (forall x, In x l -> f s x = s) -> fold_left f l s = s.
Proof.
  induction l as [|x l IH]; simpl; intros H; [reflexivity|].
  rewrite (H x) by now left. apply IH. intros y Hy. apply H. now right.
Qed.

(** The loops over [dict.keys()] written over the pairs of the dictionary. *)
Lemma fold_keys_pairs (f : string -> string -> string -> string)
  (m : Dict string) (s : string) :
  NoDup (map fst m) ->
  fold_left (fun s k => match dict_get k m with
                        | Some v => f k v s
                        | None => s
                        end) (dict_keys m) s
  = fold_left (fun s p => f (fst p) (snd p) s) m s.
Proof.
  intros Hnd. rewrite dict_keys_nodup by assumption.
  assert (Hall : forall p, In p m -> dict_get (fst p) m = Some (snd p)).
  { intros [k v] Hin. now apply dict_get_unique. }
  assert (Hgen : forall l s,
             (forall p, In p l -> dict_get (fst p) m = Some (snd p)) ->
             fold_left (fun s k => match dict_get k m with
                                   | Some v => f k v s
                                   | None => s
                                   end) (map fst l) s
             = fold_left (fun s p => f (fst p) (snd p) s) l s).
  { induction l as [|p l IH]; simpl; intros s0 Hl; [reflexivity|].
    rewrite (Hl p) by now left. apply IH. intros q Hq. apply Hl. now right. }
  now apply Hgen.
Qed.

Lemma rewrite_links_spec entity destinationId wikiIdMap s :
  NoDup (map fst wikiIdMap) ->
  rewrite_links entity destinationId wikiIdMap s
  = spec_link_pass entity destinationId wikiIdMap s.
Proof.
  intros Hnd. unfold rewrite_links, spec_link_pass. f_equal.
  exact (fold_keys_pairs
           (fun k v s => re_sub (entity ++ "/wiki/" ++ k)
                                (destinationId ++ "/wiki/" ++ v) s)
           wikiIdMap s Hnd).
Qed.

Lemma rewrite_synIds_spec entityMap s :
  NoDup (map fst entityMap) ->
  rewrite_synIds entityMap s = spec_entity_pass entityMap s.
Proof.
  intros Hnd. unfold rewrite_synIds, spec_entity_pass.
  exact (fold_keys_pairs (fun k v s => re_sub k v s) entityMap s Hnd).
Qed.

(** ** The client's output does not touch the service *)

Lemma remote_unchanged_refl w : remote_unchanged w w.
Proof. unfold remote_unchanged. tauto. Qed.

Lemma remote_unchanged_trans w1 w2 w3 :
  remote_unchanged w1 w2 -> remote_unchanged w2 w3 -> remote_unchanged w1 w3.
Proof.
  unfold remote_unchanged.
  intros (A1 & A2 & A3 & A4 & A5) (B1 & B2 & B3 & B4 & B5).
  repeat split; congruence.
Qed.

Lemma remote_unchanged_stdout w line : remote_unchanged w (add_stdout line w).
Proof. unfold remote_unchanged. simpl. tauto. Qed.

Create HintDb copy.
#[local] Hint Resolve remote_unchanged_refl remote_unchanged_stdout : copy.

(** ** The two rewriting loops of [copyWiki] *)

Lemma snd_unique (m : Dict string) k1 k2 v :
  NoDup (map snd m) -> In (k1, v) m -> In (k2, v) m -> k1 = k2.
Proof.
  induction m as [|[k0 v0] m IH]; simpl; intros Hnd H1 H2; [contradiction|].
  inversion Hnd as [|? ? Hnotin Hnd']; subst.
  destruct H1 as [E1|H1], H2 as [E2|H2].
  - congruence.
  - exfalso. apply Hnotin. inversion E1; subst.
    change v with (snd (k2, v)). now apply in_map.
  - exfalso. apply Hnotin. inversion E2; subst.
    change v with (snd (k1, v)). now apply in_map.
  - now apply IH.
Qed.

Section PageLoop.
Variable f : WikiPage -> WikiPage.
Variable body : Dict WikiPage -> string -> M (Dict WikiPage).
Variable wikiIdMap : Dict string.

Hypothesis body_ok :
  forall newWikis oldWikiId newWikiId page w,
    dict_get oldWikiId wikiIdMap = Some newWikiId ->
    dict_get newWikiId newWikis = Some page ->
    exists w',
      body newWikis oldWikiId w
      = Ok (dict_set newWikiId (f page) newWikis) w'
      /\ remote_unchanged w w'.

(** Every page named by one of the keys is rewritten once, the others are
    left alone. *)
Lemma page_loop ks :
  forall newWikis w,
    NoDup ks ->
    (forall k1 k2, In k1 ks -> In k2 ks ->
                   dict_get k1 wikiIdMap = dict_get k2 wikiIdMap ->
                   k1 = k2) ->
    (forall k, In k ks ->
               exists new page, dict_get k wikiIdMap = Some new
                                /\ dict_get new newWikis = Some page) ->
    exists newWikis' w',
      for_each ks body newWikis w = Ok newWikis' w'
      /\ remote_unchanged w w'
      /\ (forall k new page,
             In k ks -> dict_get k wikiIdMap = Some new ->
             dict_get new newWikis = Some page ->
             dict_get new newWikis' = Some (f page))
      /\ (forall i, (forall k, In k ks -> dict_get k wikiIdMap <> Some i) ->
                    dict_get i newWikis' = dict_get i newWikis).
Proof.
  induction ks as [|k ks IH]; intros nw w Hnd Hinj Hpre.
  - exists nw, w. simpl. unfold ret.
    repeat split; auto with copy. intros k new page [].
  - destruct (Hpre k (or_introl eq_refl)) as (new & page & Hk & Hpage).
    destruct (body_ok nw k new page w Hk Hpage) as (w1 & Hbody & Hun1).
    inversion Hnd as [|? ? Hnotin Hnd']; subst.
    assert (Hother : forall k', In k' ks -> dict_get k' wikiIdMap <> Some new).
    { intros k' Hin Heq. apply Hnotin.
      rewrite (Hinj k k') by (simpl; auto; congruence). assumption. }
    destruct (IH (dict_set new (f page) nw) w1 Hnd') as
        (nw' & w' & Hloop & Hun2 & Hdone & Hrest).
    + intros k1 k2 H1 H2. apply Hinj; now right.
    + intros k' Hin.
      destruct (Hpre k' (or_intror Hin)) as (new' & page' & Hk' & Hpage').
      exists new', page'. split; [assumption|].
      rewrite dict_get_set_other; [assumption|].
      intros ->. now apply (Hother k').
    + exists nw', w'. simpl. unfold bind at 1. rewrite Hbody.
      split; [exact Hloop|].
      split; [eapply remote_unchanged_trans; eassumption|].
      split.
      * intros k0 new0 page0 [<-|Hin] Hk0 Hp0.
        -- assert (new0 = new) by congruence. subst new0.
           assert (page0 = page) by congruence. subst page0.
           rewrite (Hrest new Hother). apply dict_get_set_same.
        -- apply (Hdone k0 new0 page0 Hin Hk0).
           rewrite dict_get_set_other; [assumption|].
           intros ->. now apply (Hother k0).
      * intros i Hi. rewrite Hrest.
        -- apply dict_get_set_other. intros ->. now apply (Hi k); [left|].
        -- intros k' Hin. apply Hi. now right.
Qed.
End PageLoop.

Lemma update_links_run entity destinationId wikiIdMap newWikis w :
  NoDup (map fst wikiIdMap) -> NoDup (map snd wikiIdMap) ->
  (forall old new, In (old, new) wikiIdMap ->
                   dict_get new newWikis <> None) ->
  exists newWikis' w',
    update_links true entity destinationId wikiIdMap newWikis w
    = Ok newWikis' w'
    /\ remote_unchanged w w'
    /\ (forall old new page,
           In (old, new) wikiIdMap -> dict_get new newWikis = Some page ->
           dict_get new newWikis'
           = Some (links_of entity destinationId wikiIdMap page))
    /\ (forall old new, In (old, new) wikiIdMap ->
                        dict_get new newWikis' <> None).
Proof.
  intros Hk Hv Hall.
  unfold update_links, print. unfold bind at 1.
  set (w0 := add_stdout _ w).
  destruct (page_loop (links_of entity destinationId wikiIdMap)
              (fun newWikis oldWikiId =>
                 newWikiId <- dict_lookup oldWikiId wikiIdMap ;;
                 newWiki <- dict_lookup newWikiId newWikis ;;
                 print (tab ++ "Updating internal links for Page: "
                        ++ newWikiId ++ nl) ;;;
                 ret (dict_set newWikiId
                        (set_wiki_markdown
                           (rewrite_links entity destinationId wikiIdMap
                              (wiki_markdown newWiki)) newWiki) newWikis))
              wikiIdMap) with (ks := dict_keys wikiIdMap)
                              (newWikis := newWikis) (w := w0)
    as (nw' & w' & Hrun & Hun & Hdone & _).
  - intros nw old new page w1 Hold Hpage.
    unfold bind, dict_lookup, print, ret. rewrite Hold, Hpage.
    eexists. split; [reflexivity|auto with copy].
  - rewrite dict_keys_nodup by assumption.
    clear - Hk. induction wikiIdMap as [|[k v] m IH]; simpl in *;
      inversion Hk; subst; constructor; auto.
  - intros k1 k2 H1 H2 Heq. apply dict_keys_in in H1, H2.
    destruct (dict_get_present _ _ H1) as [v1 E1].
    destruct (dict_get_present _ _ H2) as [v2 E2].
    assert (v1 = v2) by congruence. subst v2.
    eapply snd_unique; eauto using dict_get_in.
  - intros k Hin. apply dict_keys_in in Hin.
    destruct (dict_get_present _ _ Hin) as [new E].
    destruct (dict_get new newWikis) as [page|] eqn:Ep.
    + now exists new, page.
    + exfalso. eapply Hall; eauto using dict_get_in.
  - exists nw', w'. split; [exact Hrun|].
    split; [eapply remote_unchanged_trans; [|exact Hun]; subst w0;
            auto with copy|].
    assert (Hres : forall old new page,
               In (old, new) wikiIdMap -> dict_get new newWikis = Some page ->
               dict_get new nw'
               = Some (links_of entity destinationId wikiIdMap page)).
    { intros old new page Hin Hpage.
      apply (Hdone old new page); [|now apply dict_get_unique|assumption].
      apply dict_keys_in. change old with (fst (old, new)). now apply in_map. }
    split; [exact Hres|].
    intros old new Hin.
    destruct (dict_get new newWikis) as [page|] eqn:Ep.
    + rewrite (Hres old new page Hin Ep). discriminate.
    + exfalso. eapply Hall; eauto.
Qed.

Lemma update_synIds_run entityMap wikiIdMap newWikis w :
  NoDup (map fst wikiIdMap) -> NoDup (map snd wikiIdMap) ->
  (forall old new, In (old, new) wikiIdMap ->
                   dict_get new newWikis <> None) ->
  exists newWikis' w',
    update_synIds true (Some entityMap) wikiIdMap newWikis w
    = Ok newWikis' w'
    /\ remote_unchanged w w'
    /\ (forall old new page,
           In (old, new) wikiIdMap -> dict_get new newWikis = Some page ->
           dict_get new newWikis' = Some (synIds_of entityMap page)).
Proof.
  intros Hk Hv Hall.
  unfold update_synIds, print. unfold bind at 1.
  set (w0 := add_stdout _ w).
  destruct (page_loop (synIds_of entityMap)
              (fun newWikis oldWikiId =>
                 newWikiId <- dict_lookup oldWikiId wikiIdMap ;;
                 newWiki <- dict_lookup newWikiId newWikis ;;
                 print ("Updated Synapse references for Page: "
                        ++ newWikiId ++ nl) ;;;
                 print ("Done updating Synpase IDs." ++ nl) ;;;
                 ret (dict_set newWikiId
                        (set_wiki_markdown
                           (rewrite_synIds entityMap (wiki_markdown newWiki))
                           newWiki) newWikis))
              wikiIdMap) with (ks := dict_keys wikiIdMap)
                              (newWikis := newWikis) (w := w0)
    as (nw' & w' & Hrun & Hun & Hdone & _).
  - intros nw old new page w1 Hold Hpage.
    unfold bind, dict_lookup, print, ret. rewrite Hold, Hpage.
    eexists. split; [reflexivity|].
    eapply remote_unchanged_trans; auto with copy.
  - rewrite dict_keys_nodup by assumption.
    clear - Hk. induction wikiIdMap as [|[k v] m IH]; simpl in *;
      inversion Hk; subst; constructor; auto.
  - intros k1 k2 H1 H2 Heq. apply dict_keys_in in H1, H2.
    destruct (dict_get_present _ _ H1) as [v1 E1].
    destruct (dict_get_present _ _ H2) as [v2 E2].
    assert (v1 = v2) by congruence. subst v2.
    eapply snd_unique; eauto using dict_get_in.
  - intros k Hin. apply dict_keys_in in Hin.
    destruct (dict_get_present _ _ Hin) as [new E].
    destruct (dict_get new newWikis) as [page|] eqn:Ep.
    + now exists new, page.
    + exfalso. eapply Hall; eauto using dict_get_in.
  - exists nw', w'. split; [exact Hrun|].
    split; [eapply remote_unchanged_trans; [|exact Hun]; subst w0;
            auto with copy|].
    intros old new page Hin Hpage.
    apply (Hdone old new page); [|now apply dict_get_unique|assumption].
    apply dict_keys_in. change old with (fst (old, new)). now apply in_map.
Qed.



(** C8: a page whose markdown holds no occurrence of the source entity
    reference, of a [<source>/wiki/<id>] pattern or of a key of the entity
    mapping comes out of both rewrite passes unchanged. *)
Theorem rewrite_without_references_is_noop :
  forall entity destinationId wikiIdMap entityMap markdown,
    occursb entity markdown = false ->
    (forall oldWikiId, In oldWikiId (dict_keys wikiIdMap) ->
       occursb (entity ++ "/wiki/" ++ oldWikiId) markdown = false) ->
    (forall oldSynId, In oldSynId (dict_keys entityMap) ->
       occursb oldSynId markdown = false) ->
    rewrite_synIds entityMap
      (rewrite_links entity destinationId wikiIdMap markdown)
    = markdown.
Proof.
  intros entity destinationId wikiIdMap entityMap markdown He Hw Hs.
  assert (Hlinks : rewrite_links entity destinationId wikiIdMap markdown
                   = markdown).
  { unfold rewrite_links. rewrite fold_left_fixed.
    - now apply re_sub_absent.
    - intros old Hin. destruct (dict_get old wikiIdMap); [|reflexivity].
      apply re_sub_absent. now apply Hw. }
  rewrite Hlinks. unfold rewrite_synIds. apply fold_left_fixed.
  intros old Hin. destruct (dict_get old entityMap); [|reflexivity].
  apply re_sub_absent. now apply Hs.
Qed.

Lemma rewrite_without_references_is_noop_witness :
  rewrite_synIds [("syn2", "syn200")]
    (rewrite_links "syn1" "syn9" [("5", "7")] "nothing to rewrite here")
  = "nothing to rewrite here".
Proof.
  apply (rewrite_without_references_is_noop
           "syn1" "syn9" [("5", "7")] [("syn2", "syn200")]
           "nothing to rewrite here").
  - reflexivity.
  - intros old [<-|[]]. reflexivity.
  - intros old [<-|[]]. reflexivity.
Defined.

(** C9: with [updateSynIds] true and no entity map, the pass that rewrites
    entity ids is skipped: it raises nothing and leaves every page as it
    is, and [copyWiki] behaves as it does with the flag off. *)
Theorem updateSynIds_without_entityMap_is_skipped :
  forall fuel entity destinationId entitySubPageId destinationSubPageId
         updateLinks wikiIdMap newWikis w,
    update_synIds true None wikiIdMap newWikis w = Ok newWikis w
    /\ copyWiki fuel entity destinationId entitySubPageId
                destinationSubPageId updateLinks true None w
       = copyWiki fuel entity destinationId entitySubPageId
                  destinationSubPageId updateLinks false None w.
Proof.
  intros. split; reflexivity.
Qed.

(** ** Calls to the service *)

Lemma find_entity_id i w e : find_entity i w = Some e -> ent_id e = i.
Proof.
  unfold find_entity. intros H. apply find_some in H.
  now apply String.eqb_eq.
Qed.

Lemma find_entity_in i w e : find_entity i w = Some e -> In e (entities w).
Proof. unfold find_entity. intros H. now apply find_some in H. Qed.

Lemma opt_eqb_eq a b : opt_eqb a b = true <-> a = b.
Proof.
  destruct a as [x|], b as [y|]; simpl; try (split; congruence).
  rewrite String.eqb_eq. split; congruence.
Qed.

Lemma opt_eqb_refl a : opt_eqb a a = true.
Proof. now apply opt_eqb_eq. Qed.

Lemma children_of_in parent w e :
  In e (children_of parent w) <->
  In e (entities w) /\ ent_parentId e = Some parent.
Proof.
  unfold children_of. rewrite filter_In. now rewrite opt_eqb_eq.
Qed.

Lemma find_none_iff {A : Type} (p : A -> bool) (l : list A) :
  find p l = None <-> forall x, In x l -> p x = false.
Proof.
  split; [apply find_none|].
  induction l as [|x l IH]; simpl; intros H; [reflexivity|].
  rewrite (H x) by now left. apply IH. intros y Hy. apply H. now right.
Qed.

Lemma check_name_ok search name msg w :
  (forall i, In i search -> i <> name) ->
  check_name search name msg w = Ok tt w.
Proof.
  unfold check_name. induction search as [|i search IH]; simpl; intros H;
    [reflexivity|].
  unfold bind at 1.
  destruct (String.eqb_spec i name) as [->|Hne].
  - exfalso. now apply (H name); [left|].
  - unfold ret at 1. apply IH. intros j Hj. apply H. now right.
Qed.

Lemma check_name_cases search name msg w :
  check_name search name msg w = Ok tt w
  \/ check_name search name msg w = Raise (ValueError msg) w.
Proof.
  unfold check_name. induction search as [|i search IH]; simpl;
    [now left|].
  unfold bind. destruct (String.eqb i name); [now right|].
  exact IH.
Qed.

Lemma name_free_children name destinationId w :
  name_free name destinationId w ->
  forall i, In i (map ent_name (children_of destinationId w)) -> i <> name.
Proof.
  intros Hfree i Hin. apply in_map_iff in Hin. destruct Hin as (e & <- & He).
  apply children_of_in in He. destruct He. now apply Hfree.
Qed.

Lemma syn_get_plain entity version w ent :
  find_entity entity w = Some ent -> version_held version ent ->
  syn_get entity version false w = Ok ent w.
Proof.
  intros Hf Hv. unfold syn_get. rewrite Hf.
  assert (Hver : match version with
                 | Some v => negb (Nat.eqb v (ent_versionNumber ent))
                 | None => false
                 end = false).
  { destruct Hv as [->| ->]; [reflexivity|]. now rewrite Nat.eqb_refl. }
  rewrite Hver.
  destruct (ent_type ent), (ent_dataFileHandleId ent), (ent_externalURL ent);
    reflexivity.
Qed.

Lemma syn_get_not_file entity downloadFile w ent :
  find_entity entity w = Some ent -> ent_type ent <> File ->
  syn_get entity None downloadFile w = Ok ent w.
Proof.
  intros Hf Ht. unfold syn_get. rewrite Hf.
  destruct (ent_type ent); try reflexivity. contradiction.
Qed.

(** C6: copying a Link whose target the service no longer holds (the name
    check at the destination having passed) returns no id and prints a
    warning instead of raising; the walk leaves the mapping as it was and
    goes on with the entities that follow. *)
Theorem broken_link_is_skipped :
  forall fuel entity destinationId mapping kwargs rest ent w,
    find_entity entity w = Some ent ->
    ent_type ent = Link ->
    find_entity (ent_targetId ent) w = None ->
    name_free (ent_name ent) destinationId w ->
    forallb (fun i => str_in i allowed_excludeTypes) (excludeTypes kwargs)
    = true ->
    str_in "link" (excludeTypes kwargs) = false ->
    let warned := add_stdout (warning_of ent) w in
    let w' := add_stdout (entity ++ " not copied") warned in
    _copyLink entity destinationId w = Ok None warned
    /\ _copyRecursive (S fuel) entity destinationId mapping kwargs w
       = Ok mapping w'
    /\ remote_unchanged w w'
    /\ for_each (entity :: rest)
         (fun mapping i =>
            _copyRecursive (S fuel) i destinationId mapping kwargs)
         mapping w
       = for_each rest
           (fun mapping i =>
              _copyRecursive (S fuel) i destinationId mapping kwargs)
           mapping w'.
Proof.
  intros fuel entity destinationId mapping kwargs rest ent w
         Hfind Htype Htarget Hfree Hexcl Hlink warned w'.
  pose proof (find_entity_id _ _ _ Hfind) as Hid.
  assert (Hnf : ent_type ent <> File) by (rewrite Htype; discriminate).
  assert (Hcopy : _copyLink entity destinationId w = Ok None warned).
  { unfold _copyLink. unfold bind at 1.
    rewrite (syn_get_not_file _ _ _ _ Hfind Hnf).
    unfold bind at 1. unfold syn_query_names. unfold bind at 1.
    rewrite check_name_ok by now apply name_free_children.
    unfold except_Exception, bind at 1. unfold syn_store. simpl.
    rewrite Htarget. simpl. reflexivity. }
  assert (Hrec : _copyRecursive (S fuel) entity destinationId mapping kwargs w
                 = Ok mapping w').
  { cbn [_copyRecursive]. rewrite Hexcl. cbn [negb]. unfold bind at 1.
    rewrite (syn_get_plain _ None _ _ Hfind (or_introl eq_refl)).
    rewrite Htype, Hlink. cbn [negb]. unfold bind at 1. rewrite Hid, Hcopy.
    unfold report, bind, print, ret. rewrite Hid. reflexivity. }
  split; [exact Hcopy|]. split; [exact Hrec|].
  split.
  - subst w' warned. unfold remote_unchanged. simpl. tauto.
  - cbn [for_each]. unfold bind at 1. rewrite Hrec. reflexivity.
Qed.

Lemma broken_link_is_skipped_witness :
  _copyLink "syn4" "syn9" sample_world
  = Ok None
       (add_stdout "WARNING: The target of this link syn4 no longer exists"
                   sample_world)
  /\ _copyRecursive 1 "syn4" "syn9" [] default_kwargs sample_world
     = Ok []
          (add_stdout "syn4 not copied"
             (add_stdout
                "WARNING: The target of this link syn4 no longer exists"
                sample_world)).
Proof.
  destruct (broken_link_is_skipped 0 "syn4" "syn9" [] default_kwargs ["syn5"]
              (sample_link "syn4" "gone" "syn2" "syn77") sample_world)
    as (H1 & H2 & _).
  - reflexivity.
  - reflexivity.
  - reflexivity.
  - intros e Hin Hp. simpl in Hin.
    repeat (destruct Hin as [<-|Hin]; [discriminate Hp|]). destruct Hin.
  - reflexivity.
  - reflexivity.
  - split; [exact H1 | exact H2].
Defined.

(** ** The File copier *)

Lemma resolve_provenance_known setProvenance ent w :
  setProvenance_known setProvenance = true ->
  exists act, resolve_provenance setProvenance ent w = Ok act w.
Proof.
  unfold setProvenance_known, resolve_provenance. intros H.
  destruct (opt_eqb setProvenance (Some "traceback")); [eexists; reflexivity|].
  destruct (opt_eqb setProvenance (Some "existing")).
  - unfold except_SynapseHTTPError, bind, syn_getProvenance, ret.
    destruct (dict_get (ent_id ent) (provenance w)); eexists; reflexivity.
  - simpl in H. rewrite H. eexists; reflexivity.
Qed.


Lemma store_file_file obj w :
  ent_type obj = File ->
  exists obj1 w1,
    store_file obj w = Ok obj1 w1
    /\ entities w1 = entities w
    /\ ent_name obj1 = ent_name obj
    /\ ent_parentId obj1 = ent_parentId obj
    /\ ent_type obj1 = File
    /\ ent_annotations obj1 = ent_annotations obj
    /\ match ent_path obj with
       | Some p =>
           ent_dataFileHandleId obj1 = Some (str_of_nat (counter w))
           /\ ent_externalURL obj1
              = (if ent_synapseStore obj then None else Some p)
           /\ transfers w1
              = (if ent_synapseStore obj
                 then (transfers w ++ [Upload p])%list else transfers w)
       | None =>
           ent_dataFileHandleId obj1 = ent_dataFileHandleId obj
           /\ ent_externalURL obj1 = ent_externalURL obj
           /\ transfers w1 = transfers w
       end.
Proof.
  intros Ht. unfold store_file. rewrite Ht.
  destruct (ent_path obj) as [p|].
  - destruct (ent_synapseStore obj); eexists; eexists;
      (split; [reflexivity|]); simpl; auto 10.
  - destruct (ent_dataFileHandleId obj) as [h|] eqn:Eh; eexists; eexists;
      (split; [reflexivity|]); simpl; auto 10.
Qed.

Lemma syn_store_file_new obj act destinationId w :
  ent_type obj = File -> ent_parentId obj = Some destinationId ->
  name_free (ent_name obj) destinationId w ->
  exists obj1 w1,
    store_file obj w = Ok obj1 w1
    /\ syn_store obj act w
       = Ok (stamp ("syn" ++ str_of_nat (counter w1)) 1 obj1)
            (record_activity ("syn" ++ str_of_nat (counter w1)) act
               (set_counter (S (counter w1))
                  (set_entities
                     (entities w1
                      ++ [stamp ("syn" ++ str_of_nat (counter w1)) 1 obj1])%list
                     w1))).
Proof.
  intros Ht Hp Hfree.
  destruct (store_file_file obj w Ht)
    as (obj1 & w1 & Hsf & Hents & Hname & Hpar & Hty & _).
  exists obj1, w1. split; [exact Hsf|].
  unfold syn_store. rewrite Ht. cbn [EntityType_eqb andb]. rewrite Hsf.
  assert (Hnone : (if String.eqb (ent_name obj1) ""
                   then None else find (same_place obj1) (entities w1))
                  = None).
  { destruct (String.eqb (ent_name obj1) ""); [reflexivity|].
    apply find_none_iff. intros e He. rewrite Hents in He.
    unfold same_place. rewrite Hpar, Hp, Hname.
    destruct (opt_eqb (Some destinationId) (ent_parentId e)) eqn:E1;
      [|reflexivity].
    apply opt_eqb_eq in E1. cbn [andb].
    destruct (String.eqb_spec (ent_name obj) (ent_name e)) as [E2|];
      [|reflexivity].
    exfalso. now apply (Hfree e He). }
  rewrite Hnone. reflexivity.
Qed.


Lemma record_activity_entities i act w :
  entities (record_activity i act w) = entities w
  /\ transfers (record_activity i act w) = transfers w.
Proof. destruct act; simpl; auto. Qed.

Lemma store_new_file obj act destinationId w :
  ent_type obj = File -> ent_parentId obj = Some destinationId ->
  name_free (ent_name obj) destinationId w ->
  exists new_ent w',
    (new_ent <- match act with
                | Some a => syn_store obj (Some a)
                | None => syn_store obj None
                end ;; ret (ent_id new_ent)) w
    = Ok (ent_id new_ent) w'
    /\ entities w' = (entities w ++ [new_ent])%list
    /\ ent_type new_ent = File
    /\ ent_parentId new_ent = Some destinationId
    /\ ent_annotations new_ent = ent_annotations obj
    /\ match ent_path obj with
       | Some p =>
           ent_dataFileHandleId new_ent = Some (str_of_nat (counter w))
           /\ ent_externalURL new_ent
              = (if ent_synapseStore obj then None else Some p)
           /\ transfers w'
              = (if ent_synapseStore obj
                 then (transfers w ++ [Upload p])%list else transfers w)
       | None =>
           ent_dataFileHandleId new_ent = ent_dataFileHandleId obj
           /\ ent_externalURL new_ent = ent_externalURL obj
           /\ transfers w' = transfers w
       end.
Proof.
  intros Ht Hp Hfree.
  destruct (syn_store_file_new obj act destinationId w Ht Hp Hfree)
    as (obj1 & w1 & Hsf & Hstore).
  destruct (store_file_file obj w Ht)
    as (obj1' & w1' & Hsf' & Hents & Hname & Hpar & Hty & Hann & Hcase).
  rewrite Hsf in Hsf'. inversion Hsf'; subst obj1' w1'. clear Hsf'.
  eexists. eexists. split.
  - assert (E : match act with
                | Some a => syn_store obj (Some a)
                | None => syn_store obj None
                end = syn_store obj act) by (destruct act; reflexivity).
    rewrite E. unfold bind. rewrite Hstore. reflexivity.
  - destruct (record_activity_entities
                ("syn" ++ str_of_nat (counter w1)) act
                (set_counter (S (counter w1))
                   (set_entities
                      (entities w1
                       ++ [stamp ("syn" ++ str_of_nat (counter w1)) 1 obj1])%list
                      w1))) as [He Ht'].
    rewrite He, Ht'. cbn [entities transfers set_counter set_entities].
    rewrite Hents. split; [reflexivity|].
    cbn [stamp ent_type ent_parentId ent_annotations ent_dataFileHandleId
         ent_externalURL].
    rewrite Hty, Hpar, Hp, Hann. repeat (split; [reflexivity|]).
    exact Hcase.
Qed.

Lemma copyFile_run entity destinationId version update setProvenance ent h w :
  find_entity entity w = Some ent ->
  ent_type ent = File ->
  version_held version ent ->
  setProvenance_known setProvenance = true ->
  name_free (ent_name ent) destinationId w ->
  ent_dataFileHandleId ent = Some h ->
  exists newId new_ent w',
    _copyFile entity destinationId version update setProvenance w
    = Ok newId w'
    /\ entities w' = (entities w ++ [new_ent])%list
    /\ ent_id new_ent = newId
    /\ ent_type new_ent = File
    /\ ent_parentId new_ent = Some destinationId
    /\ ent_annotations new_ent = ent_annotations ent
    /\ (if opt_eqb (Some (ownerId w))
                   (createdBy_of (ent_fileHandles ent) (Some h))
        then ent_dataFileHandleId new_ent = Some h
             /\ transfers w' = transfers w
        else
          match ent_externalURL ent with
          | None =>
              ent_dataFileHandleId new_ent = Some (str_of_nat (counter w))
              /\ ent_externalURL new_ent = None
              /\ transfers w'
                 = (transfers w ++ [Download h; Upload (cache_path h)])%list
          | Some url =>
              ent_dataFileHandleId new_ent = Some (str_of_nat (counter w))
              /\ ent_externalURL new_ent = Some url
              /\ transfers w' = transfers w
          end).
Proof.
  intros Hfind Htype Hver Hprov Hfree Hh.
  pose proof (find_entity_id _ _ _ Hfind) as Hid.
  destruct (resolve_provenance_known setProvenance ent w Hprov) as [act Hact].
  unfold _copyFile. unfold bind at 1. rewrite (syn_get_plain _ _ _ _ Hfind Hver).
  unfold bind at 1.
  assert (Hcheck :
    (if negb update
     then search <- syn_query_names destinationId;;
          check_name search (ent_name ent) (already_exists "File" (ent_name ent))
     else ret tt) w = Ok tt w).
  { destruct update; simpl; [reflexivity|].
    unfold bind, syn_query_names. apply check_name_ok.
    now apply name_free_children. }
  rewrite Hcheck. unfold bind at 1. unfold syn_getUserProfile at 1.
  unfold bind at 1. rewrite Hact. unfold bind at 1.
  unfold syn_restGET_filehandles. rewrite Hid, Hfind, Nat.eqb_refl. rewrite Hh.
  unfold bind at 1. unfold new_file.
  destruct (opt_eqb (Some (ownerId w)) (createdBy_of (ent_fileHandles ent) (Some h))) eqn:Ecb.
  - unfold ret at 1. cbn [fst snd].
    destruct (store_new_file
                (set_ent_annotations (ent_annotations ent)
                   (set_ent_dataFileHandleId (ent_dataFileHandleId ent)
                      (new_entity File (ent_name ent) (Some destinationId))))
                act destinationId w eq_refl eq_refl Hfree)
      as (new_ent & w' & Hrun & Hents & Hty & Hpar & Hann & Hd & _ & Htr).
    exists (ent_id new_ent), new_ent, w'. cbn in Hd. rewrite Hh in Hd.
    auto 10.
  - destruct (ent_externalURL ent) as [url|] eqn:Eurl.
    + unfold bind at 1. rewrite (syn_get_plain _ _ _ _ Hfind Hver).
      unfold ret at 1. cbn [fst snd]. rewrite Eurl.
      destruct (store_new_file
                  (set_ent_annotations (ent_annotations ent)
                     (set_ent_path (Some url) false
                        (new_entity File (ent_name ent) (Some destinationId))))
                  act destinationId w eq_refl eq_refl Hfree)
        as (new_ent & w' & Hrun & Hents & Hty & Hpar & Hann & Hd & Hu & Htr).
      exists (ent_id new_ent), new_ent, w'. auto 10.
    + assert (Hget : syn_get entity version true w
                     = Ok (set_ent_path (Some (cache_path h))
                                        (ent_synapseStore ent) ent)
                          (add_transfer (Download h) w)).
      { unfold syn_get. rewrite Hfind.
        assert (Hv : match version with
                     | Some v => negb (Nat.eqb v (ent_versionNumber ent))
                     | None => false
                     end = false).
        { destruct Hver as [->| ->]; [reflexivity|].
          now rewrite Nat.eqb_refl. }
        rewrite Hv, Htype, Hh, Eurl. reflexivity. }
      unfold bind at 1. rewrite Hget. unfold ret at 1. cbn [fst snd].
      destruct (store_new_file
                  (set_ent_annotations (ent_annotations ent)
                     (set_ent_path (Some (cache_path h)) true
                        (new_entity File (ent_name ent) (Some destinationId))))
                  act destinationId (add_transfer (Download h) w)
                  eq_refl eq_refl Hfree)
        as (new_ent & w' & Hrun & Hents & Hty & Hpar & Hann & Hd & Hu & Htr).
      exists (ent_id new_ent), new_ent, w'.
      cbn in Hd, Hu, Htr. rewrite <- app_assoc in Htr. auto 10.
Qed.



(** C10: when no file handle listed for the source's version has the id of
    its data file handle, the creator counts as unknown; the copy then never
    keeps the source's file handle: it downloads and uploads a hosted file,
    or recreates an external one on its URL, and raises nothing. *)
Theorem copyFile_unlisted_handle_is_rehosted :
  forall entity destinationId version update setProvenance ent h w,
    find_entity entity w = Some ent ->
    ent_type ent = File ->
    version_held version ent ->
    setProvenance_known setProvenance = true ->
    name_free (ent_name ent) destinationId w ->
    ent_dataFileHandleId ent = Some h ->
    counter_fresh w ->
    (forall fileHandle, In fileHandle (ent_fileHandles ent) ->
                        fh_id fileHandle <> h) ->
    createdBy_of (ent_fileHandles ent) (ent_dataFileHandleId ent) = None
    /\ exists newId new_ent w',
        _copyFile entity destinationId version update setProvenance w
        = Ok newId w'
        /\ entities w' = (entities w ++ [new_ent])%list
        /\ ent_id new_ent = newId
        /\ ent_dataFileHandleId new_ent <> ent_dataFileHandleId ent
        /\ match ent_externalURL ent with
           | None =>
               transfers w'
               = (transfers w ++ [Download h; Upload (cache_path h)])%list
           | Some url =>
               ent_externalURL new_ent = Some url
               /\ transfers w' = transfers w
           end.
Proof.
  intros entity destinationId version update setProvenance ent h w
         Hfind Htype Hver Hprov Hfree Hh Hfresh Hunlisted.
  assert (Hnone : createdBy_of (ent_fileHandles ent) (Some h) = None).
  { induction (ent_fileHandles ent) as [|fh l IH]; [reflexivity|].
    cbn [createdBy_of opt_eqb].
    destruct (String.eqb_spec (fh_id fh) h) as [E|_].
    - exfalso. now apply (Hunlisted fh); [left|].
    - apply IH. intros fh' Hin. apply Hunlisted. now right. }
  rewrite Hh. split; [exact Hnone|].
  destruct (copyFile_run entity destinationId version update setProvenance
              ent h w Hfind Htype Hver Hprov Hfree Hh)
    as (newId & new_ent & w' & Hrun & Hents & Hid & Hty & Hpar & _ & Hcase).
  rewrite Hnone in Hcase. cbn [opt_eqb] in Hcase.
  exists newId, new_ent, w'.
  repeat (split; [assumption|]).
  assert (Hne : Some (str_of_nat (counter w)) <> Some h).
  { intros E. apply (Hfresh ent (find_entity_in _ _ _ Hfind)). congruence. }
  destruct (ent_externalURL ent) as [url|];
    destruct Hcase as (Hd & Hu & Htr); rewrite Hd; tauto.
Qed.

Lemma copyFile_unlisted_handle_is_rehosted_witness :
  createdBy_of (ent_fileHandles unlisted_file)
               (ent_dataFileHandleId unlisted_file) = None
  /\ exists newId new_ent w',
      _copyFile "syn3" "syn9" None false None unlisted_world = Ok newId w'
      /\ entities w' = (entities unlisted_world ++ [new_ent])%list
      /\ ent_id new_ent = newId
      /\ ent_dataFileHandleId new_ent <> Some "100"
      /\ transfers w' = [Download "100"; Upload "/cache/100"].
Proof.
  exact (copyFile_unlisted_handle_is_rehosted
           "syn3" "syn9" None false None unlisted_file "100" unlisted_world
           eq_refl eq_refl (or_introl eq_refl) eq_refl
           ltac:(intros e Hin Hp; simpl in Hin;
                 repeat (destruct Hin as [<-|Hin]; [discriminate Hp|]);
                 destruct Hin)
           eq_refl
           ltac:(intros e Hin; simpl in Hin;
                 repeat (destruct Hin as [<-|Hin]; [discriminate|]);
                 destruct Hin)
           ltac:(intros fh Hin; simpl in Hin;
                 repeat (destruct Hin as [<-|Hin]; [discriminate|]);
                 destruct Hin)).
Defined.

(** ** Argument errors *)

Lemma resolve_provenance_unknown setProvenance ent w :
  setProvenance_known setProvenance = false ->
  resolve_provenance setProvenance ent w
  = Raise (ValueError setProvenance_message) w.
Proof.
  unfold setProvenance_known, resolve_provenance. intros H.
  apply orb_false_iff in H. destruct H as [H H3].
  apply orb_false_iff in H. destruct H as [H1 H2].
  rewrite H1, H2, H3. reflexivity.
Qed.




(** ** The service only grows *)

Lemma extends_refl w : extends w w.
Proof.
  split.
  - intros i e H. exists e. auto.
  - intros p. apply incl_refl.
Qed.

Lemma extends_trans w1 w2 w3 :
  extends w1 w2 -> extends w2 w3 -> extends w1 w3.
Proof.
  intros [F1 C1] [F2 C2]. split.
  - intros i e H. destruct (F1 i e H) as (e2 & H2 & T2 & L2).
    destruct (F2 i e2 H2) as (e3 & H3 & T3 & L3).
    exists e3. split; [assumption|]. split; [congruence|].
    intros HL. rewrite (L3 (eq_trans T2 HL)). now apply L2.
  - intros p. eapply incl_tran; [apply C1 | apply C2].
Qed.

Lemma extends_same_entities w w' : entities w' = entities w -> extends w w'.
Proof.
  intros E. split.
  - intros i e H. exists e. unfold find_entity in *. rewrite E. auto.
  - intros p. unfold child_ids, children_of. rewrite E. apply incl_refl.
Qed.

Lemma find_app_l {A : Type} (p : A -> bool) (l l' : list A) (x : A) :
  find p l = Some x -> find p (l ++ l')%list = Some x.
Proof.
  induction l as [|a l IH]; simpl; [discriminate|].
  destruct (p a); auto.
Qed.

Lemma extends_append w w' stored :
  entities w' = (entities w ++ [stored])%list -> extends w w'.
Proof.
  intros E. split.
  - intros i e H. exists e. unfold find_entity in *. rewrite E.
    split; [now apply find_app_l | auto].
  - intros p. unfold child_ids, children_of. rewrite E, filter_app, map_app.
    apply incl_appl, incl_refl.
Qed.

Lemma replace_first_find here stored old es i e :
  find here es = Some old -> ent_id stored = ent_id old ->
  find (fun x => String.eqb (ent_id x) i) es = Some e ->
  exists e',
    find (fun x => String.eqb (ent_id x) i) (replace_first here stored es)
    = Some e'
    /\ (e' = e \/ (e' = stored /\ e = old)).
Proof.
  intros Hold Hid. induction es as [|a es IH]; simpl; [discriminate|].
  simpl in Hold. destruct (here a) eqn:Ha.
  - inversion Hold; subst a. simpl. rewrite Hid.
    destruct (String.eqb (ent_id old) i).
    + intros [= <-]. exists stored. auto.
    + intros H. exists e. auto.
  - simpl. destruct (String.eqb (ent_id a) i).
    + intros [= <-]. exists a. auto.
    + now apply IH.
Qed.

Lemma replace_first_children here stored old es parent :
  find here es = Some old -> ent_id stored = ent_id old ->
  ent_parentId stored = ent_parentId old ->
  map ent_id
      (filter (fun e => opt_eqb (ent_parentId e) (Some parent))
              (replace_first here stored es))
  = map ent_id
        (filter (fun e => opt_eqb (ent_parentId e) (Some parent)) es).
Proof.
  intros Hold Hid Hpar. induction es as [|a es IH]; simpl; [reflexivity|].
  simpl in Hold. destruct (here a) eqn:Ha.
  - inversion Hold; subst a. simpl. rewrite Hpar.
    destruct (opt_eqb (ent_parentId old) (Some parent)); simpl;
      [rewrite Hid|]; reflexivity.
  - simpl. destruct (opt_eqb (ent_parentId a) (Some parent)); simpl;
      rewrite (IH Hold); reflexivity.
Qed.

Lemma EntityType_eqb_eq a b : EntityType_eqb a b = true <-> a = b.
Proof. destruct a, b; simpl; split; congruence. Qed.

Lemma store_file_entities obj w :
  match store_file obj w with
  | Ok obj1 w1 =>
      entities w1 = entities w /\ ent_type obj1 = ent_type obj
      /\ ent_name obj1 = ent_name obj /\ ent_parentId obj1 = ent_parentId obj
  | Raise _ _ => False
  | OutOfFuel => False
  end.
Proof.
  unfold store_file.
  destruct (ent_type obj) eqn:Et; try (simpl; auto).
  destruct (ent_path obj) as [p|].
  - destruct (ent_synapseStore obj); simpl; auto.
  - destruct (ent_dataFileHandleId obj); simpl; auto.
Qed.

Lemma record_activity_same i act w :
  entities (record_activity i act w) = entities w.
Proof. destruct act; reflexivity. Qed.

Lemma grows_syn_store obj act :
  ent_type obj <> Link \/ ent_name obj = "" -> grows (syn_store obj act).
Proof.
  intros Hobj w. unfold syn_store.
  destruct (EntityType_eqb (ent_type obj) Link
            && match find_entity (ent_targetId obj) w with
               | Some _ => false
               | None => true
               end); [apply extends_refl|].
  pose proof (store_file_entities obj w) as Hsf.
  destruct (store_file obj w) as [obj1 w1| |]; [|contradiction|exact I].
  destruct Hsf as (Hents & Hty & Hname & Hpar).
  assert (Hw1 : extends w w1) by now apply extends_same_entities.
  destruct (String.eqb_spec (ent_name obj1) "") as [Hempty|Hnonempty].
  - eapply extends_trans; [exact Hw1|].
    eapply extends_append. rewrite record_activity_same. reflexivity.
  - destruct (find (same_place obj1) (entities w1)) as [old|] eqn:Hfind.
    + destruct (EntityType_eqb (ent_type old) (ent_type obj1)) eqn:Etype;
        [|exact Hw1].
      apply EntityType_eqb_eq in Etype.
      eapply extends_trans; [exact Hw1|].
      assert (Hplace : same_place obj1 old = true).
      { now apply find_some in Hfind. }
      unfold same_place in Hplace. apply andb_true_iff in Hplace.
      destruct Hplace as [Hp Hn]. apply opt_eqb_eq in Hp.
      split.
      * intros i e He. unfold find_entity in *.
        rewrite record_activity_same. cbn [entities set_entities].
        destruct (replace_first_find (same_place obj1)
                    (stamp (ent_id old) (S (ent_versionNumber old)) obj1)
                    old (entities w1) i e Hfind eq_refl He)
          as (e' & He' & [-> | [-> ->]]).
        -- exists e. auto.
        -- eexists. split; [exact He'|]. split; [simpl; congruence|].
           intros HL. exfalso. destruct Hobj as [Hobj|Hobj].
           ++ apply Hobj. congruence.
           ++ apply Hnonempty. congruence.
      * intros parent. unfold child_ids, children_of.
        rewrite record_activity_same. cbn [entities set_entities].
        rewrite (replace_first_children (same_place obj1)
                   (stamp (ent_id old) (S (ent_versionNumber old)) obj1) old
                   (entities w1) parent Hfind eq_refl)
          by (simpl; congruence).
        apply incl_refl.
    + eapply extends_trans; [exact Hw1|].
      eapply extends_append. rewrite record_activity_same. reflexivity.
Qed.

Lemma grows_ret {A : Type} (a : A) : grows (ret a).
Proof. intros w. apply extends_refl. Qed.

Lemma grows_raise {A : Type} (e : Exn) : grows (@raise A e).
Proof. intros w. apply extends_refl. Qed.

Lemma grows_out_of_fuel {A : Type} : grows (@out_of_fuel A).
Proof. intros w. exact I. Qed.

Lemma grows_print line : grows (print line).
Proof. intros w. now apply extends_same_entities. Qed.

Lemma grows_bind {A B : Type} (c : M A) (k : A -> M B) :
  grows c -> (forall a, grows (k a)) -> grows (bind c k).
Proof.
  intros Hc Hk w. unfold bind. specialize (Hc w).
  destruct (c w) as [a w1|e w1|]; [|assumption|exact I].
  specialize (Hk a w1).
  destruct (k a w1); try exact I; eapply extends_trans; eassumption.
Qed.

Lemma grows_for_each {A S : Type} (xs : list A) (body : S -> A -> M S) :
  (forall acc x, grows (body acc x)) -> forall acc, grows (for_each xs body acc).
Proof.
  intros Hbody. induction xs as [|x xs IH]; intros acc; simpl.
  - apply grows_ret.
  - apply grows_bind; auto.
Qed.

Lemma grows_for_ {A : Type} (xs : list A) (body : A -> M unit) :
  (forall x, grows (body x)) -> grows (for_ xs body).
Proof.
  intros Hbody. induction xs as [|x xs IH]; simpl.
  - apply grows_ret.
  - apply grows_bind; auto.
Qed.

Lemma grows_except_SynapseHTTPError {A : Type} (c handler : M A) :
  grows c -> grows handler -> grows (except_SynapseHTTPError c handler).
Proof.
  intros Hc Hh w. unfold except_SynapseHTTPError. specialize (Hc w).
  destruct (c w) as [a w1|e w1|]; [assumption| |exact I].
  destruct e; try assumption.
  specialize (Hh w1).
  destruct (handler w1); try exact I; eapply extends_trans; eassumption.
Qed.

Lemma grows_except_Exception {A : Type} (c : M A) (handler : Exn -> M A) :
  grows c -> (forall e, grows (handler e)) ->
  grows (except_Exception c handler).
Proof.
  intros Hc Hh w. unfold except_Exception. specialize (Hc w).
  destruct (c w) as [a w1|e w1|]; [assumption| |exact I].
  specialize (Hh e w1).
  destruct (handler e w1); try exact I; eapply extends_trans; eassumption.
Qed.

Lemma grows_same {A : Type} (c : M A) :
  (forall w, match c w with
             | Ok _ w' => entities w' = entities w
             | Raise _ w' => entities w' = entities w
             | OutOfFuel => True
             end) -> grows c.
Proof.
  intros H w. specialize (H w).
  destruct (c w); try exact I; now apply extends_same_entities.
Qed.

Lemma grows_syn_get entity version downloadFile :
  grows (syn_get entity version downloadFile).
Proof.
  apply grows_same. intros w. unfold syn_get.
  destruct (find_entity entity w) as [e|]; [|reflexivity].
  destruct (match version with
            | Some v => negb (Nat.eqb v (ent_versionNumber e))
            | None => false
            end); [reflexivity|].
  destruct (ent_type e), (ent_dataFileHandleId e), (ent_externalURL e),
    downloadFile; reflexivity.
Qed.

Lemma grows_check_name search name msg : grows (check_name search name msg).
Proof.
  apply grows_for_. intros i.
  destruct (String.eqb i name); [apply grows_raise | apply grows_ret].
Qed.

Lemma grows_syn_query_names parent : grows (syn_query_names parent).
Proof. intros w. apply extends_refl. Qed.

Lemma grows_syn_chunkedQuery parent : grows (syn_chunkedQuery parent).
Proof. intros w. apply extends_refl. Qed.

#[local] Hint Resolve grows_ret grows_raise grows_print grows_syn_get
  grows_check_name grows_syn_query_names grows_syn_chunkedQuery
  grows_out_of_fuel : copy.

Lemma grows_bind_post {A B : Type} (P : A -> Prop) (c : M A) (k : A -> M B) :
  grows c ->
  (forall w, match c w with Ok a _ => P a | _ => True end) ->
  (forall a, P a -> grows (k a)) -> grows (bind c k).
Proof.
  intros Hc HP Hk w. unfold bind. specialize (Hc w). specialize (HP w).
  destruct (c w) as [a w1|e w1|]; [|assumption|exact I].
  specialize (Hk a HP w1).
  destruct (k a w1); try exact I; eapply extends_trans; eassumption.
Qed.

Lemma grows_resolve_provenance setProvenance ent :
  grows (resolve_provenance setProvenance ent).
Proof.
  unfold resolve_provenance.
  destruct (opt_eqb setProvenance (Some "traceback")); [apply grows_ret|].
  destruct (opt_eqb setProvenance (Some "existing")).
  - apply grows_except_SynapseHTTPError; [|apply grows_ret].
    apply grows_bind; [|intros; apply grows_ret].
    apply grows_same. intros w. unfold syn_getProvenance.
    destruct (dict_get (ent_id ent) (provenance w)); reflexivity.
  - destruct (match setProvenance with
              | Some s => String.eqb (lower s) "none"
              | None => true
              end); [apply grows_ret | apply grows_raise].
Qed.

Lemma grows_syn_restGET_filehandles entity version :
  grows (syn_restGET_filehandles entity version).
Proof.
  apply grows_same. intros w. unfold syn_restGET_filehandles.
  destruct (find_entity entity w) as [e|]; [|reflexivity].
  destruct (Nat.eqb version (ent_versionNumber e)); reflexivity.
Qed.

Lemma grows_syn_tableQuery table : grows (syn_tableQuery table).
Proof.
  apply grows_same. intros w. unfold syn_tableQuery.
  destruct (find_entity table w); reflexivity.
Qed.

Lemma grows_new_file entity destinationId version profile createdBy ent :
  grows (new_file entity destinationId version profile createdBy ent).
Proof.
  unfold new_file.
  destruct (opt_eqb (Some profile) createdBy); [apply grows_ret|].
  destruct (ent_externalURL ent);
    (apply grows_bind; [apply grows_syn_get | intros; apply grows_ret]).
Qed.

Lemma new_file_type entity destinationId version profile createdBy ent w :
  match new_file entity destinationId version profile createdBy ent w with
  | Ok r _ => ent_type (fst r) = File
  | _ => True
  end.
Proof.
  unfold new_file.
  destruct (opt_eqb (Some profile) createdBy); [reflexivity|].
  destruct (ent_externalURL ent); unfold bind;
    destruct (syn_get entity version _ w); simpl; auto.
Qed.

Lemma grows__copyFile entity destinationId version update setProvenance :
  grows (_copyFile entity destinationId version update setProvenance).
Proof.
  unfold _copyFile.
  apply grows_bind; [apply grows_syn_get|]. intros ent.
  apply grows_bind.
  { destruct (negb update); [|apply grows_ret].
    apply grows_bind; [apply grows_syn_query_names|].
    intros; apply grows_check_name. }
  intros _. apply grows_bind; [intros w; apply extends_refl|]. intros profile.
  apply grows_bind; [apply grows_resolve_provenance|]. intros act.
  apply grows_bind; [apply grows_syn_restGET_filehandles|].
  intros fileHandleList.
  apply grows_bind_post with (P := fun r => ent_type (fst r) = File).
  - apply grows_new_file.
  - intros w. apply new_file_type.
  - intros r Ht. apply grows_bind; [|intros; apply grows_ret].
    destruct act; apply grows_syn_store; left; simpl; rewrite Ht;
      discriminate.
Qed.

Lemma grows__copyTable entity destinationId setAnnotations :
  grows (_copyTable entity destinationId setAnnotations).
Proof.
  unfold _copyTable.
  apply grows_bind; [apply grows_print|]. intros _.
  apply grows_bind; [apply grows_syn_get|]. intros myTableSchema.
  apply grows_bind; [intros w; apply extends_refl|]. intros search.
  apply grows_bind; [apply grows_check_name|]. intros _.
  apply grows_bind; [apply grows_syn_tableQuery|]. intros d.
  destruct (Nat.ltb 0 (List.length d));
    (apply grows_bind; [apply grows_print|]; intros _;
     apply grows_bind; [|intros; apply grows_ret];
     apply grows_syn_store; left;
     destruct setAnnotations; simpl; discriminate).
Qed.

Lemma grows__copyLink entity destinationId :
  grows (_copyLink entity destinationId).
Proof.
  unfold _copyLink.
  apply grows_bind; [apply grows_syn_get|]. intros ent.
  apply grows_bind; [apply grows_syn_query_names|]. intros search.
  apply grows_bind; [apply grows_check_name|]. intros _.
  apply grows_except_Exception.
  - apply grows_bind; [|intros; apply grows_ret].
    apply grows_syn_store. now right.
  - intros e. apply grows_bind; [apply grows_print|].
    intros; apply grows_ret.
Qed.

Lemma grows_report ent copiedId mapping : grows (report ent copiedId mapping).
Proof.
  unfold report. apply grows_bind; [|intros; apply grows_ret].
  destruct copiedId; apply grows_print.
Qed.

Lemma grows__copyFolder rec entity destinationId mapping kwargs :
  (forall e d m k, grows (rec e d m k)) ->
  grows (_copyFolder rec entity destinationId mapping kwargs).
Proof.
  intros Hrec. unfold _copyFolder.
  apply grows_bind; [apply grows_syn_get|]. intros oldFolder.
  apply grows_bind; [apply grows_syn_query_names|]. intros search.
  apply grows_bind; [apply grows_check_name|]. intros _.
  apply grows_bind; [apply grows_syn_store; left; simpl; discriminate|].
  intros newFolder.
  apply grows_bind; [apply grows_syn_chunkedQuery|]. intros entities.
  apply grows_bind; [|intros; apply grows_ret].
  apply grows_for_each. intros acc x. apply Hrec.
Qed.

Lemma grows__copyRecursive fuel :
  forall entity destinationId mapping kwargs,
    grows (_copyRecursive fuel entity destinationId mapping kwargs).
Proof.
  induction fuel as [|fuel IH]; intros entity destinationId mapping kwargs.
  - apply grows_out_of_fuel.
  - cbn [_copyRecursive].
    destruct (negb (forallb (fun i => str_in i allowed_excludeTypes)
                            (excludeTypes kwargs))); [apply grows_raise|].
    apply grows_bind; [apply grows_syn_get|]. intros ent.
    destruct (ent_type ent).
    + destruct (version kwargs); [apply grows_raise|].
      apply grows_bind; [apply grows_syn_get|]. intros dest.
      destruct (negb (EntityType_eqb (ent_type dest) Project));
        [apply grows_raise|].
      apply grows_bind; [apply grows_syn_chunkedQuery|]. intros entities.
      apply grows_bind; [|intros; apply grows_report].
      apply grows_for_each. intros acc x. apply IH.
    + destruct (version kwargs); [apply grows_raise|].
      apply grows_bind; [now apply grows__copyFolder|].
      intros r. apply grows_report.
    + destruct (negb (str_in "file" (excludeTypes kwargs)));
        [|apply grows_report].
      apply grows_bind; [apply grows__copyFile|]. intros; apply grows_report.
    + destruct (negb (str_in "link" (excludeTypes kwargs)));
        [|apply grows_report].
      apply grows_bind; [apply grows__copyLink|].
      intros [c|]; apply grows_report.
    + destruct (negb (str_in "table" (excludeTypes kwargs)));
        [|apply grows_report].
      apply grows_bind; [apply grows__copyTable|]. intros; apply grows_report.
    + apply grows_raise.
Qed.

(** ** Successful runs, step by step *)

Lemma bind_Ok {A B : Type} (c : M A) (k : A -> M B) w b w' :
  bind c k w = Ok b w' ->
  exists a w1, c w = Ok a w1 /\ k a w1 = Ok b w'.
Proof.
  unfold bind. destruct (c w) as [a w1| |]; try discriminate.
  intros H. now exists a, w1.
Qed.

Lemma grows_Ok {A : Type} (c : M A) w a w' :
  grows c -> c w = Ok a w' -> extends w w'.
Proof. intros Hg H. specialize (Hg w). now rewrite H in Hg. Qed.

Lemma syn_get_Ok entity version downloadFile w ent w' :
  syn_get entity version downloadFile w = Ok ent w' ->
  exists e, find_entity entity w = Some e
            /\ ent_id ent = entity /\ ent_type ent = ent_type e
            /\ ent_targetId ent = ent_targetId e
            /\ ent_name ent = ent_name e
            /\ entities w' = entities w
            /\ (downloadFile = false -> ent = e /\ w' = w).
Proof.
  unfold syn_get. destruct (find_entity entity w) as [e|] eqn:Hf;
    [|discriminate].
  pose proof (find_entity_id _ _ _ Hf) as Hid.
  destruct (match version with
            | Some v => negb (Nat.eqb v (ent_versionNumber e))
            | None => false
            end); [discriminate|].
  intros H. exists e. split; [reflexivity|].
  destruct (ent_type e) eqn:Et, (ent_dataFileHandleId e),
    (ent_externalURL e), downloadFile;
    inversion H; subst; simpl; rewrite ?Et; auto 10;
    repeat split; auto; discriminate.
Qed.

Lemma report_Ok ent copiedId mapping w mapping' w' :
  report ent copiedId mapping w = Ok mapping' w' ->
  mapping' = mapping /\ entities w' = entities w.
Proof.
  unfold report, bind, print, ret. destruct copiedId; intros H;
    inversion H; subst; auto.
Qed.

Lemma check_name_Ok search name msg w u w' :
  check_name search name msg w = Ok u w' -> w' = w.
Proof.
  destruct (check_name_cases search name msg w) as [E|E]; rewrite E;
    intros H; inversion H; reflexivity.
Qed.

(** [_copyLink] returns no id only when the service does not hold the
    target of the link. *)
Lemma _copyLink_None entity destinationId w w' :
  _copyLink entity destinationId w = Ok None w' ->
  exists e, find_entity entity w = Some e
            /\ find_entity (ent_targetId e) w = None.
Proof.
  unfold _copyLink. intros H.
  apply bind_Ok in H. destruct H as (ent & w1 & Hget & H).
  apply syn_get_Ok in Hget.
  destruct Hget as (e & Hf & _ & _ & Htarget & _ & Hents & _).
  apply bind_Ok in H. destruct H as (search & w2 & Hq & H).
  unfold syn_query_names in Hq. inversion Hq; subst search w2. clear Hq.
  apply bind_Ok in H. destruct H as (u & w3 & Hc & H).
  apply check_name_Ok in Hc. subst w3.
  exists e. split; [assumption|].
  unfold except_Exception, bind, syn_store in H.
  cbn [ent_type set_ent_target new_entity EntityType_eqb andb ent_targetId]
    in H.
  rewrite Htarget in H.
  assert (Hsame : find_entity (ent_targetId e) w1
                  = find_entity (ent_targetId e) w).
  { unfold find_entity. now rewrite Hents. }
  rewrite Hsame in H.
  destruct (find_entity (ent_targetId e) w); [|reflexivity].
  cbn in H. discriminate H.
Qed.

(** ** Order and coverage are kept when the service and the mapping grow *)

Lemma ordered_mono w w' before before' after after' c :
  extends w w' ->
  incl (map fst before) (map fst before') ->
  incl (map fst after) (map fst after') ->
  ordered w before after c -> ordered w' before' after' c.
Proof.
  intros [Hfind Hchild] Hb Ha (p & ep & Hp & Hc & Hcase).
  destruct (Hfind p ep Hp) as (ep' & Hp' & Ht & _).
  exists p, ep'. split; [assumption|]. split; [now apply Hchild|].
  rewrite Ht. destruct Hcase as [[T I]|[T I]]; [left|right]; auto.
Qed.

Lemma covered_mono w kwargs written written' x :
  incl (map fst written) (map fst written') ->
  covered w kwargs written x -> covered w kwargs written' x.
Proof.
  intros Hincl [Hkey|Hother]; [left|now right].
  apply dict_keys_in. apply Hincl. now apply dict_keys_in.
Qed.

Lemma app_eq_event {A : Type} (l1 l2 before after : list A) (x : A) :
  (l1 ++ l2 = before ++ x :: after)%list ->
  (exists after1, l1 = (before ++ x :: after1)%list
                  /\ after = (after1 ++ l2)%list)
  \/ (exists before2, l2 = (before2 ++ x :: after)%list
                      /\ before = (l1 ++ before2)%list).
Proof.
  revert before. induction l1 as [|a l1 IH]; intros before H.
  - right. exists before. auto.
  - destruct before as [|b before].
    + simpl in H. inversion H; subst. left. exists l1. auto.
    + simpl in H. inversion H; subst.
      destruct (IH before H2) as [(after1 & -> & ->)|(before2 & -> & ->)].
      * left. exists after1. auto.
      * right. exists before2. auto.
Qed.

Lemma reachable_cases w0 w entity ent x :
  extends w0 w -> find_entity entity w = Some ent ->
  reachable w0 entity x ->
  (x = entity
   /\ exists e0, find_entity entity w0 = Some e0
                 /\ ent_type ent = ent_type e0
                 /\ (ent_type e0 = Link -> ent = e0))
  \/ (is_container ent = true
      /\ exists child, In child (child_ids entity w0)
                       /\ reachable w0 child x).
Proof.
  intros [Hfind _] Hent Hreach.
  inversion Hreach as [r e0 H0|r e0 child y H0 Hcont Hin Hrest]; subst.
  - left. split; [reflexivity|]. exists e0.
    destruct (Hfind _ _ H0) as (e' & He' & Ht & Hl).
    assert (e' = ent) by congruence. subst e'. auto.
  - right. destruct (Hfind _ _ H0) as (e' & He' & Ht & Hl).
    assert (e' = ent) by congruence. subst e'.
    split; [unfold is_container in *; now rewrite Ht|].
    now exists child.
Qed.

(** ** The walk *)

Lemma incl_map_fst_app_l (a b : Dict string) :
  incl (map fst a) (map fst (a ++ b)%list).
Proof. rewrite map_app. apply incl_appl, incl_refl. Qed.

Lemma incl_map_fst_app_r (a b : Dict string) :
  incl (map fst b) (map fst (a ++ b)%list).
Proof. rewrite map_app. apply incl_appr, incl_refl. Qed.

Section Loop.
Variable fuel : nat.
Hypothesis walk :
  forall entity destinationId mapping kwargs w0 w mapping' w',
    extends w0 w ->
    _copyRecursive fuel entity destinationId mapping kwargs w
    = Ok mapping' w' ->
    walk_post w0 kwargs entity mapping mapping' w'.

Lemma loop_spec destinationId kwargs w0 cs :
  forall mapping w mapping' w',
    extends w0 w ->
    for_each cs
      (fun mapping i =>
         _copyRecursive fuel i destinationId mapping kwargs) mapping w
    = Ok mapping' w' ->
    extends w w' /\ loop_post w0 kwargs cs mapping mapping' w'.
Proof.
  induction cs as [|c1 cs IH]; intros mapping w mapping' w' Hext Hrun.
  - cbn in Hrun. inversion Hrun; subst.
    split; [apply extends_refl|]. exists []. rewrite app_nil_r.
    split; [reflexivity|]. split.
    + intros before c v after H. destruct before; discriminate.
    + intros c x [].
  - cbn [for_each] in Hrun. apply bind_Ok in Hrun.
    destruct Hrun as (m1 & w1 & Hstep & Hrest).
    pose proof (grows_Ok _ _ _ _ (grows__copyRecursive fuel c1 destinationId
                                    mapping kwargs) Hstep) as Hg1.
    destruct (walk _ _ _ _ w0 _ _ _ Hext Hstep)
      as (written1 & -> & Hord1 & Hcov1).
    destruct (IH _ _ _ _ (extends_trans _ _ _ Hext Hg1) Hrest)
      as (Hg2 & written2 & -> & Hord2 & Hcov2).
    split; [eapply extends_trans; eassumption|].
    exists (written1 ++ written2)%list.
    split; [now rewrite app_assoc|]. split.
    + intros before c v after Hsplit.
      apply app_eq_event in Hsplit.
      destruct Hsplit as [(after1 & E1 & ->)|(before2 & E2 & ->)].
      * destruct (string_dec c c1) as [->|Hne]; [left; now left|].
        right. eapply ordered_mono;
          [exact Hg2 | apply incl_refl | apply incl_map_fst_app_l
          | now apply (Hord1 before c v after1)].
      * destruct (Hord2 before2 c v after E2) as [Hin|Ho].
        -- left. now right.
        -- right. eapply ordered_mono;
             [apply extends_refl | apply incl_map_fst_app_r
             | apply incl_refl | exact Ho].
    + intros c x [<-|Hin] Hreach.
      * eapply covered_mono; [apply incl_map_fst_app_l|]. now apply Hcov1.
      * eapply covered_mono; [apply incl_map_fst_app_r|].
        now apply (Hcov2 c).
Qed.
End Loop.

Lemma no_event {A : Type} (before after : list A) (x : A) :
  [] <> (before ++ x :: after)%list.
Proof. destruct before; discriminate. Qed.

Lemma single_event {A : Type} (before after : list A) (x y : A) :
  [y] = (before ++ x :: after)%list -> x = y.
Proof.
  destruct before as [|b before]; simpl; intros H; inversion H; subst;
    [reflexivity|]. exfalso. eapply no_event; eassumption.
Qed.

(** The three leaf kinds: one write, or none for an excluded kind. *)
Lemma leaf_post w0 kwargs entity mapping w (copied : option string) :
  (forall x, reachable w0 entity x -> x = entity) ->
  (copied = None ->
   forall e0, find_entity entity w0 = Some e0 ->
              excluded kwargs e0 \/ broken_link w0 e0) ->
  walk_post w0 kwargs entity mapping
    (match copied with
     | Some c => dict_set entity c mapping
     | None => mapping
     end) w.
Proof.
  intros Hleaf Hnone. destruct copied as [c|].
  - exists [(entity, c)]. split; [reflexivity|]. split.
    + intros before c' v after Hsplit Hne.
      apply single_event in Hsplit. inversion Hsplit; subst. contradiction.
    + intros x Hreach. rewrite (Hleaf x Hreach). left.
      apply dict_keys_in. now left.
  - exists []. rewrite app_nil_r. split; [reflexivity|]. split.
    + intros before c' v after Hsplit. exfalso. eapply no_event; eassumption.
    + intros x Hreach. pose proof (Hleaf x Hreach) as ->.
      inversion Hreach as [r e1 H1|r e1 child y H1 _ _ _]; subst;
        right; exists e1; split; auto.
Qed.

Lemma leaf_reachable w0 w entity ent x :
  extends w0 w -> find_entity entity w = Some ent ->
  is_container ent = false -> reachable w0 entity x -> x = entity.
Proof.
  intros Hext Hent Hleaf Hreach.
  destruct (reachable_cases _ _ _ _ _ Hext Hent Hreach) as [[-> _]|[Hc _]];
    [reflexivity | congruence].
Qed.

Lemma walk_spec fuel :
  forall entity destinationId mapping kwargs w0 w mapping' w',
    extends w0 w ->
    _copyRecursive fuel entity destinationId mapping kwargs w
    = Ok mapping' w' ->
    walk_post w0 kwargs entity mapping mapping' w'.
Proof.
  induction fuel as [|fuel IH];
    intros entity destinationId mapping kwargs w0 w mapping' w' Hext Hrun;
    [discriminate|].
  cbn [_copyRecursive] in Hrun.
  destruct (negb (forallb (fun i => str_in i allowed_excludeTypes)
                          (excludeTypes kwargs))); [discriminate|].
  apply bind_Ok in Hrun. destruct Hrun as (ent & w1 & Hget & Hrun).
  apply syn_get_Ok in Hget.
  destruct Hget as (e & Hf & Hid & _ & _ & _ & _ & Hsame).
  destruct (Hsame eq_refl) as [-> ->]. clear Hsame.
  rewrite Hid in Hrun. clear Hid.
  assert (Hself : forall W, extends w W ->
            exists e', find_entity entity W = Some e'
                       /\ ent_type e' = ent_type e).
  { intros W [HW _]. destruct (HW _ _ Hf) as (e' & He' & Ht & _).
    now exists e'. }
  destruct (ent_type e) eqn:Etype.
  - (* Project *)
    destruct (version kwargs); [discriminate|].
    apply bind_Ok in Hrun. destruct Hrun as (dest & w2 & Hgetd & Hrun).
    pose proof (grows_Ok _ _ _ _ (grows_syn_get _ _ _) Hgetd) as Hg2.
    destruct (negb (EntityType_eqb (ent_type dest) Project));
      [discriminate|].
    apply bind_Ok in Hrun. destruct Hrun as (cs & w3 & Hq & Hrun).
    unfold syn_chunkedQuery in Hq. inversion Hq; subst cs w3. clear Hq.
    apply bind_Ok in Hrun. destruct Hrun as (m2 & w4 & Hloop & Hrep).
    apply report_Ok in Hrep. destruct Hrep as [-> Hents].
    destruct (loop_spec fuel IH destinationId kwargs w0 _ _ _ _ _
                (extends_trans _ _ _ Hext Hg2) Hloop)
      as (Hg4 & written & -> & Hord & Hcov).
    pose proof (extends_same_entities _ _ Hents) as Hg5.
    exists ((entity, destinationId) :: written).
    split; [unfold dict_set; now rewrite <- app_assoc|]. split.
    + intros before c v after Hsplit Hne.
      destruct before as [|b before]; simpl in Hsplit; inversion Hsplit;
        subst; [contradiction|].
      destruct (Hord before c v after eq_refl) as [Hin|Ho].
      * destruct (Hself w')
          as (e' & He' & Ht');
          [eauto using extends_trans|].
        exists entity, e'. split; [assumption|]. split.
        -- destruct Hg5 as [_ C5]. destruct Hg4 as [_ C4].
           apply C5, C4. exact Hin.
        -- left. split; [congruence|]. simpl. now left.
      * eapply ordered_mono; [exact Hg5| |apply incl_refl|exact Ho].
        simpl. apply incl_tl, incl_refl.
    + intros x Hreach.
      destruct (reachable_cases _ _ _ _ _ Hext Hf Hreach)
        as [[-> _]|[_ (child & Hin & Hrest)]].
      * left. apply dict_keys_in. now left.
      * eapply covered_mono; [|apply (Hcov child x); [|exact Hrest]].
        -- simpl. apply incl_tl, incl_refl.
        -- destruct (extends_trans _ _ _ Hext Hg2) as [_ C]. now apply C.
  - (* Folder *)
    destruct (version kwargs); [discriminate|].
    apply bind_Ok in Hrun. destruct Hrun as (r & w5 & Hfolder & Hrep).
    apply report_Ok in Hrep. destruct Hrep as [-> Hents].
    unfold _copyFolder in Hfolder.
    apply bind_Ok in Hfolder.
    destruct Hfolder as (oldFolder & w2 & Hgeto & Hfolder).
    pose proof (grows_Ok _ _ _ _ (grows_syn_get _ _ _) Hgeto) as Hg2.
    apply bind_Ok in Hfolder. destruct Hfolder as (search & w2' & Hq & Hfolder).
    unfold syn_query_names in Hq. inversion Hq; subst search w2'. clear Hq.
    apply bind_Ok in Hfolder. destruct Hfolder as (u & w2' & Hc & Hfolder).
    apply check_name_Ok in Hc. subst w2'.
    apply bind_Ok in Hfolder.
    destruct Hfolder as (newFolder & w3 & Hstore & Hfolder).
    assert (Hg3 : extends w2 w3).
    { eapply grows_Ok; [|exact Hstore]. apply grows_syn_store. left.
      simpl. discriminate. }
    apply bind_Ok in Hfolder. destruct Hfolder as (cs & w3' & Hq & Hfolder).
    unfold syn_chunkedQuery in Hq. inversion Hq; subst cs w3'. clear Hq.
    apply bind_Ok in Hfolder. destruct Hfolder as (m2 & w4 & Hloop & Hret).
    unfold ret in Hret. inversion Hret; subst r w5. clear Hret.
    cbn [fst snd].
    assert (Hext3 : extends w0 w3) by eauto using extends_trans.
    destruct (loop_spec fuel IH (ent_id newFolder) kwargs w0 _ _ _ _ _
                Hext3 Hloop)
      as (Hg4 & written & -> & Hord & Hcov).
    pose proof (extends_same_entities _ _ Hents) as Hg5.
    exists (written ++ [(entity, ent_id newFolder)])%list.
    split; [unfold dict_set; now rewrite <- app_assoc|]. split.
    + intros before c v after Hsplit Hne.
      apply app_eq_event in Hsplit.
      destruct Hsplit as [(after1 & E1 & ->)|(before2 & E2 & ->)].
      * destruct (Hord before c v after1 E1) as [Hin|Ho].
        -- destruct (Hself w') as (e' & He' & Ht');
             [eauto using extends_trans|].
           exists entity, e'. split; [assumption|]. split.
           ++ destruct Hg5 as [_ C5]. destruct Hg4 as [_ C4].
              apply C5, C4. exact Hin.
           ++ right. split; [congruence|].
              rewrite map_app, in_app_iff. right. simpl. now left.
        -- eapply ordered_mono;
             [exact Hg5|apply incl_refl|apply incl_map_fst_app_l|exact Ho].
      * apply single_event in E2. inversion E2; subst. contradiction.
    + intros x Hreach.
      destruct (reachable_cases _ _ _ _ _ Hext Hf Hreach)
        as [[-> _]|[_ (child & Hin & Hrest)]].
      * left. apply dict_keys_in. rewrite map_app, in_app_iff. right.
        simpl. now left.
      * eapply covered_mono; [apply incl_map_fst_app_l|].
        apply (Hcov child x); [|exact Hrest].
        destruct Hext3 as [_ C]. now apply C.
  - (* File *)
    assert (Hleaf : forall x, reachable w0 entity x -> x = entity).
    { intros x. eapply leaf_reachable; eauto.
      unfold is_container. now rewrite Etype. }
    destruct (str_in "file" (excludeTypes kwargs)) eqn:Excl;
      cbn [negb] in Hrun.
    + apply report_Ok in Hrun. destruct Hrun as [-> _].
      apply (leaf_post w0 kwargs entity mapping w' None Hleaf).
      intros _ e0 H0. left. left. split; [|assumption].
      destruct Hext as [F _]. destruct (F _ _ H0) as (e' & He' & Ht & _).
      congruence.
    + apply bind_Ok in Hrun. destruct Hrun as (copiedId & w2 & _ & Hrep).
      apply report_Ok in Hrep. destruct Hrep as [-> _].
      apply (leaf_post w0 kwargs entity mapping w' (Some copiedId) Hleaf).
      discriminate.
  - (* Link *)
    assert (Hleaf : forall x, reachable w0 entity x -> x = entity).
    { intros x. eapply leaf_reachable; eauto.
      unfold is_container. now rewrite Etype. }
    destruct (str_in "link" (excludeTypes kwargs)) eqn:Excl;
      cbn [negb] in Hrun.
    + apply report_Ok in Hrun. destruct Hrun as [-> _].
      apply (leaf_post w0 kwargs entity mapping w' None Hleaf).
      intros _ e0 H0. left. right. left. split; [|assumption].
      destruct Hext as [F _]. destruct (F _ _ H0) as (e' & He' & Ht & _).
      congruence.
    + apply bind_Ok in Hrun. destruct Hrun as (copiedId & w2 & Hlink & Hrep).
        destruct copiedId as [c|]; apply report_Ok in Hrep;
        destruct Hrep as [-> _].
      * apply (leaf_post w0 kwargs entity mapping w' (Some c) Hleaf).
        discriminate.
      * apply (leaf_post w0 kwargs entity mapping w' None Hleaf).
        intros _ e0 H0. right.
        apply _copyLink_None in Hlink.
        destruct Hlink as (e1 & H1 & Hgone).
        assert (e1 = e) by congruence. subst e1.
        destruct Hext as [F _]. destruct (F _ _ H0) as (e' & He' & Ht & Hl).
        assert (e' = e) by congruence. subst e'.
        assert (Hlinktype : ent_type e0 = Link) by congruence.
        rewrite (Hl Hlinktype) in Hgone. split; [assumption|].
        destruct (find_entity (ent_targetId e0) w0) as [t|] eqn:Et;
          [|reflexivity].
        destruct (F _ _ Et) as (t' & Ht' & _). congruence.
  - (* Schema *)
    assert (Hleaf : forall x, reachable w0 entity x -> x = entity).
    { intros x. eapply leaf_reachable; eauto.
      unfold is_container. now rewrite Etype. }
    destruct (str_in "table" (excludeTypes kwargs)) eqn:Excl;
      cbn [negb] in Hrun.
    + apply report_Ok in Hrun. destruct Hrun as [-> _].
      apply (leaf_post w0 kwargs entity mapping w' None Hleaf).
      intros _ e0 H0. left. right. right. split; [|assumption].
      destruct Hext as [F _]. destruct (F _ _ H0) as (e' & He' & Ht & _).
      congruence.
    + apply bind_Ok in Hrun. destruct Hrun as (copiedId & w2 & _ & Hrep).
      apply report_Ok in Hrep. destruct Hrep as [-> _].
      apply (leaf_post w0 kwargs entity mapping w' (Some copiedId) Hleaf).
      discriminate.
  - discriminate.
Qed.

Lemma copy_Ok fuel entity destinationId copyWikiPage kwargs w mapping' w' :
  copy fuel entity destinationId copyWikiPage kwargs w = Ok mapping' w' ->
  exists w1,
    _copyRecursive fuel entity destinationId (mapping kwargs) kwargs w
    = Ok mapping' w1.
Proof.
  unfold copy. intros H. apply bind_Ok in H.
  destruct H as (m & w1 & Hrec & H).
  apply bind_Ok in H. destruct H as (u & w2 & _ & H).
  unfold ret in H. inversion H; subst. now exists w1.
Qed.

Lemma walk_covers fuel entity destinationId mapping kwargs w mapping' w' x :
  _copyRecursive fuel entity destinationId mapping kwargs w = Ok mapping' w' ->
  reachable w entity x -> covered w kwargs mapping' x.
Proof.
  intros Hrun Hreach.
  destruct (walk_spec fuel _ _ _ _ w _ _ _ (extends_refl w) Hrun)
    as (written & -> & _ & Hcov).
  eapply covered_mono; [apply incl_map_fst_app_r|]. now apply Hcov.
Qed.

(** C2: after a successful [copy] or tree copy, every entity reachable from
    the root is a key of the returned mapping, unless its kind is listed in
    [excludeTypes] or it is a Link whose target does not resolve. *)
Theorem reachable_entities_are_mapped :
  forall fuel entity destinationId kwargs w mapping' w' x,
    reachable w entity x ->
    (forall mapping,
        _copyRecursive fuel entity destinationId mapping kwargs w
        = Ok mapping' w' ->
        covered w kwargs mapping' x)
    /\ (forall copyWikiPage,
           copy fuel entity destinationId copyWikiPage kwargs w
           = Ok mapping' w' ->
           covered w kwargs mapping' x).
Proof.
  intros fuel entity destinationId kwargs w mapping' w' x Hreach. split.
  - intros mapping Hrun. eapply walk_covers; eassumption.
  - intros copyWikiPage Hrun. apply copy_Ok in Hrun.
    destruct Hrun as (w1 & Hrun). eapply walk_covers; eassumption.
Qed.

Lemma reachable_entities_are_mapped_witness :
  exists mapping' w',
    _copyRecursive 3 "syn1" "syn9" [] default_kwargs sample_world
    = Ok mapping' w'
    /\ covered sample_world default_kwargs mapping' "syn3"
    /\ covered sample_world default_kwargs mapping' "syn4".
Proof.
  eexists. eexists. split; [vm_compute; reflexivity|].
  assert (Hroot : forall i e, find_entity i sample_world = Some e ->
                              reachable sample_world i i).
  { intros i e H. eapply reachable_root. exact H. }
  assert (Hr : forall x e, find_entity x sample_world = Some e ->
                           In x (child_ids "syn2" sample_world) ->
                           reachable sample_world "syn1" x).
  { intros x e Hx Hin.
    eapply reachable_child; [reflexivity|reflexivity|simpl; now left|].
    eapply reachable_child; [reflexivity|reflexivity|exact Hin|].
    eapply Hroot. exact Hx. }
  split.
  - refine (proj1 (reachable_entities_are_mapped
                     3 "syn1" "syn9" default_kwargs sample_world _ _ "syn3"
                     (Hr "syn3" _ eq_refl (or_introl eq_refl))) [] _).
    vm_compute. reflexivity.
  - refine (proj1 (reachable_entities_are_mapped
                     3 "syn1" "syn9" default_kwargs sample_world _ _ "syn4"
                     (Hr "syn4" _ eq_refl (or_intror (or_introl eq_refl))))
                  [] _).
    vm_compute. reflexivity.
Defined.

(** C1, the claim on the sample project: the file [syn3] of the folder
    [syn2] is written to the mapping before the folder itself. *)
Lemma folder_entry_written_after_children :
  exists mapping' w',
    _copyRecursive 3 "syn1" "syn9" [] default_kwargs sample_world
    = Ok mapping' w'
    /\ mapping' = [("syn1", "syn9"); ("syn3", "syn202"); ("syn5", "syn203");
                   ("syn2", "syn200")]
    /\ ~ parent_first w' "syn1" mapping'.
Proof.
  eexists. eexists. split; [vm_compute; reflexivity|].
  split; [reflexivity|].
  intros H.
  destruct (H [("syn1", "syn9")] "syn3" "syn202"
              [("syn5", "syn203"); ("syn2", "syn200")] eq_refl
              ltac:(discriminate)) as (p & Hc & [<-|[]]).
  vm_compute in Hc. destruct Hc as [E|[]]. discriminate E.
Qed.

(** C1 as amended: in every successful recursive copy, for every entry
    written for an entity other than the root, the entry of the entity's
    parent is written before it when the parent is a Project and after it
    when the parent is a Folder. *)
Theorem project_entry_first_folder_entry_last :
  forall fuel entity destinationId mapping kwargs w mapping' w',
    _copyRecursive fuel entity destinationId mapping kwargs w
    = Ok mapping' w' ->
    exists written,
      mapping' = (mapping ++ written)%list
      /\ project_first_folder_last w' entity written.
Proof.
  intros fuel entity destinationId mapping kwargs w mapping' w' Hrun.
  destruct (walk_spec fuel _ _ _ _ w _ _ _ (extends_refl w) Hrun)
    as (written & E & Hord & _).
  now exists written.
Qed.

Lemma project_entry_first_folder_entry_last_witness :
  exists mapping' w' written,
    _copyRecursive 3 "syn1" "syn9" [] default_kwargs sample_world
    = Ok mapping' w'
    /\ mapping' = ([] ++ written)%list
    /\ project_first_folder_last w' "syn1" written.
Proof.
  eexists. eexists.
  assert (Hrun : _copyRecursive 3 "syn1" "syn9" [] default_kwargs sample_world
                 = Ok ?[m] ?[w]) by (vm_compute; reflexivity).
  destruct (project_entry_first_folder_entry_last _ _ _ _ _ _ _ _ Hrun)
    as (written & E & Hord).
  exists written. split; [exact Hrun|]. split; assumption.
Defined.

(** ** Page ids *)

Lemma str_of_nat_inj n m : str_of_nat n = str_of_nat m -> n = m.
Proof.
  unfold str_of_nat. intros H.
  assert (Hnonnil : forall k, Nat.to_uint k <> Nil).
  { intros k. rewrite <- (Unsigned.of_to k) at 1. rewrite Unsigned.to_of.
    apply DecimalFacts.unorm_nonnil. }
  pose proof (NilZero.usu _ (Hnonnil n)) as Hn.
  pose proof (NilZero.usu _ (Hnonnil m)) as Hm.
  rewrite H in Hn. rewrite Hn in Hm. inversion Hm.
  now apply Unsigned.to_uint_inj.
Qed.

(** ** Pages stay where they are *)

Lemma wiki_extends_refl w : wiki_extends w w.
Proof. exists []. now rewrite app_nil_r. Qed.

Lemma wiki_extends_trans w1 w2 w3 :
  wiki_extends w1 w2 -> wiki_extends w2 w3 -> wiki_extends w1 w3.
Proof.
  intros [m1 H1] [m2 H2]. exists (m1 ++ m2)%list.
  now rewrite H2, H1, app_assoc.
Qed.

Lemma wiki_extends_same w w' : wikis w' = wikis w -> wiki_extends w w'.
Proof. intros E. exists []. now rewrite E, app_nil_r. Qed.

Lemma find_wiki_shape owner i w :
  option_map shape (find_wiki owner i w)
  = find (shape_at owner i) (map shape (wikis w)).
Proof.
  unfold find_wiki, pages_of. induction (wikis w) as [|p ps IH];
    [reflexivity|].
  cbn [filter map find]. unfold shape_at at 1. cbn [shape fst snd].
  destruct (String.eqb (wiki_ownerId p) owner); cbn [andb find].
  - destruct (String.eqb (wiki_id p) i); [reflexivity | exact IH].
  - exact IH.
Qed.

Lemma find_wiki_extends owner i w w' p :
  wiki_extends w w' -> find_wiki owner i w = Some p ->
  exists p', find_wiki owner i w' = Some p' /\ shape p' = shape p.
Proof.
  intros [more Hmore] Hfind.
  pose proof (find_wiki_shape owner i w) as Hs.
  pose proof (find_wiki_shape owner i w') as Hs'.
  rewrite Hfind in Hs. cbn in Hs. rewrite Hmore in Hs'.
  rewrite (find_app_l _ _ more _ (eq_sym Hs)) in Hs'.
  destruct (find_wiki owner i w') as [p'|]; [|discriminate].
  exists p'. split; [reflexivity|]. cbn in Hs'. congruence.
Qed.

Lemma find_wiki_Some owner i w p :
  find_wiki owner i w = Some p ->
  In p (wikis w) /\ wiki_ownerId p = owner /\ wiki_id p = i.
Proof.
  unfold find_wiki, pages_of. intros H. apply find_some in H.
  destruct H as [Hin Hid]. apply filter_In in Hin. destruct Hin as [Hin Ho].
  apply String.eqb_eq in Hid, Ho. auto.
Qed.

Lemma find_append_fresh ps stored :
  (forall p, In p ps -> wiki_id p <> wiki_id stored) ->
  find (fun p => String.eqb (wiki_id p) (wiki_id stored))
       (filter (fun p => String.eqb (wiki_ownerId p) (wiki_ownerId stored))
               (ps ++ [stored])%list)
  = Some stored.
Proof.
  induction ps as [|p ps IH]; intros Hfresh.
  - simpl. rewrite String.eqb_refl. simpl. now rewrite String.eqb_refl.
  - assert (Hp : wiki_id p <> wiki_id stored) by (apply Hfresh; now left).
    assert (IH' := IH (fun q Hq => Hfresh q (or_intror Hq))).
    simpl.
    destruct (String.eqb (wiki_ownerId p) (wiki_ownerId stored));
      [|exact IH'].
    simpl. destruct (String.eqb_spec (wiki_id p) (wiki_id stored));
      [contradiction | exact IH'].
Qed.

Lemma find_wiki_append owner w w' stored :
  wikis w' = (wikis w ++ [stored])%list ->
  wiki_ownerId stored = owner ->
  (forall p, In p (wikis w) -> wiki_id p <> wiki_id stored) ->
  find_wiki owner (wiki_id stored) w' = Some stored.
Proof.
  intros E Ho Hfresh. subst owner. unfold find_wiki, pages_of. rewrite E.
  now apply find_append_fresh.
Qed.

(** ** Uploads and stores of pages *)

Lemma upload_attachments_facts paths w :
  wikis (snd (upload_attachments paths w)) = wikis w
  /\ counter w <= counter (snd (upload_attachments paths w))
  /\ entities (snd (upload_attachments paths w)) = entities w.
Proof.
  revert w. induction paths as [|p paths IH]; intros w; cbn.
  - auto.
  - destruct (IH (add_transfer (Upload p) (set_counter (S (counter w)) w)))
      as (H1 & H2 & H3).
    cbn in H1, H2, H3. repeat split; auto. lia.
Qed.

Lemma replace_wiki_shape stored ps pg :
  find (fun p => String.eqb (wiki_id p) (wiki_id stored))
       (filter (fun p => String.eqb (wiki_ownerId p) (wiki_ownerId stored)) ps)
  = Some pg ->
  wiki_parentWikiId pg = wiki_parentWikiId stored ->
  map shape (replace_wiki stored ps) = map shape ps.
Proof.
  intros Hfind Hpar. induction ps as [|p ps IH]; [reflexivity|].
  simpl in Hfind. cbn [replace_wiki].
  destruct (String.eqb_spec (wiki_ownerId p) (wiki_ownerId stored)) as [Eo|];
    cbn [andb].
  - simpl in Hfind.
    destruct (String.eqb_spec (wiki_id p) (wiki_id stored)) as [Ei|].
    + inversion Hfind; subst pg. cbn [map]. f_equal. unfold shape.
      now rewrite Eo, Ei, Hpar.
    + cbn [map]. f_equal. now apply IH.
  - cbn [map]. f_equal. now apply IH.
Qed.

Lemma replace_wiki_in stored ps q :
  In q (replace_wiki stored ps) -> q = stored \/ In q ps.
Proof.
  induction ps as [|p ps IH]; cbn [replace_wiki]; [tauto|].
  destruct (String.eqb (wiki_ownerId p) (wiki_ownerId stored)
            && String.eqb (wiki_id p) (wiki_id stored)).
  - intros [<-|H]; [now left | right; now right].
  - intros [<-|H]; [right; now left|].
    destruct (IH H); [now left | right; now right].
Qed.

Lemma file_handles_keys (results : list FileHandle) (d : Dict FileHandle) :
  map fst (fold_left (fun d fh => dict_set (fh_id fh) fh d) results d)
  = (map fst d ++ map fh_id results)%list.
Proof.
  revert d. induction results as [|fh results IH]; intros d; simpl.
  - now rewrite app_nil_r.
  - rewrite IH. unfold dict_set. rewrite map_app, <- app_assoc. reflexivity.
Qed.

Lemma download_loop (wiki : WikiPage) (file_handles : Dict FileHandle) ids :
  forall attachments w,
    (forall fhid, In fhid ids -> In fhid (map fst file_handles)) ->
    exists paths w',
      for_each ids
        (fun attachments fhid =>
           fh <- dict_lookup fhid file_handles ;;
           path <- syn_downloadWikiAttachment (wiki_ownerId wiki) wiki
                                              (fh_fileName fh) ;;
           ret (attachments ++ [path])%list) attachments w
      = Ok paths w'
      /\ wikis w' = wikis w /\ counter w' = counter w.
Proof.
  induction ids as [|fhid ids IH]; intros attachments w Hin.
  - exists attachments, w. auto.
  - destruct (dict_get_present fhid file_handles (Hin fhid (or_introl eq_refl)))
      as [fh Hfh].
    destruct (IH (attachments ++ [(tempdir ++ "/" ++ fh_fileName fh)%string])%list
                 (add_transfer (Download (fh_fileName fh)) w)
                 (fun k Hk => Hin k (or_intror Hk)))
      as (paths & w' & Hrun & Hw & Hc).
    exists paths, w'. split; [|auto].
    cbn [for_each]. unfold bind at 1. unfold bind at 1.
    unfold dict_lookup. rewrite Hfh. unfold ret at 1.
    unfold bind at 1. unfold syn_downloadWikiAttachment at 1.
    unfold ret at 1. exact Hrun.
Qed.

Lemma download_attachments_ok wiki w :
  find_wiki (wiki_ownerId wiki) (wiki_id wiki) w = Some wiki ->
  attachments_listed wiki ->
  exists paths w',
    download_attachments wiki w = Ok paths w'
    /\ wikis w' = wikis w /\ counter w' = counter w.
Proof.
  intros Hfind Hlisted. unfold download_attachments.
  destruct (wiki_attachmentFileHandleIds wiki) as [|fhid ids] eqn:Eids.
  - exists [], w. auto.
  - unfold bind at 1. unfold syn_restGET_attachmenthandles. rewrite Hfind.
    apply download_loop. intros k Hk.
    rewrite file_handles_keys. simpl. apply Hlisted. now rewrite Eids.
Qed.

Lemma syn_store_wiki_new wiki w :
  wiki_id wiki = "" ->
  wiki_attachmentFileHandleIds wiki = [] ->
  exists stored w' c,
    syn_store_wiki wiki w = Ok stored w'
    /\ wikis w' = (wikis w ++ [stored])%list
    /\ wiki_ownerId stored = wiki_ownerId wiki
    /\ wiki_parentWikiId stored = wiki_parentWikiId wiki
    /\ wiki_id stored = str_of_nat c
    /\ counter w <= c /\ counter w' = S c
    /\ attachments_listed stored.
Proof.
  intros Hid Hnone. unfold syn_store_wiki. rewrite Hid. cbn [String.eqb].
  destruct (upload_attachments_facts (wiki_attachments wiki) w)
    as (Hw & Hc & _).
  eexists. eexists. exists (counter (snd (upload_attachments
                                           (wiki_attachments wiki) w))).
  split; [reflexivity|]. cbn. rewrite Hw.
  repeat (split; [reflexivity || assumption|]).
  unfold attachments_listed. cbn. rewrite Hnone, map_app. cbn.
  apply incl_appr, incl_refl.
Qed.

Lemma syn_store_wiki_update wiki w pg :
  wiki_id wiki <> "" ->
  find_wiki (wiki_ownerId wiki) (wiki_id wiki) w = Some pg ->
  wiki_parentWikiId wiki = wiki_parentWikiId pg ->
  attachments_listed wiki ->
  exists stored w',
    syn_store_wiki wiki w = Ok stored w'
    /\ map shape (wikis w') = map shape (wikis w)
    /\ wiki_id stored = wiki_id wiki
    /\ counter w <= counter w'
    /\ (forall q, In q (wikis w') -> q = stored \/ In q (wikis w))
    /\ attachments_listed stored.
Proof.
  intros Hid Hfind Hpar Hlisted. unfold syn_store_wiki.
  destruct (String.eqb_spec (wiki_id wiki) "") as [E|_]; [contradiction|].
  destruct (upload_attachments_facts (wiki_attachments wiki) w)
    as (Hw & Hc & _).
  assert (Hfind1 : find_wiki (wiki_ownerId wiki) (wiki_id wiki)
                     (snd (upload_attachments (wiki_attachments wiki) w))
                   = Some pg).
  { unfold find_wiki, pages_of in *. now rewrite Hw. }
  rewrite Hfind1. eexists. eexists. split; [reflexivity|]. cbn.
  rewrite Hw. split; [|split; [reflexivity|split; [assumption|split]]].
  - eapply replace_wiki_shape; [exact Hfind | cbn; congruence].
  - intros q Hq. apply replace_wiki_in in Hq. exact Hq.
  - unfold attachments_listed in *. cbn. rewrite map_app.
    apply incl_app; [apply incl_appl; assumption | apply incl_appr, incl_refl].
Qed.

(** ** The page loop of [copyWiki] *)

Lemma service_ok_same w w' :
  wikis w' = wikis w -> counter w' = counter w ->
  wiki_service_ok w -> wiki_service_ok w'.
Proof.
  intros Hw Hc [Hl Hi]. split.
  - now rewrite Hw.
  - intros p n Hp Hn. rewrite Hw in Hp. rewrite Hc in Hn. now apply Hi.
Qed.

Lemma service_ok_new w w' stored c :
  wiki_service_ok w ->
  wikis w' = (wikis w ++ [stored])%list ->
  wiki_id stored = str_of_nat c -> counter w <= c -> counter w' = S c ->
  attachments_listed stored ->
  wiki_service_ok w'.
Proof.
  intros [Hl Hi] Hw Hid Hc Hc' Hlisted. split.
  - rewrite Hw. apply Forall_app. split; [assumption|]. now constructor.
  - intros p n Hp Hn. rewrite Hw in Hp. rewrite Hc' in Hn.
    apply in_app_iff in Hp. destruct Hp as [Hp|[<-|[]]].
    + apply Hi; [assumption|lia].
    + rewrite Hid. intros E. apply str_of_nat_inj in E. lia.
Qed.

Lemma service_ok_update w w' stored old :
  wiki_service_ok w ->
  (forall q, In q (wikis w') -> q = stored \/ In q (wikis w)) ->
  In old (wikis w) -> wiki_id stored = wiki_id old ->
  counter w <= counter w' ->
  attachments_listed stored ->
  wiki_service_ok w'.
Proof.
  intros [Hl Hi] Hw Hold Hid Hc Hlisted. split.
  - apply Forall_forall. intros q Hq.
    destruct (Hw q Hq) as [->|Hin]; [assumption|].
    now apply (proj1 (Forall_forall _ _) Hl).
  - intros p n Hp Hn. destruct (Hw p Hp) as [->|Hin].
    + rewrite Hid. apply Hi; [assumption|lia].
    + apply Hi; [assumption|lia].
Qed.

Lemma pages_copied_extend newOwn copied wikiIdMap w w' h new :
  pages_copied newOwn copied wikiIdMap w ->
  wiki_extends w w' ->
  ~ In (h_id h) (map h_id copied) ->
  (forall p, h_parentId h = Some p ->
     exists newp page',
       dict_get p wikiIdMap = Some newp
       /\ find_wiki (ent_id newOwn) new w' = Some page'
       /\ wiki_parentWikiId page' = Some newp) ->
  pages_copied newOwn (copied ++ [h])%list
               (dict_set (h_id h) new wikiIdMap) w'.
Proof.
  intros [Hkeys Htopo] Hext Hfresh Hnew.
  assert (Hkey : forall k v, dict_get k wikiIdMap = Some v -> k <> h_id h).
  { intros k v Hk ->. apply Hfresh. rewrite <- Hkeys.
    apply dict_get_in in Hk. change (h_id h) with (fst (h_id h, v)).
    now apply in_map. }
  split.
  - unfold dict_set. now rewrite !map_app, Hkeys.
  - intros h' p Hin Hp. apply in_app_iff in Hin.
    destruct Hin as [Hin|[<-|[]]].
    + destruct (Htopo h' p Hin Hp) as (new' & newp & page' & H1 & H2 & H3 & H4).
      destruct (find_wiki_extends _ _ _ _ _ Hext H3) as (page'' & H3' & Hs).
      exists new', newp, page''.
      rewrite !dict_get_set_other by eauto.
      repeat split; auto. unfold shape in Hs. congruence.
    + destruct (Hnew p Hp) as (newp & page' & H2 & H3 & H4).
      exists new, newp, page'. rewrite dict_get_set_same.
      rewrite dict_get_set_other by eauto. auto.
Qed.

Section PageStep.
Variables (oldOwn newOwn : Entity) (destinationSubPageId : option string).
Variable w0 : World.
Hypothesis dest_ok : destination_page_ok newOwn destinationSubPageId w0.

Lemma copy_page_step copied wikiIdMap newWikis w h :
  wiki_extends w0 w -> wiki_service_ok w ->
  pages_copied newOwn copied wikiIdMap w ->
  header_for oldOwn w0 h ->
  ~ In (h_id h) (map h_id copied) ->
  (forall p, h_parentId h = Some p -> In p (map h_id copied)) ->
  exists wikiIdMap' newWikis' w',
    copy_page oldOwn newOwn destinationSubPageId (wikiIdMap, newWikis) h w
    = Ok (wikiIdMap', newWikis') w'
    /\ wiki_extends w0 w' /\ wiki_service_ok w'
    /\ pages_copied newOwn (copied ++ [h])%list wikiIdMap' w'.
Proof.
  intros Hext Hok Hcopied (pg0 & Hpg0 & Hparent) Hfresh Hbefore.
  destruct (find_wiki_extends _ _ _ _ _ Hext Hpg0) as (wiki & Hwiki & Hshape).
  destruct (find_wiki_Some _ _ _ _ Hwiki) as (Hin & Howner & Hid).
  assert (Hwpar : wiki_parentWikiId wiki = wiki_parentWikiId pg0)
    by (unfold shape in Hshape; congruence).
  unfold copy_page. cbn [fst snd]. unfold bind at 1.
  unfold syn_getWiki at 1. rewrite Hwiki.
  unfold bind at 1. unfold print at 1.
  set (w1 := add_stdout _ w).
  assert (Hok1 : wiki_service_ok w1) by (now apply (service_ok_same w)).
  destruct (download_attachments_ok wiki w1) as (paths & w2 & Hdl & Hw2 & Hc2).
  { rewrite Howner, Hid. exact Hwiki. }
  { destruct Hok as [Hl _]. now apply (proj1 (Forall_forall _ _) Hl). }
  unfold bind at 1. rewrite Hdl.
  assert (Hok2 : wiki_service_ok w2) by (now apply (service_ok_same w1)).
  assert (Hext2 : wiki_extends w w2).
  { apply wiki_extends_same. now rewrite Hw2. }
  rewrite Hid.
  destruct (h_parentId h) as [p|] eqn:Ep.
  - (* a page with a parent *)
    rewrite Hwpar, (Hparent p eq_refl). cbn [opt_key].
    destruct Hcopied as [Hkeys Htopo].
    destruct (dict_get_present p wikiIdMap) as [newp Hnewp].
    { rewrite Hkeys. now apply Hbefore. }
    unfold bind at 1. unfold bind at 1. unfold dict_lookup. rewrite Hnewp.
    unfold ret at 1.
    destruct (syn_store_wiki_new
                (new_wiki newOwn (title_of wiki) (wiki_markdown wiki) paths
                          (Some newp)) w2 eq_refl eq_refl)
      as (stored & w' & c & Hstore & Hw' & Ho' & Hp' & Hid' & Hc & Hc' & Hl').
    rewrite Hstore.
    exists (dict_set (h_id h) (wiki_id stored) wikiIdMap),
      (dict_set (wiki_id stored) stored newWikis), w'.
    split; [reflexivity|].
    assert (Hext' : wiki_extends w2 w').
    { exists [shape stored]. now rewrite Hw', map_app. }
    split; [eauto using wiki_extends_trans|].
    split; [eapply service_ok_new; eauto|].
    apply (pages_copied_extend newOwn copied wikiIdMap w w' h);
      [now split|eauto using wiki_extends_trans|assumption|].
    intros p' Hp''. rewrite Ep in Hp''. inversion Hp''; subst p'.
    exists newp, stored. split; [assumption|]. split; [|exact Hp'].
    eapply find_wiki_append; [exact Hw'|exact Ho'|].
    intros q Hq. rewrite Hid'. destruct Hok2 as [_ Hi]. now apply Hi.
  - destruct destinationSubPageId as [d|] eqn:Ed.
    + (* the root, written over the destination sub-page *)
      destruct (dest_ok d eq_refl) as (Hd & pgd & Hpgd).
      destruct (find_wiki_extends _ _ _ _ _
                  (wiki_extends_trans _ _ _ Hext Hext2) Hpgd)
        as (wNew & HwNew & _).
      destruct (find_wiki_Some _ _ _ _ HwNew) as (HinN & HoN & HidN).
      unfold bind at 1. unfold bind at 1. unfold syn_getWiki at 1.
      rewrite HwNew.
      destruct (syn_store_wiki_update
                  (set_wiki_markdown (wiki_markdown wiki)
                     (set_wiki_attachments paths wNew)) w2 wNew)
        as (stored & w' & Hstore & Hshapes & Hid' & Hc & Hpages & Hl').
      { cbn. now rewrite HidN. }
      { cbn. now rewrite HoN, HidN. }
      { reflexivity. }
      { destruct Hok2 as [Hl _].
        exact (proj1 (Forall_forall _ _) Hl wNew HinN). }
      rewrite Hstore.
      exists (dict_set (h_id h) (wiki_id stored) wikiIdMap),
        (dict_set (wiki_id stored) stored newWikis), w'.
      split; [reflexivity|].
      assert (Hext' : wiki_extends w2 w').
      { exists []. now rewrite Hshapes, app_nil_r. }
      split; [eauto using wiki_extends_trans|].
      split; [eapply (service_ok_update w2 w' stored wNew); eauto|].
      apply (pages_copied_extend newOwn copied wikiIdMap w w' h);
        [assumption|eauto using wiki_extends_trans|assumption|].
      intros p' Hp''. rewrite Ep in Hp''. discriminate.
    + (* the root, created *)
      unfold bind at 1.
      destruct (syn_store_wiki_new
                  (new_wiki newOwn (title_of wiki) (wiki_markdown wiki) paths
                            None) w2 eq_refl eq_refl)
        as (stored & w' & c & Hstore & Hw' & Ho' & Hp' & Hid' & Hc & Hc' & Hl').
      rewrite Hstore.
      exists (dict_set (h_id h) (wiki_id stored) wikiIdMap),
        (dict_set (wiki_id stored) stored newWikis), w'.
      split; [reflexivity|].
      assert (Hext' : wiki_extends w2 w').
      { exists [shape stored]. now rewrite Hw', map_app. }
      split; [eauto using wiki_extends_trans|].
      split; [eapply service_ok_new; eauto|].
      apply (pages_copied_extend newOwn copied wikiIdMap w w' h);
        [assumption|eauto using wiki_extends_trans|assumption|].
      intros p' Hp''. rewrite Ep in Hp''. discriminate.
Qed.

Lemma copy_pages_loop todo :
  forall copied wikiIdMap newWikis w,
    NoDup (map h_id (copied ++ todo)%list) ->
    parents_precede (copied ++ todo)%list ->
    wiki_extends w0 w -> wiki_service_ok w ->
    pages_copied newOwn copied wikiIdMap w ->
    Forall (header_for oldOwn w0) todo ->
    exists wikiIdMap' newWikis' w',
      for_each todo (copy_page oldOwn newOwn destinationSubPageId)
               (wikiIdMap, newWikis) w
      = Ok (wikiIdMap', newWikis') w'
      /\ wiki_extends w0 w' /\ wiki_service_ok w'
      /\ pages_copied newOwn (copied ++ todo)%list wikiIdMap' w'.
Proof.
  induction todo as [|h todo IH];
    intros copied wikiIdMap newWikis w Hnd Hprec Hext Hok Hcopied Hfor.
  - exists wikiIdMap, newWikis, w. rewrite app_nil_r. auto.
  - inversion Hfor as [|? ? Hh Hrest]; subst.
    destruct (copy_page_step copied wikiIdMap newWikis w h Hext Hok Hcopied Hh)
      as (m1 & nw1 & w1 & Hstep & Hext1 & Hok1 & Hcopied1).
    + rewrite map_app in Hnd. cbn [map] in Hnd.
      apply NoDup_remove_2 in Hnd. intros Hin. apply Hnd.
      apply in_app_iff. now left.
    + intros p Hp. exact (Hprec copied h todo eq_refl p Hp).
    + assert (E : ((copied ++ [h]) ++ todo = copied ++ h :: todo)%list)
        by (now rewrite <- app_assoc).
      destruct (IH (copied ++ [h])%list m1 nw1 w1) as
          (m' & nw' & w' & Hloop & Hext' & Hok' & Hcopied');
        try assumption; try (now rewrite E).
      exists m', nw', w'. rewrite <- E. split; [|auto].
      cbn [for_each]. unfold bind at 1. rewrite Hstep. exact Hloop.
Qed.
End PageStep.

(** ** Header lists that name parents first *)

Section Headers.
Variable hs : list WikiHeader.
Hypothesis wf : headers_wf hs.

Lemma header_position_unique i j h h' :
  nth_error hs i = Some h -> nth_error hs j = Some h' ->
  h_id h = h_id h' -> i = j.
Proof.
  intros Hi Hj Hid. destruct wf as [Hnd _].
  apply (proj1 (NoDup_nth_error (map h_id hs)) Hnd).
  - rewrite length_map. apply nth_error_Some. congruence.
  - rewrite !nth_error_map, Hi, Hj. cbn. now rewrite Hid.
Qed.

Lemma header_unique h h' :
  In h hs -> In h' hs -> h_id h = h_id h' -> h = h'.
Proof.
  intros Hin Hin' Hid.
  apply In_nth_error in Hin, Hin'.
  destruct Hin as [i Hi], Hin' as [j Hj].
  assert (i = j) by (eapply header_position_unique; eauto). subst j.
  congruence.
Qed.

Lemma parent_position j h p :
  nth_error hs j = Some h -> h_parentId h = Some p ->
  exists i h', i < j /\ nth_error hs i = Some h' /\ h_id h' = p.
Proof.
  intros Hj Hp. destruct wf as [_ Hprec].
  destruct (nth_error_split hs j Hj) as (l1 & l2 & E & Hlen).
  pose proof (Hprec l1 h l2 E p Hp) as Hin.
  apply in_map_iff in Hin. destruct Hin as (h' & Hid & Hin).
  apply In_nth_error in Hin. destruct Hin as [i Hi].
  exists i, h'.
  assert (i < j).
  { rewrite <- Hlen. apply nth_error_Some. congruence. }
  split; [assumption|]. split; [|assumption].
  rewrite E. rewrite nth_error_app1 by lia. assumption.
Qed.

Lemma descends_position c x i j hc hx :
  descends hs c x ->
  nth_error hs i = Some hc -> h_id hc = c ->
  nth_error hs j = Some hx -> h_id hx = x ->
  i <= j.
Proof.
  intros Hd. revert j hx.
  induction Hd as [|h y Hin Hp Hd IH]; intros j hx Hi Hc Hj Hx.
  - assert (i = j) by (eapply header_position_unique; eauto; congruence).
    lia.
  - assert (hx = h).
    { apply header_unique; eauto using nth_error_In. }
    subst hx.
    destruct (parent_position j h y Hj Hp) as (k & hy & Hk & Hnth & Hy).
    specialize (IH k hy Hi Hc Hnth Hy). lia.
Qed.

Lemma descends_linear c1 c2 x :
  descends hs c1 x -> descends hs c2 x ->
  descends hs c1 c2 \/ descends hs c2 c1.
Proof.
  intros H1. revert c2.
  induction H1 as [|h y Hin Hp H1 IH]; intros c2 H2.
  - now right.
  - inversion H2 as [E|h' y' Hin' Hp' H2' E].
    + left. eapply descends_child; eassumption.
    + assert (h' = h) by (apply header_unique; auto). subst h'.
      assert (y' = y) by congruence. subst y'. now apply IH.
Qed.

Lemma descends_trans_child s hc x :
  In hc hs -> h_parentId hc = Some s ->
  descends hs (h_id hc) x -> descends hs s x.
Proof.
  intros Hin Hp Hd. induction Hd as [|h y Hin' Hp' Hd IH].
  - eapply descends_child; [eassumption|eassumption|constructor].
  - eapply descends_child; eassumption.
Qed.

(** The subtrees of two children of one page share no page. *)
Lemma siblings_disjoint s i1 i2 h1 h2 x :
  nth_error hs i1 = Some h1 -> nth_error hs i2 = Some h2 -> i1 <> i2 ->
  h_parentId h1 = Some s -> h_parentId h2 = Some s ->
  descends hs (h_id h1) x -> descends hs (h_id h2) x -> False.
Proof.
  intros Hn1 Hn2 Hne Hp1 Hp2 Hd1 Hd2.
  assert (Hup : forall ia ib ha hb,
             nth_error hs ia = Some ha -> nth_error hs ib = Some hb ->
             ia <> ib -> h_parentId ha = Some s -> h_parentId hb = Some s ->
             descends hs (h_id ha) (h_id hb) -> False).
  { intros ia ib ha hb Ha Hb Hab Hpa Hpb Hd.
    inversion Hd as [E|h y Hin Hp Hd' E].
    - apply Hab. eapply header_position_unique; eauto.
    - assert (h = hb) by (apply header_unique; eauto using nth_error_In).
      subst h. assert (y = s) by congruence. subst y.
      destruct (parent_position ia ha s Ha Hpa) as (k & hk & Hk & Hnk & Hidk).
      pose proof (descends_position _ _ ia k ha hk Hd' Ha eq_refl Hnk Hidk).
      lia. }
  destruct (descends_linear _ _ _ Hd1 Hd2) as [H|H].
  - exact (Hup i1 i2 h1 h2 Hn1 Hn2 Hne Hp1 Hp2 H).
  - exact (Hup i2 i1 h2 h1 Hn2 Hn1 (fun E => Hne (eq_sym E)) Hp2 Hp1 H).
Qed.
End Headers.

(** ** The loop of [_getSubWikiHeaders] *)

Lemma children_appended_weaken hs s j j' out :
  j <= j' -> children_appended hs s j' out -> children_appended hs s j out.
Proof.
  intros Hle (H1 & H2 & H3). split; [assumption|]. split; [assumption|].
  intros x Hx. destruct (H3 x Hx) as (Hin & i & hc & Hi & Hrest).
  split; [assumption|]. exists i, hc. split; [lia | assumption].
Qed.

Section SubCall.
Variable hs : list WikiHeader.
Hypothesis wf : headers_wf hs.
Variables (s : string) (k : nat) (hd : WikiHeader).
Hypothesis at_k : nth_error hs k = Some hd.
Hypothesis id_hd : h_id hd = s.
Variable rec : list WikiHeader -> string -> list WikiHeader
               -> option (list WikiHeader * list WikiHeader).
Hypothesis rec_spec :
  forall i hc mapping,
    k < i -> nth_error hs i = Some hc -> h_parentId hc = Some s ->
    mapping <> [] ->
    exists out,
      rec hs (h_id hc) mapping = Some (hs, (mapping ++ out)%list)
      /\ subtree_appended hs (h_id hc) hc out.

Lemma not_s_elsewhere i h :
  nth_error hs i = Some h -> i <> k -> String.eqb (h_id h) s = false.
Proof.
  intros Hi Hne. destruct (String.eqb_spec (h_id h) s) as [E|]; [|reflexivity].
  exfalso. apply Hne.
  eapply (header_position_unique hs wf); eauto. congruence.
Qed.

Lemma no_child_before i h :
  nth_error hs i = Some h -> i <= k -> h_parentId h <> Some s.
Proof.
  intros Hi Hle Hp.
  destruct (parent_position hs wf i h s Hi Hp) as (j & hj & Hj & Hnth & Hid).
  assert (j = k) by (eapply (header_position_unique hs wf); eauto; congruence).
  lia.
Qed.

Lemma skip_before l :
  (forall i, In i l -> i < k) ->
  forall rest mapping,
    subwiki_loop rec (l ++ rest)%list hs s mapping
    = subwiki_loop rec rest hs s mapping.
Proof.
  induction l as [|i l IH]; intros Hl rest mapping; [reflexivity|].
  assert (Hi : i < k) by (apply Hl; now left).
  assert (IH' := IH (fun j Hj => Hl j (or_intror Hj)) rest mapping).
  cbn [List.app subwiki_loop].
  destruct (nth_error hs i) as [h|] eqn:Eh; [|exact IH'].
  rewrite (not_s_elsewhere i h Eh) by lia. cbn [andb].
  destruct (h_parentId h) as [p|] eqn:Ep; [|exact IH'].
  destruct (String.eqb_spec p s) as [->|_]; [|exact IH'].
  exfalso. apply (no_child_before i h Eh); [lia | assumption].
Qed.

Lemma children_loop n :
  forall j mapping,
    j + n = List.length hs -> k < j -> mapping <> [] ->
    exists out,
      subwiki_loop rec (seq j n) hs s mapping
      = Some (hs, (mapping ++ out)%list)
      /\ children_appended hs s j out.
Proof.
  induction n as [|n IH]; intros j mapping Hlen Hk Hne.
  - exists []. cbn. rewrite app_nil_r. split; [reflexivity|].
    split; [|split; [constructor|intros x []]].
    intros before x after E. destruct before; discriminate.
  - cbn [seq subwiki_loop].
    destruct (nth_error hs j) as [hj|] eqn:Ej.
    2:{ apply nth_error_None in Ej. lia. }
    rewrite (not_s_elsewhere j hj Ej) by lia. cbn [andb].
    assert (Hskip : exists out,
               subwiki_loop rec (seq (S j) n) hs s mapping
               = Some (hs, (mapping ++ out)%list)
               /\ children_appended hs s j out).
    { destruct (IH (S j) mapping) as (out & Hrun & Hout); [lia|lia|assumption|].
      exists out. split; [assumption|].
      apply (children_appended_weaken hs s j (S j)); [lia|assumption]. }
    destruct (h_parentId hj) as [p|] eqn:Ep; [|exact Hskip].
    destruct (String.eqb_spec p s) as [->|_]; [|exact Hskip].
    clear Hskip.
    destruct (rec_spec j hj mapping Hk Ej Ep Hne)
      as (outc & Hrec & (tl & Etl & Hprec) & Hndc & Hbelow).
    rewrite Hrec.
    destruct (IH (S j) (mapping ++ outc)%list) as (outr & Hrun & Hpr & Hndr & Hch);
      [lia|lia| |].
    { intros E. apply app_eq_nil in E. now destruct E. }
    exists (outc ++ outr)%list. rewrite app_assoc. split; [assumption|].
    split; [|split].
    + intros before x after E. apply app_eq_event in E.
      destruct E as [(after1 & E1 & _)|(before2 & E2 & ->)].
      * rewrite Etl in E1. destruct before as [|b before].
        -- cbn in E1. inversion E1; subst x. exists s. auto.
        -- cbn in E1. inversion E1; subst b.
           destruct (Hprec before x after1 H1) as (p & Hp & Hin).
           exists p. auto.
      * destruct (Hpr before2 x after E2) as (p & Hp & [E|Hin]);
          exists p; (split; [assumption|]); [now left|].
        right. rewrite map_app, in_app_iff. now right.
    + rewrite map_app. apply NoDup_app; [assumption|assumption|].
      intros a Ha Ha'. apply in_map_iff in Ha, Ha'.
      destruct Ha as (x & <- & Hx), Ha' as (y & Hxy & Hy).
      destruct (Hbelow x Hx) as (_ & Hdx).
      destruct (Hch y Hy) as (_ & i & hc & Hi & Hnth & Hpc & Hdy).
      rewrite Hxy in Hdy.
      eapply (siblings_disjoint hs wf s j i hj hc); eauto. lia.
    + intros x Hx. apply in_app_iff in Hx. destruct Hx as [Hx|Hx].
      * destruct (Hbelow x Hx) as (Hin & Hd). split; [assumption|].
        exists j, hj. auto.
      * destruct (Hch x Hx) as (Hin & i & hc & Hi & Hrest).
        split; [assumption|]. exists i, hc. split; [lia|assumption].
Qed.

(** From the position of [s] on, once its header is in [mapping]. *)
Lemma after_own_header mapping :
  exists outr,
    subwiki_loop rec (seq (S k) (List.length hs - S k)) hs s
                 (mapping ++ [hd])%list
    = Some (hs, ((mapping ++ [hd]) ++ outr)%list)
    /\ subtree_appended hs s hd (hd :: outr).
Proof.
  assert (Hk : k < List.length hs) by (apply nth_error_Some; congruence).
  destruct (children_loop (List.length hs - S k) (S k) (mapping ++ [hd])%list)
    as (outr & Hrun & Hpr & Hnd & Hch); [lia|lia| |].
  { intros E. apply app_eq_nil in E. destruct E; discriminate. }
  exists outr. split; [assumption|]. split; [|split].
  - exists outr. split; [reflexivity|].
    intros before x after E.
    destruct (Hpr before x after E) as (p & Hp & [Es|Hin]); exists p;
      (split; [assumption|]); cbn [map In]; [left; congruence | now right].
  - cbn [map]. constructor; [|assumption].
    intros Hin. apply in_map_iff in Hin. destruct Hin as (x & Hx & Hin).
    destruct (Hch x Hin) as (Hxin & i & hc & Hi & Hnth & Hpc & Hd).
    apply In_nth_error in Hxin. destruct Hxin as [jx Hjx].
    assert (jx = k)
      by (eapply (header_position_unique hs wf); eauto; congruence).
    subst jx.
    pose proof (descends_position hs wf _ _ i k hc x Hd Hnth eq_refl Hjx
                                  eq_refl). lia.
  - intros x [<-|Hin].
    + split; [eapply nth_error_In; eassumption|]. rewrite id_hd. constructor.
    + destruct (Hch x Hin) as (Hxin & i & hc & Hi & Hnth & Hpc & Hd).
      split; [assumption|].
      apply descends_trans_child with (hc := hc);
        [eapply nth_error_In; eassumption | assumption | assumption].
Qed.

Lemma positions_split :
  seq 0 (List.length hs)
  = (seq 0 k ++ k :: seq (S k) (List.length hs - S k))%list.
Proof.
  assert (Hk : k < List.length hs) by (apply nth_error_Some; congruence).
  replace (List.length hs) with (k + S (List.length hs - S k)) at 1 by lia.
  rewrite seq_app. reflexivity.
Qed.

Lemma seq_below i : In i (seq 0 k) -> i < k.
Proof. intros H. apply in_seq in H. lia. Qed.

(** The whole loop of a call that finds [mapping] non-empty. *)
Lemma call_nonempty mapping :
  mapping <> [] ->
  exists out,
    subwiki_loop rec (seq 0 (List.length hs)) hs s mapping
    = Some (hs, (mapping ++ out)%list)
    /\ subtree_appended hs s hd out.
Proof.
  intros Hne. rewrite positions_split, (skip_before _ seq_below).
  cbn [subwiki_loop]. rewrite at_k, id_hd, String.eqb_refl. cbn [andb].
  destruct mapping as [|m0 mapping]; [contradiction|]. cbn [List.length Nat.eqb].
  destruct (after_own_header (m0 :: mapping)) as (outr & Hrun & Hpost).
  exists (hd :: outr). split; [|assumption].
  rewrite Hrun. now rewrite <- app_assoc.
Qed.
End SubCall.

Lemma sub_call fuel :
  forall hs s k hd mapping,
    headers_wf hs -> nth_error hs k = Some hd -> h_id hd = s ->
    List.length hs < fuel + k -> mapping <> [] ->
    exists out,
      _getSubWikiHeaders fuel hs s mapping = Some (hs, (mapping ++ out)%list)
      /\ subtree_appended hs s hd out.
Proof.
  induction fuel as [|fuel IH]; intros hs s k hd mapping wf Hk Hid Hlen Hne.
  - assert (k < List.length hs) by (apply nth_error_Some; congruence). lia.
  - cbn [_getSubWikiHeaders].
    apply (call_nonempty hs wf s k hd Hk Hid (_getSubWikiHeaders fuel));
      [|assumption].
    intros i hc m Hi Hnth Hp Hm.
    apply (IH hs (h_id hc) i hc m wf Hnth eq_refl); [lia|assumption].
Qed.

(** ** The header whose [parentId] is stripped *)

Lemma list_update_length {A : Type} n (x : A) l :
  List.length (list_update n x l) = List.length l.
Proof.
  revert n. induction l as [|y l IH]; intros [|n]; cbn; auto.
Qed.

Lemma list_update_nth_same {A : Type} n (x y : A) l :
  nth_error l n = Some y -> nth_error (list_update n x l) n = Some x.
Proof.
  revert n. induction l as [|z l IH]; intros [|n]; cbn; try discriminate;
    auto.
Qed.

Lemma list_update_nth_other {A : Type} n m (x : A) l :
  n <> m -> nth_error (list_update n x l) m = nth_error l m.
Proof.
  revert n m. induction l as [|z l IH]; intros [|n] [|m] Hne; cbn;
    try reflexivity; try (exfalso; lia). apply IH. lia.
Qed.

Lemma list_update_In {A : Type} n (x y : A) l :
  In y (list_update n x l) -> y = x \/ In y l.
Proof.
  revert n. induction l as [|z l IH]; intros [|n]; cbn; try tauto.
  - intros [<-|H]; auto.
  - intros [<-|H]; auto. destruct (IH n H); auto.
Qed.

Lemma pop_keeps_ids k hd hs :
  nth_error hs k = Some hd ->
  map h_id (list_update k (pop_parentId hd) hs) = map h_id hs.
Proof.
  revert k. induction hs as [|h hs IH]; intros [|k]; cbn; try discriminate.
  - intros [= ->]. reflexivity.
  - intros H. now rewrite IH.
Qed.

Lemma pop_keeps_wf k hd hs :
  headers_wf hs -> nth_error hs k = Some hd ->
  headers_wf (list_update k (pop_parentId hd) hs).
Proof.
  intros wf Hk. split.
  - rewrite (pop_keeps_ids k hd hs Hk). now destruct wf.
  - intros before h after E p Hp.
    set (hs1 := list_update k (pop_parentId hd) hs) in *.
    assert (Hj : nth_error hs1 (List.length before) = Some h).
    { rewrite E, nth_error_app2, Nat.sub_diag by lia. reflexivity. }
    destruct (Nat.eq_dec k (List.length before)) as [Ek|Ek].
    + subst hs1. rewrite <- Ek, (list_update_nth_same k _ hd hs Hk) in Hj.
      inversion Hj; subst h. discriminate Hp.
    + subst hs1. rewrite list_update_nth_other in Hj by assumption.
      destruct (parent_position hs wf _ h p Hj Hp)
        as (i & h' & Hi & Hnth & Hid).
      assert (Hin : nth_error (map h_id (list_update k (pop_parentId hd) hs)) i
                    = Some p).
      { rewrite (pop_keeps_ids k hd hs Hk), nth_error_map, Hnth. cbn.
        now rewrite Hid. }
      rewrite E, map_app, nth_error_app1 in Hin
        by (rewrite length_map; lia).
      eapply nth_error_In; eassumption.
Qed.

(** The first call: [mapping] is empty, the header of the sub-page loses its
    [parentId] and opens the result. *)
Lemma top_call fuel hs s k hd :
  headers_wf hs -> nth_error hs k = Some hd -> h_id hd = s ->
  List.length hs < fuel ->
  exists outr,
    _getSubWikiHeaders fuel hs s []
    = Some (list_update k (pop_parentId hd) hs, pop_parentId hd :: outr)
    /\ subtree_appended (list_update k (pop_parentId hd) hs) s
                        (pop_parentId hd) (pop_parentId hd :: outr).
Proof.
  intros wf Hk Hid Hlen. destruct fuel as [|fuel]; [lia|].
  cbn [_getSubWikiHeaders].
  rewrite (positions_split hs k hd Hk).
  rewrite (skip_before hs wf s k hd Hk Hid (_getSubWikiHeaders fuel)
             (seq 0 k) (seq_below k)).
  cbn [subwiki_loop]. rewrite Hk, Hid, String.eqb_refl.
  cbn [List.length Nat.eqb andb List.app].
  set (hs1 := list_update k (pop_parentId hd) hs).
  assert (wf1 : headers_wf hs1) by (now apply pop_keeps_wf).
  assert (Hk1 : nth_error hs1 k = Some (pop_parentId hd))
    by (now apply (list_update_nth_same k _ hd)).
  assert (Hlen1 : List.length hs1 = List.length hs)
    by apply list_update_length.
  destruct (after_own_header hs1 wf1 s k (pop_parentId hd) Hk1 Hid
              (_getSubWikiHeaders fuel)) with (mapping := @nil WikiHeader)
    as (outr & Hrun & Hpost).
  { intros i hc m Hi Hnth Hp Hm.
    apply (sub_call fuel hs1 (h_id hc) i hc m wf1 Hnth eq_refl); [lia|assumption]. }
  exists outr. rewrite Hlen1 in Hrun. cbn [List.app] in Hrun.
  split; assumption.
Qed.

Lemma restrict_headers_spec fuel hs subPageId :
  headers_wf hs -> In subPageId (map h_id hs) -> List.length hs < fuel ->
  exists out,
    restrict_headers fuel hs (Some subPageId) = Some out
    /\ headers_wf out
    /\ forall x, In x out ->
         (h_parentId x = None /\ In (h_id x) (map h_id hs)) \/ In x hs.
Proof.
  intros wf Hin Hlen.
  apply in_map_iff in Hin. destruct Hin as (hd & Hid & Hin).
  apply In_nth_error in Hin. destruct Hin as [k Hk].
  destruct (top_call fuel hs subPageId k hd wf Hk Hid Hlen)
    as (outr & Hrun & (tl & Etl & Hprec) & Hnd & Hbelow).
  inversion Etl; subst tl. clear Etl.
  exists (pop_parentId hd :: outr). unfold restrict_headers. rewrite Hrun.
  split; [reflexivity|]. split; [split; [assumption|]|].
  - intros before x after E p Hp.
    destruct before as [|b before]; cbn in E; inversion E; subst.
    + discriminate Hp.
    + destruct (Hprec before x after eq_refl) as (p' & Hp' & Hin').
      assert (p' = p) by congruence. subst p'. exact Hin'.
  - intros x Hx. destruct (Hbelow x Hx) as (Hxin & _).
    apply list_update_In in Hxin. destruct Hxin as [->|Hxin]; [left|now right].
    split; [reflexivity|]. cbn. apply in_map_iff. exists hd.
    split; [reflexivity|]. eapply nth_error_In; eassumption.
Qed.

(** ** Wiki copy keeps the shape of the tree *)

Lemma find_by_unique_id (ps : list WikiPage) page :
  NoDup (map wiki_id ps) -> In page ps ->
  find (fun p => String.eqb (wiki_id p) (wiki_id page)) ps = Some page.
Proof.
  induction ps as [|q ps IH]; intros Hnd Hin; [contradiction|].
  inversion Hnd as [|? ? Hnotin Hnd']; subst. cbn [find].
  destruct Hin as [->|Hin].
  - now rewrite String.eqb_refl.
  - destruct (String.eqb_spec (wiki_id q) (wiki_id page)) as [E|_].
    + exfalso. apply Hnotin. rewrite E. now apply in_map.
    + now apply IH.
Qed.

Lemma header_for_pages oldOwn w h :
  NoDup (map h_id (map header_of (pages_of (ent_id oldOwn) w))) ->
  (h_parentId h = None
   /\ In (h_id h) (map h_id (map header_of (pages_of (ent_id oldOwn) w))))
  \/ In h (map header_of (pages_of (ent_id oldOwn) w)) ->
  header_for oldOwn w h.
Proof.
  rewrite map_map. cbn [header_of h_id]. intros Hnd Hcase.
  assert (Hpage : forall page,
             In page (pages_of (ent_id oldOwn) w) ->
             find_wiki (ent_id oldOwn) (wiki_id page) w = Some page).
  { intros page Hin. unfold find_wiki. now apply find_by_unique_id. }
  destruct Hcase as [[Hnone Hin]|Hin].
  - apply in_map_iff in Hin. destruct Hin as (page & Hid & Hin).
    exists page. split; [rewrite <- Hid; now apply Hpage|].
    intros p Hp. congruence.
  - apply in_map_iff in Hin. destruct Hin as (page & <- & Hin).
    exists page. split; [now apply Hpage|]. intros p Hp. exact Hp.
Qed.


Lemma parents_precedeb_sound hs :
  forall seen,
    parents_precedeb seen hs = true ->
    forall before h after,
      hs = (before ++ h :: after)%list ->
      forall p, h_parentId h = Some p ->
                In p (map h_id before) \/ In p seen.
Proof.
  induction hs as [|h0 hs IH]; intros seen Hb before h after E p Hp.
  - destruct before; discriminate.
  - cbn [parents_precedeb] in Hb. apply andb_true_iff in Hb.
    destruct Hb as [Hh Hrest].
    destruct before as [|b before]; cbn in E; inversion E; subst.
    + right. rewrite Hp in Hh. unfold str_in in Hh.
      apply existsb_exists in Hh. destruct Hh as (x & Hx & Hpx).
      apply String.eqb_eq in Hpx. now subst x.
    + destruct (IH _ Hrest before h after eq_refl p Hp) as [Hin|[<-|Hin]].
      * left. cbn. now right.
      * left. cbn. now left.
      * now right.
Qed.

Lemma parents_precedeb_ok hs :
  parents_precedeb [] hs = true -> parents_precede hs.
Proof.
  intros Hb before h after E p Hp.
  destruct (parents_precedeb_sound hs [] Hb before h after E p Hp) as [H|[]].
  exact H.
Qed.



(** * Further properties of the copy functions *)

(** ** What the walk refuses and what it leaves alone *)

Lemma check_name_taken search name msg w :
  In name search -> check_name search name msg w = Raise (ValueError msg) w.
Proof.
  unfold check_name. induction search as [|i search IH]; simpl; intros Hin;
    [contradiction|].
  unfold bind at 1.
  destruct (String.eqb_spec i name) as [->|Hne]; [reflexivity|].
  unfold ret at 1. apply IH. destruct Hin as [E|Hin]; [contradiction|assumption].
Qed.

(** The name [name] is borne by an entity under [destinationId]. *)
Lemma name_taken_children name destinationId w e :
  In e (entities w) -> ent_parentId e = Some destinationId ->
  ent_name e = name ->
  In name (map ent_name (children_of destinationId w)).
Proof.
  intros Hin Hp <-. apply in_map. apply children_of_in. now split.
Qed.

(** X1: an entity whose kind is listed in [excludeTypes] is left alone: the
    walk does not look at the destination, creates nothing, leaves the
    mapping as it was and only reports the entity as not copied. *)
Theorem excluded_kind_is_left_alone :
  forall fuel entity destinationId mapping kwargs ent w,
    find_entity entity w = Some ent ->
    forallb (fun i => str_in i allowed_excludeTypes) (excludeTypes kwargs)
    = true ->
    excluded kwargs ent ->
    _copyRecursive (S fuel) entity destinationId mapping kwargs w
    = Ok mapping (add_stdout (entity ++ " not copied") w).
Proof.
  intros fuel entity destinationId mapping kwargs ent w Hfind Hvalid Hex.
  pose proof (find_entity_id _ _ _ Hfind) as Hid.
  cbn [_copyRecursive]. rewrite Hvalid. cbn [negb]. unfold bind at 1.
  rewrite (syn_get_plain _ None _ _ Hfind (or_introl eq_refl)).
  destruct Hex as [[Ht Hx]|[[Ht Hx]|[Ht Hx]]]; rewrite Ht, Hx; cbn [negb];
    unfold report, bind, print, ret; rewrite Hid; reflexivity.
Qed.

Lemma excluded_kind_is_left_alone_witness :
  _copyRecursive 1 "syn3" "syn9" []
    (mkKwargs None false (Some "traceback") ["file"] true true None None [])
    sample_world
  = Ok [] (add_stdout "syn3 not copied" sample_world).
Proof.
  apply (excluded_kind_is_left_alone 0 "syn3" "syn9" []
           (mkKwargs None false (Some "traceback") ["file"] true true None
                     None [])
           (sample_file "syn3" "data.txt" "syn2" "100" "u2") sample_world).
  - reflexivity.
  - reflexivity.
  - left. split; reflexivity.
Defined.

(** X2: when the destination already holds an entity of the name of the
    source, the Folder, File (without [update]) and Link copiers raise the
    ValueError of their kind before anything is created; for a File the
    check precedes that of [setProvenance], for a Link the error is raised
    outside the handler that tolerates a missing target. *)
Theorem name_taken_at_destination_is_refused :
  forall entity destinationId ent other w,
    find_entity entity w = Some ent ->
    In other (entities w) ->
    ent_parentId other = Some destinationId ->
    ent_name other = ent_name ent ->
    (forall rec mapping kwargs,
        ent_type ent = Folder ->
        _copyFolder rec entity destinationId mapping kwargs w
        = Raise (ValueError (already_exists "Folder" (ent_name ent))) w)
    /\ (forall version setProvenance,
           version_held version ent ->
           _copyFile entity destinationId version false setProvenance w
           = Raise (ValueError (already_exists "File" (ent_name ent))) w)
    /\ (ent_type ent = Link ->
        _copyLink entity destinationId w
        = Raise (ValueError (already_exists "Link" (ent_name ent))) w).
Proof.
  intros entity destinationId ent other w Hfind Hin Hparent Hname.
  pose proof (name_taken_children _ _ _ _ Hin Hparent Hname) as Htaken.
  split; [|split].
  - intros rec mapping kwargs Ht.
    assert (Hnf : ent_type ent <> File) by (rewrite Ht; discriminate).
    unfold _copyFolder. unfold bind at 1.
    rewrite (syn_get_not_file _ _ _ _ Hfind Hnf).
    unfold bind at 1. unfold syn_query_names. unfold bind at 1.
    now rewrite check_name_taken.
  - intros version setProvenance Hv.
    unfold _copyFile. unfold bind at 1.
    rewrite (syn_get_plain _ _ _ _ Hfind Hv).
    cbn [negb]. unfold bind at 1. unfold bind at 1.
    unfold syn_query_names.
    now rewrite check_name_taken.
  - intros Ht.
    assert (Hnf : ent_type ent <> File) by (rewrite Ht; discriminate).
    unfold _copyLink. unfold bind at 1.
    rewrite (syn_get_not_file _ _ _ _ Hfind Hnf).
    unfold bind at 1. unfold syn_query_names. unfold bind at 1.
    now rewrite check_name_taken.
Qed.

Lemma name_taken_at_destination_is_refused_witness :
  _copyFile "syn3" "syn2" None false (Some "bogus") sample_world
  = Raise (ValueError (already_exists "File" "data.txt")) sample_world.
Proof.
  destruct (name_taken_at_destination_is_refused "syn3" "syn2"
              (sample_file "syn3" "data.txt" "syn2" "100" "u2")
              (sample_file "syn3" "data.txt" "syn2" "100" "u2") sample_world)
    as (_ & Hfile & _).
  - reflexivity.
  - simpl. auto.
  - reflexivity.
  - reflexivity.
  - apply (Hfile None (Some "bogus")). now left.
Defined.

(** X3: the walk refuses an entity of a kind it does not know before it
    touches anything, and a Project whose destination is not a Project
    before it writes to the mapping or creates anything; fetching that
    destination downloads nothing unless it is a File. *)
Theorem walk_refuses_by_type :
  forall fuel entity destinationId mapping kwargs ent w,
    find_entity entity w = Some ent ->
    forallb (fun i => str_in i allowed_excludeTypes) (excludeTypes kwargs)
    = true ->
    (ent_type ent = OtherType ->
     _copyRecursive (S fuel) entity destinationId mapping kwargs w
     = Raise (ValueError unsupported_type_message) w)
    /\ (forall dest,
           ent_type ent = Project -> version kwargs = None ->
           find_entity destinationId w = Some dest ->
           ent_type dest <> Project ->
           exists w',
             _copyRecursive (S fuel) entity destinationId mapping kwargs w
             = Raise (ValueError project_destination_message) w'
             /\ entities w' = entities w /\ stdout w' = stdout w
             /\ (ent_type dest <> File -> w' = w)).
Proof.
  intros fuel entity destinationId mapping kwargs ent w Hfind Hvalid.
  split.
  - intros Ht. cbn [_copyRecursive]. rewrite Hvalid. cbn [negb].
    unfold bind at 1.
    rewrite (syn_get_plain _ None _ _ Hfind (or_introl eq_refl)).
    rewrite Ht. reflexivity.
  - intros dest Ht Hver Hdest Hnp.
    cbn [_copyRecursive]. rewrite Hvalid. cbn [negb]. unfold bind at 1.
    rewrite (syn_get_plain _ None _ _ Hfind (or_introl eq_refl)).
    rewrite Ht, Hver. unfold bind at 1. unfold syn_get. rewrite Hdest.
    destruct (ent_type dest) eqn:Etd; try contradiction;
      destruct (ent_dataFileHandleId dest), (ent_externalURL dest);
      cbn; try rewrite Etd; cbn;
      eexists; (split; [reflexivity|]); cbn; repeat split;
      try reflexivity; intros; congruence.
Qed.

Lemma walk_refuses_by_type_witness :
  exists w',
    _copyRecursive 1 "syn1" "syn2" [] default_kwargs sample_world
    = Raise (ValueError project_destination_message) w'
    /\ entities w' = entities sample_world
    /\ stdout w' = stdout sample_world.
Proof.
  destruct (walk_refuses_by_type 0 "syn1" "syn2" [] default_kwargs
              (sample_entity "syn1" Project "study" None) sample_world)
    as (_ & Hproject); [reflexivity|reflexivity|].
  destruct (Hproject (sample_entity "syn2" Folder "raw" (Some "syn1")))
    as (w' & Hrun & He & Hs & _);
    [reflexivity|reflexivity|reflexivity|discriminate|].
  exists w'. auto.
Defined.

(** X4: an entity that has no wiki is passed over: [copyWiki] answers
    [no wiki] whatever its options are, without looking at the destination
    and without touching the service or printing. *)
Theorem copyWiki_without_wiki_is_noop :
  forall fuel entity destinationId entitySubPageId destinationSubPageId
         updateLinks updateSynIds entityMap ent w,
    find_entity entity w = Some ent ->
    pages_of entity w = [] ->
    copyWiki fuel entity destinationId entitySubPageId destinationSubPageId
             updateLinks updateSynIds entityMap w
    = Ok NoWiki w.
Proof.
  intros fuel entity destinationId entitySubPageId destinationSubPageId
         updateLinks updateSynIds entityMap ent w Hfind Hpages.
  pose proof (find_entity_id _ _ _ Hfind) as Hid.
  unfold copyWiki. unfold bind at 1.
  rewrite (syn_get_plain _ None _ _ Hfind (or_introl eq_refl)).
  unfold bind at 1. unfold except_SynapseHTTPError, bind, syn_getWikiHeaders.
  rewrite Hid, Hpages. reflexivity.
Qed.

Lemma copyWiki_without_wiki_is_noop_witness :
  copyWiki 0 "syn2" "syn404" (Some "6") (Some "7") true true None sample_world
  = Ok NoWiki sample_world.
Proof.
  apply (copyWiki_without_wiki_is_noop 0 "syn2" "syn404" (Some "6") (Some "7")
           true true None (sample_entity "syn2" Folder "raw" (Some "syn1"))
           sample_world); reflexivity.
Defined.

(** ** The provenance of a copied file *)

Lemma store_file_keeps_provenance obj w :
  match store_file obj w with
  | Ok _ w1 => provenance w1 = provenance w
  | _ => True
  end.
Proof.
  unfold store_file.
  destruct (ent_type obj), (ent_path obj), (ent_dataFileHandleId obj),
    (ent_synapseStore obj); reflexivity.
Qed.

Lemma store_new_file_provenance obj act destinationId w :
  ent_type obj = File -> ent_parentId obj = Some destinationId ->
  name_free (ent_name obj) destinationId w ->
  exists newId w',
    (new_ent <- match act with
                | Some a => syn_store obj (Some a)
                | None => syn_store obj None
                end ;; ret (ent_id new_ent)) w
    = Ok newId w'
    /\ provenance w' = provenance_with newId act w.
Proof.
  intros Ht Hp Hfree.
  destruct (syn_store_file_new obj act destinationId w Ht Hp Hfree)
    as (obj1 & w1 & Hsf & Hstore).
  pose proof (store_file_keeps_provenance obj w) as Hprov.
  rewrite Hsf in Hprov.
  eexists. eexists. split.
  - assert (E : match act with
                | Some a => syn_store obj (Some a)
                | None => syn_store obj None
                end = syn_store obj act) by (destruct act; reflexivity).
    rewrite E. unfold bind. rewrite Hstore. reflexivity.
  - unfold provenance_with. destruct act; cbn; now rewrite Hprov.
Qed.

Lemma copyFile_run_provenance entity destinationId version update
      setProvenance ent h act w :
  find_entity entity w = Some ent ->
  ent_type ent = File ->
  version_held version ent ->
  name_free (ent_name ent) destinationId w ->
  ent_dataFileHandleId ent = Some h ->
  resolve_provenance setProvenance ent w = Ok act w ->
  exists newId w',
    _copyFile entity destinationId version update setProvenance w
    = Ok newId w'
    /\ provenance w' = provenance_with newId act w.
Proof.
  intros Hfind Htype Hver Hfree Hh Hact.
  pose proof (find_entity_id _ _ _ Hfind) as Hid.
  unfold _copyFile. unfold bind at 1. rewrite (syn_get_plain _ _ _ _ Hfind Hver).
  unfold bind at 1.
  assert (Hcheck :
    (if negb update
     then search <- syn_query_names destinationId;;
          check_name search (ent_name ent) (already_exists "File" (ent_name ent))
     else ret tt) w = Ok tt w).
  { destruct update; simpl; [reflexivity|].
    unfold bind, syn_query_names. apply check_name_ok.
    now apply name_free_children. }
  rewrite Hcheck. unfold bind at 1. unfold syn_getUserProfile at 1.
  unfold bind at 1. rewrite Hact. unfold bind at 1.
  unfold syn_restGET_filehandles. rewrite Hid, Hfind, Nat.eqb_refl. rewrite Hh.
  unfold bind at 1. unfold new_file.
  destruct (opt_eqb (Some (ownerId w))
                    (createdBy_of (ent_fileHandles ent) (Some h))).
  - unfold ret at 1. cbn [fst snd].
    apply (store_new_file_provenance
             (set_ent_annotations (ent_annotations ent)
                (set_ent_dataFileHandleId (ent_dataFileHandleId ent)
                   (new_entity File (ent_name ent) (Some destinationId))))
             act destinationId w eq_refl eq_refl Hfree).
  - destruct (ent_externalURL ent) as [url|] eqn:Eurl.
    + unfold bind at 1. rewrite (syn_get_plain _ _ _ _ Hfind Hver).
      unfold ret at 1. cbn [fst snd]. rewrite Eurl.
      apply (store_new_file_provenance
               (set_ent_annotations (ent_annotations ent)
                  (set_ent_path (Some url) false
                     (new_entity File (ent_name ent) (Some destinationId))))
               act destinationId w eq_refl eq_refl Hfree).
    + assert (Hget : syn_get entity version true w
                     = Ok (set_ent_path (Some (cache_path h))
                                        (ent_synapseStore ent) ent)
                          (add_transfer (Download h) w)).
      { unfold syn_get. rewrite Hfind.
        assert (Hv : match version with
                     | Some v => negb (Nat.eqb v (ent_versionNumber ent))
                     | None => false
                     end = false).
        { destruct Hver as [->| ->]; [reflexivity|].
          now rewrite Nat.eqb_refl. }
        rewrite Hv, Htype, Hh, Eurl. reflexivity. }
      unfold bind at 1. rewrite Hget. unfold ret at 1. cbn [fst snd].
      apply (store_new_file_provenance
               (set_ent_annotations (ent_annotations ent)
                  (set_ent_path (Some (cache_path h)) true
                     (new_entity File (ent_name ent) (Some destinationId))))
               act destinationId (add_transfer (Download h) w)
               eq_refl eq_refl Hfree).
Qed.

(** X5: the activity a copied file is stored with follows [setProvenance]:
    [traceback] records the activity [Copied file] that used the source,
    [existing] records the activity of the source when the service has one
    and none otherwise (the 404 is swallowed), and [None] or the word
    [none], in any case of letters, records nothing. *)
Theorem copyFile_provenance_follows_setProvenance :
  forall entity destinationId version update ent h w,
    find_entity entity w = Some ent ->
    ent_type ent = File ->
    version_held version ent ->
    name_free (ent_name ent) destinationId w ->
    ent_dataFileHandleId ent = Some h ->
    (exists newId w',
        _copyFile entity destinationId version update (Some "traceback") w
        = Ok newId w'
        /\ provenance w'
           = dict_set newId (mkActivity "Copied file" [entity])
                      (provenance w))
    /\ (exists newId w',
           _copyFile entity destinationId version update (Some "existing") w
           = Ok newId w'
           /\ provenance w'
              = provenance_with newId (dict_get entity (provenance w)) w)
    /\ (forall setProvenance,
           setProvenance = None
           \/ (exists s, setProvenance = Some s /\ lower s = "none") ->
           exists newId w',
             _copyFile entity destinationId version update setProvenance w
             = Ok newId w'
             /\ provenance w' = provenance w).
Proof.
  intros entity destinationId version update ent h w
         Hfind Htype Hver Hfree Hh.
  pose proof (find_entity_id _ _ _ Hfind) as Hid.
  split; [|split].
  - destruct (copyFile_run_provenance entity destinationId version update
                (Some "traceback") ent h
                (Some (mkActivity "Copied file" [entity])) w)
      as (newId & w' & Hrun & Hprov); try assumption.
    + unfold resolve_provenance. cbn. now rewrite Hid.
    + exists newId, w'. split; assumption.
  - apply (copyFile_run_provenance entity destinationId version update
             (Some "existing") ent h (dict_get entity (provenance w)) w);
      try assumption.
    unfold resolve_provenance. cbn.
    unfold except_SynapseHTTPError, bind, syn_getProvenance, ret.
    rewrite Hid. destruct (dict_get entity (provenance w)); reflexivity.
  - intros setProvenance Hnone.
    apply (copyFile_run_provenance entity destinationId version update
             setProvenance ent h None w); try assumption.
    unfold resolve_provenance.
    destruct Hnone as [->|(s & -> & Hs)]; [reflexivity|].
    destruct (opt_eqb (Some s) (Some "traceback")) eqn:E1.
    { apply opt_eqb_eq in E1. inversion E1; subst s. discriminate Hs. }
    destruct (opt_eqb (Some s) (Some "existing")) eqn:E2.
    { apply opt_eqb_eq in E2. inversion E2; subst s. discriminate Hs. }
    rewrite Hs. reflexivity.
Qed.

Lemma copyFile_provenance_follows_setProvenance_witness :
  (exists newId w',
      _copyFile "syn3" "syn9" None false (Some "traceback") sample_world
      = Ok newId w'
      /\ provenance w'
         = dict_set newId (mkActivity "Copied file" ["syn3"])
                    (provenance sample_world))
  /\ exists newId w',
      _copyFile "syn3" "syn9" None false (Some "NoNe") sample_world
      = Ok newId w'
      /\ provenance w' = provenance sample_world.
Proof.
  destruct (copyFile_provenance_follows_setProvenance "syn3" "syn9" None false
              (sample_file "syn3" "data.txt" "syn2" "100" "u2") "100"
              sample_world)
    as (Htrace & _ & Hnone).
  - reflexivity.
  - reflexivity.
  - now left.
  - intros e Hin Hp. simpl in Hin.
    repeat (destruct Hin as [<-|Hin]; [discriminate Hp|]). destruct Hin.
  - reflexivity.
  - split; [exact Htrace|].
    apply (Hnone (Some "NoNe")). right. exists "NoNe". split; reflexivity.
Defined.

(** ** The Table copier *)

Lemma syn_store_new_plain obj act destinationId w :
  ent_type obj <> File -> ent_type obj <> Link ->
  ent_parentId obj = Some destinationId ->
  name_free (ent_name obj) destinationId w ->
  syn_store obj act w
  = Ok (stamp ("syn" ++ str_of_nat (counter w)) 1 obj)
       (record_activity ("syn" ++ str_of_nat (counter w)) act
          (set_counter (S (counter w))
             (set_entities
                (entities w
                 ++ [stamp ("syn" ++ str_of_nat (counter w)) 1 obj])%list
                w))).
Proof.
  intros Hnf Hnl Hp Hfree. unfold syn_store.
  assert (Hl : EntityType_eqb (ent_type obj) Link = false)
    by (destruct (ent_type obj); try reflexivity; contradiction).
  rewrite Hl. cbn [andb].
  assert (Hsf : store_file obj w = Ok obj w).
  { unfold store_file. destruct (ent_type obj); try reflexivity.
    contradiction. }
  rewrite Hsf.
  assert (Hnone : (if String.eqb (ent_name obj) ""
                   then None else find (same_place obj) (entities w))
                  = None).
  { destruct (String.eqb (ent_name obj) ""); [reflexivity|].
    apply find_none_iff. intros e He.
    unfold same_place. rewrite Hp.
    destruct (opt_eqb (Some destinationId) (ent_parentId e)) eqn:E1;
      [|reflexivity].
    apply opt_eqb_eq in E1. cbn [andb].
    destruct (String.eqb_spec (ent_name obj) (ent_name e)) as [E2|];
      [|reflexivity].
    exfalso. now apply (Hfree e He). }
  rewrite Hnone. reflexivity.
Qed.

Lemma copyTable_run entity destinationId setAnnotations ent w :
  find_entity entity w = Some ent ->
  ent_type ent = Schema ->
  ent_name ent <> "" ->
  name_free (ent_name ent) destinationId w ->
  exists new_ent w',
    _copyTable entity destinationId setAnnotations w = Ok (ent_id new_ent) w'
    /\ entities w' = (entities w ++ [new_ent])%list
    /\ ent_type new_ent = Schema
    /\ ent_parentId new_ent = Some destinationId
    /\ ent_name new_ent = ent_name ent
    /\ ent_columnIds new_ent = ent_columnIds ent
    /\ ent_rows new_ent = ent_rows ent
    /\ ent_annotations new_ent
       = (if setAnnotations then ent_annotations ent else []).
Proof.
  intros Hfind Htype Hname Hfree.
  pose proof (find_entity_id _ _ _ Hfind) as Hid.
  assert (Hnf : ent_type ent <> File) by (rewrite Htype; discriminate).
  assert (Hne : String.eqb (ent_name ent) "" = false)
    by (now apply String.eqb_neq).
  unfold _copyTable. unfold bind at 1. unfold print at 1.
  unfold bind at 1.
  assert (Hget : syn_get entity None true
                         (add_stdout ("Getting table " ++ entity) w)
                 = Ok ent (add_stdout ("Getting table " ++ entity) w))
    by (now apply syn_get_not_file).
  rewrite Hget. unfold bind at 1. unfold syn_query_table_names at 1.
  unfold bind at 1.
  rewrite check_name_ok.
  2:{ intros i Hi. apply in_map_iff in Hi. destruct Hi as (e & <- & He).
      apply filter_In in He. destruct He as [He _].
      apply children_of_in in He. destruct He as [He Hp].
      now apply Hfree. }
  unfold bind at 1. unfold syn_tableQuery at 1. rewrite Hid.
  assert (Hfind' : find_entity entity
                     (add_stdout ("Getting table " ++ entity) w) = Some ent)
    by exact Hfind.
  rewrite Hfind'.
  set (schema0 := set_ent_columns (ent_columnIds ent) []
                    (new_entity Schema (ent_name ent) (Some destinationId))).
  set (schema := if setAnnotations
                 then set_ent_annotations (ent_annotations ent) schema0
                 else schema0).
  assert (Hs : ent_type schema = Schema
               /\ ent_parentId schema = Some destinationId
               /\ ent_name schema = ent_name ent
               /\ ent_columnIds schema = ent_columnIds ent
               /\ ent_rows schema = []
               /\ ent_annotations schema
                  = (if setAnnotations then ent_annotations ent else []))
    by (subst schema schema0; destruct setAnnotations; cbn; auto 10).
  destruct Hs as (Hst & Hsp & Hsn & Hsc & Hsr & Hsa).
  destruct (ent_rows ent) as [|row rows] eqn:Erows; cbn [List.length Nat.ltb Nat.leb].
  - unfold bind at 1. unfold print at 1. unfold bind at 1.
    rewrite (syn_store_new_plain schema None destinationId);
      [| rewrite Hst; discriminate | rewrite Hst; discriminate | assumption
       | rewrite Hsn; exact Hfree ].
    eexists. eexists. split; [reflexivity|].
    cbn [record_activity entities set_counter set_entities add_stdout stamp
         ent_type ent_parentId ent_name ent_columnIds ent_rows
         ent_annotations].
    rewrite Hsn, Hne, Hst, Hsp, Hsc, Hsr, Hsa. auto 10.
  - unfold bind at 1. unfold print at 1. unfold bind at 1.
    rewrite (syn_store_new_plain
               (set_ent_columns (ent_columnIds ent) (row :: rows) schema)
               None destinationId);
      [| cbn; rewrite Hst; discriminate | cbn; rewrite Hst; discriminate
       | cbn; assumption | cbn; rewrite Hsn; exact Hfree ].
    eexists. eexists. split; [reflexivity|].
    cbn [record_activity entities set_counter set_entities add_stdout stamp
         set_ent_columns ent_type ent_parentId ent_name ent_columnIds
         ent_rows ent_annotations].
    rewrite Hsn, Hne, Hst, Hsp, Hsa. auto 10.
Qed.

(** X6: a copied table keeps the name, the columns and the rows of the
    source and lies under the destination, and it takes the annotations of
    the source only when [setAnnotations] is set; the walk never sets it, so
    a table copied by [copy] has no annotations. *)
Theorem copyTable_keeps_columns_and_rows :
  forall entity destinationId ent w,
    find_entity entity w = Some ent ->
    ent_type ent = Schema ->
    ent_name ent <> "" ->
    name_free (ent_name ent) destinationId w ->
    (forall setAnnotations,
        exists new_ent w',
          _copyTable entity destinationId setAnnotations w
          = Ok (ent_id new_ent) w'
          /\ entities w' = (entities w ++ [new_ent])%list
          /\ ent_type new_ent = Schema
          /\ ent_parentId new_ent = Some destinationId
          /\ ent_name new_ent = ent_name ent
          /\ ent_columnIds new_ent = ent_columnIds ent
          /\ ent_rows new_ent = ent_rows ent
          /\ ent_annotations new_ent
             = (if setAnnotations then ent_annotations ent else []))
    /\ (forall fuel mapping kwargs,
           forallb (fun i => str_in i allowed_excludeTypes)
                   (excludeTypes kwargs) = true ->
           str_in "table" (excludeTypes kwargs) = false ->
           exists new_ent w',
             _copyRecursive (S fuel) entity destinationId mapping kwargs w
             = Ok (dict_set entity (ent_id new_ent) mapping) w'
             /\ entities w' = (entities w ++ [new_ent])%list
             /\ ent_columnIds new_ent = ent_columnIds ent
             /\ ent_annotations new_ent = []).
Proof.
  intros entity destinationId ent w Hfind Htype Hname Hfree.
  split.
  - intros setAnnotations. now apply copyTable_run.
  - intros fuel mapping kwargs Hvalid Hex.
    pose proof (find_entity_id _ _ _ Hfind) as Hid.
    destruct (copyTable_run entity destinationId false ent w
                Hfind Htype Hname Hfree)
      as (new_ent & w' & Hrun & Hents & _ & _ & _ & Hcols & _ & Hann).
    exists new_ent. eexists.
    cbn [_copyRecursive]. rewrite Hvalid. cbn [negb]. unfold bind at 1.
    rewrite (syn_get_plain _ None _ _ Hfind (or_introl eq_refl)).
    rewrite Htype, Hex. cbn [negb]. unfold bind at 1. rewrite Hid, Hrun.
    unfold report, bind, print, ret. rewrite Hid.
    split; [reflexivity|]. cbn [entities add_stdout]. auto.
Qed.

Lemma copyTable_keeps_columns_and_rows_witness :
  exists new_ent w',
    _copyRecursive 1 "syn6" "syn9" [] default_kwargs table_world
    = Ok [("syn6", ent_id new_ent)] w'
    /\ entities w' = (entities table_world ++ [new_ent])%list
    /\ ent_columnIds new_ent = ["c1"; "c2"]
    /\ ent_annotations new_ent = [].
Proof.
  destruct (copyTable_keeps_columns_and_rows "syn6" "syn9" sample_table
              table_world) as (_ & Hwalk).
  - reflexivity.
  - reflexivity.
  - discriminate.
  - intros e Hin Hp. simpl in Hin.
    repeat (destruct Hin as [<-|Hin]; [discriminate Hp|]). destruct Hin.
  - apply (Hwalk 0 [] default_kwargs); reflexivity.
Defined.

(** ** The headers below a sub-page *)

Section Below.
Variable hs : list WikiHeader.
Hypothesis wf : headers_wf hs.

(** A page below [s] is [s] or lies below a child of [s]. *)
Lemma descends_via_child s x :
  descends hs s x ->
  x = s
  \/ exists hc, In hc hs /\ h_parentId hc = Some s
                /\ descends hs (h_id hc) x.
Proof.
  intros Hd. induction Hd as [|h y Hin Hp Hd IH]; [now left|].
  right. destruct IH as [->|(hc & Hc & Hpc & Hdc)].
  - exists h. split; [assumption|]. split; [assumption|constructor].
  - exists hc. split; [assumption|]. split; [assumption|].
    eapply descends_child; eassumption.
Qed.

(** Nothing but [s] itself lies both below [s] and on [s]. *)
Lemma descends_not_above s hd k h y :
  nth_error hs k = Some hd -> h_id hd = s ->
  In h hs -> h_parentId h = Some y -> descends hs s y -> h_id h <> s.
Proof.
  intros Hk Hid Hin Hp Hd E.
  assert (h = hd).
  { apply (header_unique hs wf); [assumption| |congruence].
    eapply nth_error_In; eassumption. }
  subst h.
  destruct (parent_position hs wf k hd y Hk Hp) as (i & hy & Hi & Hnth & Hy).
  pose proof (descends_position hs wf s y k i hd hy Hd Hk Hid Hnth Hy). lia.
Qed.
End Below.

(** Stripping the [parentId] of the header of [s] changes nothing below
    [s]. *)
Lemma descends_pop hs s k hd x :
  headers_wf hs -> nth_error hs k = Some hd -> h_id hd = s ->
  descends hs s x <-> descends (list_update k (pop_parentId hd) hs) s x.
Proof.
  intros wf Hk Hid. split; intros Hd.
  - induction Hd as [|h y Hin Hp Hd IH]; [constructor|].
    assert (Hne : h_id h <> s)
      by (eapply (descends_not_above hs wf); eassumption).
    eapply descends_child; [|eassumption|assumption].
    apply In_nth_error in Hin. destruct Hin as [j Hj].
    assert (k <> j).
    { intros ->. rewrite Hk in Hj. inversion Hj; subst h. now apply Hne. }
    apply nth_error_In with (n := j).
    now rewrite list_update_nth_other.
  - induction Hd as [|h y Hin Hp Hd IH]; [constructor|].
    apply list_update_In in Hin. destruct Hin as [->|Hin];
      [discriminate Hp|].
    eapply descends_child; eassumption.
Qed.

Section SubComplete.
Variable hs : list WikiHeader.
Hypothesis wf : headers_wf hs.
Variables (s : string) (k : nat) (hd : WikiHeader).
Hypothesis at_k : nth_error hs k = Some hd.
Hypothesis id_hd : h_id hd = s.
Variable rec : list WikiHeader -> string -> list WikiHeader
               -> option (list WikiHeader * list WikiHeader).
Hypothesis rec_spec :
  forall i hc mapping,
    k < i -> nth_error hs i = Some hc -> h_parentId hc = Some s ->
    mapping <> [] ->
    exists out,
      rec hs (h_id hc) mapping = Some (hs, (mapping ++ out)%list)
      /\ subtree_appended hs (h_id hc) hc out.
Hypothesis rec_complete :
  forall i hc mapping out,
    k < i -> nth_error hs i = Some hc -> h_parentId hc = Some s ->
    mapping <> [] ->
    rec hs (h_id hc) mapping = Some (hs, (mapping ++ out)%list) ->
    forall x, In x hs -> descends hs (h_id hc) (h_id x) -> In x out.

(** The loop appends the whole subtree of every child of [s] it passes. *)
Lemma children_loop_complete n :
  forall j mapping out,
    j + n = List.length hs -> k < j -> mapping <> [] ->
    subwiki_loop rec (seq j n) hs s mapping
    = Some (hs, (mapping ++ out)%list) ->
    forall i hc x,
      j <= i -> nth_error hs i = Some hc -> h_parentId hc = Some s ->
      In x hs -> descends hs (h_id hc) (h_id x) -> In x out.
Proof.
  induction n as [|n IH]; intros j mapping out Hlen Hk Hne Hrun i hc x
                                 Hi Hnth Hpc Hx Hd.
  - exfalso. assert (i < List.length hs) by (apply nth_error_Some; congruence).
    lia.
  - cbn [seq subwiki_loop] in Hrun.
    destruct (nth_error hs j) as [hj|] eqn:Ej.
    2:{ apply nth_error_None in Ej. lia. }
    rewrite (not_s_elsewhere hs wf s k hd at_k id_hd j hj Ej) in Hrun by lia.
    cbn [andb] in Hrun.
    assert (Hskip :
              subwiki_loop rec (seq (S j) n) hs s mapping
              = Some (hs, (mapping ++ out)%list) ->
              h_parentId hj <> Some s -> In x out).
    { intros Hrun' Hnp.
      apply (IH (S j) mapping out) with (i := i) (hc := hc);
        try assumption; try lia.
      destruct (Nat.eq_dec i j) as [->|]; [|lia].
      rewrite Ej in Hnth. inversion Hnth; subst hc. contradiction. }
    destruct (h_parentId hj) as [p|] eqn:Ep;
      [|apply Hskip; [assumption|discriminate]].
    destruct (String.eqb_spec p s) as [->|Hps];
      [|apply Hskip; [assumption|congruence]].
    clear Hskip.
    destruct (rec_spec j hj mapping Hk Ej Ep Hne) as (outc & Hrec & _).
    rewrite Hrec in Hrun.
    assert (Hne' : (mapping ++ outc)%list <> []).
    { intros E. apply app_eq_nil in E. now destruct E. }
    destruct (children_loop hs wf s k hd at_k id_hd rec rec_spec n (S j)
                (mapping ++ outc)%list) as (outr & Hrun' & _);
      [lia|lia|assumption|].
    assert (Eout : out = (outc ++ outr)%list).
    { rewrite Hrun' in Hrun. inversion Hrun as [E].
      rewrite <- app_assoc in E. now apply app_inv_head in E. }
    rewrite Eout. apply in_app_iff.
    destruct (Nat.eq_dec i j) as [->|Hij].
    + left. rewrite Ej in Hnth. inversion Hnth; subst hc.
      now apply (rec_complete j hj mapping outc Hk Ej Ep Hne Hrec).
    + right.
      apply (IH (S j) (mapping ++ outc)%list outr) with (i := i) (hc := hc);
        try assumption; lia.
Qed.

(** A call that finds [mapping] non-empty appends every header below
    [s]. *)
Lemma call_complete mapping out :
  mapping <> [] ->
  subwiki_loop rec (seq 0 (List.length hs)) hs s mapping
  = Some (hs, (mapping ++ out)%list) ->
  forall x, In x hs -> descends hs s (h_id x) -> In x out.
Proof.
  intros Hne Hrun x Hx Hd.
  rewrite (positions_split hs k hd at_k) in Hrun.
  rewrite (skip_before hs wf s k hd at_k id_hd rec (seq 0 k) (seq_below k))
    in Hrun.
  cbn [subwiki_loop] in Hrun. rewrite at_k, id_hd, String.eqb_refl in Hrun.
  cbn [andb] in Hrun.
  destruct mapping as [|m0 mapping]; [contradiction|].
  cbn [List.length Nat.eqb] in Hrun.
  destruct (after_own_header hs wf s k hd at_k id_hd rec rec_spec
              (m0 :: mapping)) as (outr & Hrun' & _).
  assert (Eout : out = hd :: outr).
  { rewrite Hrun' in Hrun. inversion Hrun as [E].
    rewrite <- app_assoc in E. now apply app_inv_head in E. }
  rewrite Eout.
  destruct (descends_via_child hs s (h_id x) Hd) as [E|(hc & Hc & Hpc & Hdc)].
  - left. apply (header_unique hs wf); [|assumption|congruence].
    eapply nth_error_In; eassumption.
  - right. apply In_nth_error in Hc. destruct Hc as [i Hi].
    assert (Hki : k < i).
    { destruct (Nat.le_gt_cases i k) as [Hle|]; [|assumption].
      exfalso.
      exact (no_child_before hs wf s k hd at_k id_hd i hc Hi Hle Hpc). }
    assert (Hk : k < List.length hs) by (apply nth_error_Some; congruence).
    apply (children_loop_complete (List.length hs - S k) (S k)
             ((m0 :: mapping) ++ [hd])%list outr)
      with (i := i) (hc := hc); try assumption; try lia.
    intros E. apply app_eq_nil in E. destruct E; discriminate.
Qed.
End SubComplete.

Lemma sub_call_complete fuel :
  forall hs s k hd mapping out,
    headers_wf hs -> nth_error hs k = Some hd -> h_id hd = s ->
    List.length hs < fuel + k -> mapping <> [] ->
    _getSubWikiHeaders fuel hs s mapping = Some (hs, (mapping ++ out)%list) ->
    forall x, In x hs -> descends hs s (h_id x) -> In x out.
Proof.
  induction fuel as [|fuel IH];
    intros hs s k hd mapping out wf Hk Hid Hlen Hne Hrun.
  - assert (k < List.length hs) by (apply nth_error_Some; congruence). lia.
  - cbn [_getSubWikiHeaders] in Hrun.
    apply (call_complete hs wf s k hd Hk Hid (_getSubWikiHeaders fuel))
      with (mapping := mapping); try assumption.
    + intros i hc m Hi Hnth Hp Hm.
      apply (sub_call fuel hs (h_id hc) i hc m wf Hnth eq_refl);
        [lia|assumption].
    + intros i hc m o Hi Hnth Hp Hm Hrec.
      apply (IH hs (h_id hc) i hc m o wf Hnth eq_refl); [lia|assumption..].
Qed.

(** X7: for a header list with distinct ids that names parents first,
    [_getSubWikiHeaders] returns the header of the sub-page, stripped of its
    [parentId], followed by the headers of exactly the pages below the
    sub-page, each once; in the caller's list the header of the sub-page has
    lost its [parentId] and nothing else has changed. *)
Theorem getSubWikiHeaders_returns_the_subtree :
  forall fuel hs s k hd,
    headers_wf hs -> nth_error hs k = Some hd -> h_id hd = s ->
    List.length hs < fuel ->
    exists outr,
      _getSubWikiHeaders fuel hs s []
      = Some (list_update k (pop_parentId hd) hs, pop_parentId hd :: outr)
      /\ NoDup (map h_id (pop_parentId hd :: outr))
      /\ forall x, In x outr
                   <-> In x hs /\ h_id x <> s /\ descends hs s (h_id x).
Proof.
  intros fuel hs s k hd wf Hk Hid Hlen.
  destruct (top_call fuel hs s k hd wf Hk Hid Hlen)
    as (outr & Hrun & _ & Hnd & Hbelow).
  exists outr. split; [exact Hrun|]. split; [exact Hnd|].
  set (hs1 := list_update k (pop_parentId hd) hs) in *.
  assert (wf1 : headers_wf hs1) by (now apply pop_keeps_wf).
  assert (Hk1 : nth_error hs1 k = Some (pop_parentId hd))
    by (now apply (list_update_nth_same k _ hd)).
  assert (Hlen1 : List.length hs1 = List.length hs)
    by apply list_update_length.
  intros x. split.
  - intros Hx.
    destruct (Hbelow x (or_intror Hx)) as (Hin1 & Hd1).
    assert (Hne : h_id x <> s).
    { intros E. cbn [map] in Hnd. inversion Hnd as [|? ? Hnotin _]; subst.
      apply Hnotin. apply in_map_iff. exists x. split; [|assumption].
      cbn. congruence. }
    split; [|split; [assumption|]].
    + apply list_update_In in Hin1. destruct Hin1 as [->|Hin]; [|assumption].
      exfalso. now apply Hne.
    + now apply (descends_pop hs s k hd (h_id x) wf Hk Hid).
  - intros (Hin & Hne & Hd).
    assert (Hin1 : In x hs1).
    { apply In_nth_error in Hin. destruct Hin as [j Hj].
      assert (k <> j).
      { intros ->. rewrite Hk in Hj. inversion Hj; subst x. now apply Hne. }
      apply nth_error_In with (n := j). subst hs1.
      now rewrite list_update_nth_other. }
    assert (Hd1 : descends hs1 s (h_id x))
      by (now apply (descends_pop hs s k hd (h_id x) wf Hk Hid)).
    destruct fuel as [|fuel]; [lia|].
    cbn [_getSubWikiHeaders] in Hrun.
    rewrite (positions_split hs k hd Hk) in Hrun.
    rewrite (skip_before hs wf s k hd Hk Hid (_getSubWikiHeaders fuel)
               (seq 0 k) (seq_below k)) in Hrun.
    cbn [subwiki_loop] in Hrun. rewrite Hk, Hid, String.eqb_refl in Hrun.
    cbn [List.length Nat.eqb andb List.app] in Hrun. fold hs1 in Hrun.
    destruct (descends_via_child hs1 s (h_id x) Hd1)
      as [E|(hc & Hc & Hpc & Hdc)]; [contradiction|].
    apply In_nth_error in Hc. destruct Hc as [i Hi].
    assert (Hki : k < i).
    { destruct (Nat.le_gt_cases i k) as [Hle|]; [|assumption].
      exfalso.
      exact (no_child_before hs1 wf1 s k (pop_parentId hd) Hk1 Hid
               i hc Hi Hle Hpc). }
    assert (Hklen : k < List.length hs) by (apply nth_error_Some; congruence).
    apply (children_loop_complete hs1 wf1 s k (pop_parentId hd) Hk1 Hid
             (_getSubWikiHeaders fuel))
      with (n := List.length hs - S k) (j := S k)
           (mapping := [pop_parentId hd]) (i := i) (hc := hc);
      try assumption; try lia; try discriminate.
    + intros i' hc' m Hi' Hnth Hp Hm.
      apply (sub_call fuel hs1 (h_id hc') i' hc' m wf1 Hnth eq_refl);
        [lia|assumption].
    + intros i' hc' m o Hi' Hnth Hp Hm Hrec.
      apply (sub_call_complete fuel hs1 (h_id hc') i' hc' m o wf1 Hnth
               eq_refl); [lia|assumption..].
Qed.
Lemma getSubWikiHeaders_returns_the_subtree_witness :
  exists outr,
    _getSubWikiHeaders 5 (map header_of (pages_of "syn1" parent_first_world))
                       "6" []
    = Some (list_update 1 (mkHeader "6" None (Some "methods"))
              (map header_of (pages_of "syn1" parent_first_world)),
            mkHeader "6" None (Some "methods") :: outr)
    /\ NoDup (map h_id (mkHeader "6" None (Some "methods") :: outr))
    /\ forall x,
        In x outr
        <-> In x (map header_of (pages_of "syn1" parent_first_world))
            /\ h_id x <> "6"
            /\ descends (map header_of (pages_of "syn1" parent_first_world))
                        "6" (h_id x).
Proof.
  apply (getSubWikiHeaders_returns_the_subtree 5
           (map header_of (pages_of "syn1" parent_first_world)) "6" 1
           (mkHeader "6" (Some "5") (Some "methods"))).
  - split.
    + cbn. repeat constructor; cbn; intuition discriminate.
    + apply parents_precedeb_ok. reflexivity.
  - reflexivity.
  - reflexivity.
  - cbn. lia.
Defined.

(** ** A sub-page the wiki does not have *)

Lemma subwiki_loop_absent rec positions hs s mapping :
  (forall h, In h hs -> h_id h <> s /\ h_parentId h <> Some s) ->
  subwiki_loop rec positions hs s mapping = Some (hs, mapping).
Proof.
  intros Habs. induction positions as [|n positions IH]; [reflexivity|].
  cbn [subwiki_loop].
  destruct (nth_error hs n) as [i|] eqn:En; [|exact IH].
  destruct (Habs i (nth_error_In _ _ En)) as [Hid Hp].
  destruct (String.eqb_spec (h_id i) s) as [E|_]; [contradiction|].
  cbn [andb].
  destruct (h_parentId i) as [p|]; [|exact IH].
  destruct (String.eqb_spec p s) as [->|_]; [|exact IH].
  exfalso. now apply Hp.
Qed.

(** X8: a sub-page id that is neither the id nor the parent of any page of
    the source wiki is accepted silently: [_getSubWikiHeaders] returns no
    header and leaves the list as it was, and [copyWiki] copies no page; it
    only prints, then returns the headers of the destination wiki as they
    were, or fails on fetching them when the destination has no wiki. *)
Theorem copyWiki_unknown_subpage_copies_nothing :
  forall fuel entity destinationId subPageId destinationSubPageId
         updateLinks updateSynIds entityMap oldOwn newOwn w,
    find_entity entity w = Some oldOwn ->
    find_entity destinationId w = Some newOwn ->
    pages_of entity w <> [] ->
    (forall h, In h (map header_of (pages_of entity w)) ->
               h_id h <> subPageId /\ h_parentId h <> Some subPageId) ->
    _getSubWikiHeaders (S fuel) (map header_of (pages_of entity w))
                       subPageId []
    = Some (map header_of (pages_of entity w), [])
    /\ exists w',
        remote_unchanged w w'
        /\ copyWiki (S fuel) entity destinationId (Some subPageId)
                    destinationSubPageId updateLinks updateSynIds entityMap w
           = match pages_of destinationId w with
             | [] => Raise SynapseHTTPError w'
             | ps => Ok (NewWikiHeaders (map header_of ps)) w'
             end.
Proof.
  intros fuel entity destinationId subPageId destinationSubPageId
         updateLinks updateSynIds entityMap oldOwn newOwn w
         Hold Hnew Hpages Habs.
  pose proof (find_entity_id _ _ _ Hold) as Hido.
  pose proof (find_entity_id _ _ _ Hnew) as Hidn.
  assert (Hsub : _getSubWikiHeaders (S fuel)
                   (map header_of (pages_of entity w)) subPageId []
                 = Some (map header_of (pages_of entity w), []))
    by (cbn [_getSubWikiHeaders]; now apply subwiki_loop_absent).
  split; [exact Hsub|].
  unfold copyWiki. unfold bind at 1.
  rewrite (syn_get_plain _ None _ _ Hold (or_introl eq_refl)).
  unfold bind at 1. unfold except_SynapseHTTPError, syn_getWikiHeaders.
  unfold bind at 1. rewrite Hido.
  destruct (pages_of entity w) as [|p0 ps0] eqn:Eps; [contradiction|].
  unfold ret at 1. unfold bind at 1. unfold restrict_headers. rewrite Hsub.
  cbn [snd]. unfold ret at 1. unfold bind at 1.
  rewrite (syn_get_plain _ None _ _ Hnew (or_introl eq_refl)).
  unfold bind at 1. cbn [for_each]. unfold ret at 1. cbn [fst snd].
  rewrite Hidn.
  unfold update_links, update_synIds, store_wikis, syn_getWikiHeaders,
    pages_of.
  destruct updateLinks, updateSynIds, entityMap as [entityMap|];
    cbn [dict_keys dict_keys_from for_each];
    unfold bind, print, ret, add_stdout;
    cbn [wikis entities provenance ownerId counter transfers stdout];
    destruct (filter (fun p => String.eqb (wiki_ownerId p) destinationId)
                     (wikis w));
    (eexists; split; [|reflexivity]);
    unfold remote_unchanged; cbn; auto.
Qed.

Lemma copyWiki_unknown_subpage_copies_nothing_witness :
  exists w',
    remote_unchanged sample_world w'
    /\ copyWiki 1 "syn1" "syn9" (Some "77") None true true None sample_world
       = Raise SynapseHTTPError w'.
Proof.
  destruct (copyWiki_unknown_subpage_copies_nothing 0 "syn1" "syn9" "77" None
              true true None (sample_entity "syn1" Project "study" None)
              (sample_entity "syn9" Project "copy" None) sample_world)
    as (_ & w' & Hsame & Hrun).
  - reflexivity.
  - reflexivity.
  - discriminate.
  - intros h Hin. cbn in Hin.
    destruct Hin as [<-|[<-|[]]]; split; discriminate.
  - exists w'. split; [exact Hsame | exact Hrun].
Defined.

(** ** The root page written over a page of the destination *)

Lemma replace_wiki_find stored ps pg :
  find (fun p => String.eqb (wiki_id p) (wiki_id stored))
       (filter (fun p => String.eqb (wiki_ownerId p) (wiki_ownerId stored)) ps)
  = Some pg ->
  find (fun p => String.eqb (wiki_id p) (wiki_id stored))
       (filter (fun p => String.eqb (wiki_ownerId p) (wiki_ownerId stored))
               (replace_wiki stored ps))
  = Some stored.
Proof.
  induction ps as [|q ps IH]; cbn [filter find replace_wiki];
    [discriminate|].
  destruct (String.eqb (wiki_ownerId q) (wiki_ownerId stored)) eqn:Eo;
    cbn [andb find].
  - destruct (String.eqb (wiki_id q) (wiki_id stored)) eqn:Ei.
    + intros _. cbn [filter]. rewrite String.eqb_refl. cbn [find].
      now rewrite String.eqb_refl.
    + intros H. cbn [filter]. rewrite Eo. cbn [find]. rewrite Ei.
      now apply IH.
  - intros H. cbn [filter]. rewrite Eo. now apply IH.
Qed.

Lemma syn_store_wiki_over wiki w pg :
  wiki_id wiki <> "" ->
  find_wiki (wiki_ownerId wiki) (wiki_id wiki) w = Some pg ->
  wiki_parentWikiId wiki = wiki_parentWikiId pg ->
  exists stored w',
    syn_store_wiki wiki w = Ok stored w'
    /\ map shape (wikis w') = map shape (wikis w)
    /\ find_wiki (wiki_ownerId wiki) (wiki_id wiki) w' = Some stored
    /\ wiki_id stored = wiki_id wiki
    /\ wiki_ownerId stored = wiki_ownerId wiki
    /\ wiki_parentWikiId stored = wiki_parentWikiId wiki
    /\ wiki_title stored = wiki_title wiki
    /\ wiki_markdown stored = wiki_markdown wiki
    /\ entities w' = entities w.
Proof.
  intros Hid Hfind Hpar. unfold syn_store_wiki.
  destruct (String.eqb_spec (wiki_id wiki) "") as [E|_]; [contradiction|].
  destruct (upload_attachments_facts (wiki_attachments wiki) w)
    as (Hw & Hc & He).
  assert (Hfind1 : find_wiki (wiki_ownerId wiki) (wiki_id wiki)
                     (snd (upload_attachments (wiki_attachments wiki) w))
                   = Some pg).
  { unfold find_wiki, pages_of in *. now rewrite Hw. }
  rewrite Hfind1. eexists. eexists. split; [reflexivity|].
  cbn [wikis set_wikis entities wiki_id wiki_ownerId wiki_parentWikiId
       wiki_title wiki_markdown].
  rewrite Hw. split; [|split; [|auto 10]].
  - eapply replace_wiki_shape; [exact Hfind | cbn; congruence].
  - unfold find_wiki, pages_of. cbn [wikis].
    match goal with
    | |- context [replace_wiki ?st _] =>
        apply (replace_wiki_find st (wikis w) pg)
    end.
    exact Hfind.
Qed.

(** X9: with a destination sub-page, the root of the copied pages is not
    created: the page of that id at the destination takes its markdown (and
    attachments) and keeps its own title and its place in the destination
    wiki; no page is added, and the source page is mapped to that id. *)
Theorem root_page_is_written_over_destination_subpage :
  forall oldOwn newOwn d wikiIdMap newWikis i wiki dest w,
    h_parentId i = None ->
    find_wiki (ent_id oldOwn) (h_id i) w = Some wiki ->
    attachments_listed wiki ->
    d <> "" ->
    find_wiki (ent_id newOwn) d w = Some dest ->
    exists stored w',
      copy_page oldOwn newOwn (Some d) (wikiIdMap, newWikis) i w
      = Ok (dict_set (h_id i) d wikiIdMap, dict_set d stored newWikis) w'
      /\ find_wiki (ent_id newOwn) d w' = Some stored
      /\ wiki_markdown stored = wiki_markdown wiki
      /\ wiki_title stored = wiki_title dest
      /\ wiki_parentWikiId stored = wiki_parentWikiId dest
      /\ map shape (wikis w') = map shape (wikis w).
Proof.
  intros oldOwn newOwn d wikiIdMap newWikis i wiki dest w
         Hroot Hwiki Hlisted Hd Hdest.
  destruct (find_wiki_Some _ _ _ _ Hwiki) as (Hin & Howner & Hid).
  destruct (find_wiki_Some _ _ _ _ Hdest) as (HinD & HoD & HidD).
  unfold copy_page. cbn [fst snd]. unfold bind at 1.
  unfold syn_getWiki at 1. rewrite Hwiki.
  unfold bind at 1. unfold print at 1.
  set (w1 := add_stdout _ w).
  destruct (download_attachments_ok wiki w1) as (paths & w2 & Hdl & Hw2 & Hc2);
    [rewrite Howner, Hid; exact Hwiki | assumption |].
  unfold bind at 1. rewrite Hdl. rewrite Hroot.
  assert (Hdest2 : find_wiki (ent_id newOwn) d w2 = Some dest).
  { unfold find_wiki, pages_of in *. now rewrite Hw2. }
  unfold bind at 1. unfold bind at 1. unfold syn_getWiki at 1.
  rewrite Hdest2.
  destruct (syn_store_wiki_over
              (set_wiki_markdown (wiki_markdown wiki)
                 (set_wiki_attachments paths dest)) w2 dest)
    as (stored & w' & Hstore & Hshapes & Hfound & Hid' & Ho' & Hp' & Ht' & Hm'
        & _).
  { cbn. now rewrite HidD. }
  { cbn. now rewrite HoD, HidD. }
  { reflexivity. }
  rewrite Hstore. cbn in Hid', Ho', Hp', Ht', Hm', Hfound.
  rewrite HidD in Hid'. rewrite HoD, HidD in Hfound.
  exists stored, w'. unfold ret. rewrite Hid', Hid.
  split; [reflexivity|].
  split; [assumption|]. split; [assumption|]. split; [assumption|].
  split; [assumption|].
  rewrite Hshapes, Hw2. reflexivity.
Qed.

Lemma root_page_is_written_over_destination_subpage_witness :
  exists stored w',
    copy_page (sample_entity "syn1" Project "study" None)
              (sample_entity "syn9" Project "copy" None) (Some "31")
              ([], []) (mkHeader "5" None (Some "home")) subpage_world
    = Ok ([("5", "31")], [("31", stored)]) w'
    /\ wiki_markdown stored = "welcome"
    /\ wiki_title stored = Some "landing"
    /\ wiki_parentWikiId stored = Some "30"
    /\ map shape (wikis w') = map shape (wikis subpage_world).
Proof.
  destruct (root_page_is_written_over_destination_subpage
              (sample_entity "syn1" Project "study" None)
              (sample_entity "syn9" Project "copy" None) "31" [] []
              (mkHeader "5" None (Some "home"))
              (mkWiki "5" "syn1" None (Some "home") "welcome" [] [] [])
              (mkWiki "31" "syn9" (Some "30") (Some "landing") "old text"
                      [] [] [])
              subpage_world)
    as (stored & w' & Hrun & _ & Hm & Ht & Hp & Hs).
  - reflexivity.
  - reflexivity.
  - intros x [].
  - discriminate.
  - reflexivity.
  - exists stored, w'. auto.
Defined.

(** * What the copy never does *)

(** ** Computations that keep a relation between states *)

Section Keeps.
Variable R : World -> World -> Prop.
Hypothesis R_refl : forall w, R w w.
Hypothesis R_trans : forall w1 w2 w3, R w1 w2 -> R w2 w3 -> R w1 w3.

Lemma keeps_ret {A : Type} (a : A) : keeps R (ret a).
Proof. intros w. apply R_refl. Qed.

Lemma keeps_raise {A : Type} (e : Exn) : keeps R (@raise A e).
Proof. intros w. apply R_refl. Qed.

Lemma keeps_out_of_fuel {A : Type} : keeps R (@out_of_fuel A).
Proof. intros w. exact I. Qed.

Lemma keeps_bind {A B : Type} (c : M A) (k : A -> M B) :
  keeps R c -> (forall a, keeps R (k a)) -> keeps R (bind c k).
Proof.
  intros Hc Hk w. unfold bind. specialize (Hc w).
  destruct (c w) as [a w1|e w1|]; [|assumption|exact I].
  specialize (Hk a w1).
  destruct (k a w1); try exact I; eapply R_trans; eassumption.
Qed.

Lemma keeps_for_each {A S : Type} (xs : list A) (body : S -> A -> M S) :
  (forall acc x, keeps R (body acc x)) ->
  forall acc, keeps R (for_each xs body acc).
Proof.
  intros Hbody. induction xs as [|x xs IH]; intros acc; cbn [for_each].
  - apply keeps_ret.
  - apply keeps_bind; auto.
Qed.

Lemma keeps_for_ {A : Type} (xs : list A) (body : A -> M unit) :
  (forall x, keeps R (body x)) -> keeps R (for_ xs body).
Proof.
  intros Hbody. induction xs as [|x xs IH]; cbn [for_].
  - apply keeps_ret.
  - apply keeps_bind; auto.
Qed.

Lemma keeps_except_SynapseHTTPError {A : Type} (c handler : M A) :
  keeps R c -> keeps R handler -> keeps R (except_SynapseHTTPError c handler).
Proof.
  intros Hc Hh w. unfold except_SynapseHTTPError. specialize (Hc w).
  destruct (c w) as [a w1|e w1|]; [assumption| |exact I].
  destruct e; try assumption.
  specialize (Hh w1).
  destruct (handler w1); try exact I; eapply R_trans; eassumption.
Qed.

Lemma keeps_except_Exception {A : Type} (c : M A) (handler : Exn -> M A) :
  keeps R c -> (forall e, keeps R (handler e)) ->
  keeps R (except_Exception c handler).
Proof.
  intros Hc Hh w. unfold except_Exception. specialize (Hc w).
  destruct (c w) as [a w1|e w1|]; [assumption| |exact I].
  specialize (Hh e w1).
  destruct (handler e w1); try exact I; eapply R_trans; eassumption.
Qed.

Lemma keeps_check_name search name msg : keeps R (check_name search name msg).
Proof.
  apply keeps_for_. intros i.
  destruct (String.eqb i name); [apply keeps_raise | apply keeps_ret].
Qed.
End Keeps.

Lemma keeps_Ok {A : Type} R (c : M A) w a w' :
  keeps R c -> c w = Ok a w' -> R w w'.
Proof. intros Hk H. specialize (Hk w). now rewrite H in Hk. Qed.

(** ** The frame of the walk *)

Lemma entity_kept_refl e : entity_kept e e.
Proof. unfold entity_kept. auto. Qed.

Lemma entity_kept_trans e1 e2 e3 :
  entity_kept e1 e2 -> entity_kept e2 e3 -> entity_kept e1 e3.
Proof. unfold entity_kept. intuition congruence. Qed.

Lemma walk_frame_refl w : walk_frame w w.
Proof.
  unfold walk_frame. repeat split; auto.
  intros e He. exists e. split; [assumption | apply entity_kept_refl].
Qed.

Lemma walk_frame_trans w1 w2 w3 :
  walk_frame w1 w2 -> walk_frame w2 w3 -> walk_frame w1 w3.
Proof.
  intros (W1 & O1 & C1 & E1) (W2 & O2 & C2 & E2).
  split; [congruence|]. split; [congruence|]. split; [lia|].
  intros e He. destruct (E1 e He) as (e2 & He2 & K2).
  destruct (E2 e2 He2) as (e3 & He3 & K3).
  exists e3. split; [assumption|]. eapply entity_kept_trans; eassumption.
Qed.

Lemma walk_frame_same w w' :
  entities w' = entities w -> wikis w' = wikis w -> ownerId w' = ownerId w ->
  counter w <= counter w' -> walk_frame w w'.
Proof.
  intros He Hw Ho Hc. split; [assumption|]. split; [assumption|].
  split; [assumption|].
  intros e Hin. exists e. rewrite He. split; [assumption|].
  apply entity_kept_refl.
Qed.

Lemma walk_frame_append w w' stored :
  entities w' = (entities w ++ [stored])%list -> wikis w' = wikis w ->
  ownerId w' = ownerId w -> counter w <= counter w' -> walk_frame w w'.
Proof.
  intros He Hw Ho Hc. split; [assumption|]. split; [assumption|].
  split; [assumption|].
  intros e Hin. exists e. rewrite He. split; [|apply entity_kept_refl].
  apply in_app_iff. now left.
Qed.

Lemma keeps_unchanged {A : Type} (c : M A) :
  (forall w, match c w with
             | Ok _ w' | Raise _ w' =>
                 entities w' = entities w /\ wikis w' = wikis w
                 /\ ownerId w' = ownerId w /\ counter w' = counter w
             | OutOfFuel => True
             end) -> keeps walk_frame c.
Proof.
  intros H w. specialize (H w).
  destruct (c w); try exact I; destruct H as (He & Hw & Ho & Hc);
    apply walk_frame_same; auto; lia.
Qed.

Lemma keeps_print line : keeps walk_frame (print line).
Proof. apply keeps_unchanged. intros w. cbn. auto. Qed.

Lemma keeps_syn_get entity version downloadFile :
  keeps walk_frame (syn_get entity version downloadFile).
Proof.
  apply keeps_unchanged. intros w. unfold syn_get.
  destruct (find_entity entity w) as [e|]; [|cbn; auto].
  destruct (match version with
            | Some v => negb (Nat.eqb v (ent_versionNumber e))
            | None => false
            end); [cbn; auto|].
  destruct (ent_type e), (ent_dataFileHandleId e), (ent_externalURL e),
    downloadFile; cbn; auto.
Qed.

Lemma keeps_syn_query_names parent : keeps walk_frame (syn_query_names parent).
Proof. apply keeps_unchanged. intros w. cbn. auto. Qed.

Lemma keeps_syn_query_table_names project :
  keeps walk_frame (syn_query_table_names project).
Proof. apply keeps_unchanged. intros w. cbn. auto. Qed.

Lemma keeps_syn_chunkedQuery parent :
  keeps walk_frame (syn_chunkedQuery parent).
Proof. apply keeps_unchanged. intros w. cbn. auto. Qed.

Lemma keeps_syn_getUserProfile : keeps walk_frame syn_getUserProfile.
Proof. apply keeps_unchanged. intros w. cbn. auto. Qed.

Lemma keeps_syn_getProvenance entity :
  keeps walk_frame (syn_getProvenance entity).
Proof.
  apply keeps_unchanged. intros w. unfold syn_getProvenance.
  destruct (dict_get entity (provenance w)); cbn; auto.
Qed.

Lemma keeps_syn_restGET_filehandles entity version :
  keeps walk_frame (syn_restGET_filehandles entity version).
Proof.
  apply keeps_unchanged. intros w. unfold syn_restGET_filehandles.
  destruct (find_entity entity w) as [e|]; [|cbn; auto].
  destruct (Nat.eqb version (ent_versionNumber e)); cbn; auto.
Qed.

Lemma keeps_syn_tableQuery table : keeps walk_frame (syn_tableQuery table).
Proof.
  apply keeps_unchanged. intros w. unfold syn_tableQuery.
  destruct (find_entity table w); cbn; auto.
Qed.

Lemma store_file_frame obj w :
  match store_file obj w with
  | Ok obj1 w1 =>
      entities w1 = entities w /\ wikis w1 = wikis w
      /\ ownerId w1 = ownerId w /\ counter w <= counter w1
      /\ ent_type obj1 = ent_type obj /\ ent_name obj1 = ent_name obj
      /\ ent_parentId obj1 = ent_parentId obj
  | Raise _ _ => False
  | OutOfFuel => False
  end.
Proof.
  unfold store_file.
  destruct (ent_type obj) eqn:Et; try (cbn; auto 10).
  destruct (ent_path obj) as [p|].
  - destruct (ent_synapseStore obj); cbn; auto 10.
  - destruct (ent_dataFileHandleId obj); cbn; auto 10.
Qed.

Lemma record_activity_frame i act w :
  entities (record_activity i act w) = entities w
  /\ wikis (record_activity i act w) = wikis w
  /\ ownerId (record_activity i act w) = ownerId w
  /\ counter (record_activity i act w) = counter w.
Proof. destruct act; cbn; auto. Qed.

Lemma replace_first_kept here stored old es e :
  find here es = Some old -> In e es ->
  In e (replace_first here stored es)
  \/ (e = old /\ In stored (replace_first here stored es)).
Proof.
  intros Hold. induction es as [|a es IH]; cbn [In]; [contradiction|].
  cbn [find] in Hold. cbn [replace_first]. destruct (here a) eqn:Ha.
  - inversion Hold; subst a. intros [<-|Hin].
    + right. split; [reflexivity|now left].
    + left. now right.
  - intros [<-|Hin]; [left; now left|].
    destruct (IH Hold Hin) as [H|[-> H]]; [left|right; split; auto];
      now right.
Qed.

Lemma replace_first_stored here stored old es :
  find here es = Some old -> In stored (replace_first here stored es).
Proof.
  induction es as [|a es IH]; cbn [find replace_first]; [discriminate|].
  destruct (here a); [intros _; now left|].
  intros H. right. now apply IH.
Qed.

(** What a store that succeeds has done: the stored entity is held, with
    the type and the parent it was given, and nothing else has moved. *)
Lemma syn_store_outcome obj act w :
  match syn_store obj act w with
  | Ok stored w' =>
      walk_frame w w'
      /\ In stored (entities w')
      /\ ent_type stored = ent_type obj
      /\ ent_parentId stored = ent_parentId obj
  | Raise _ w' => walk_frame w w'
  | OutOfFuel => True
  end.
Proof.
  unfold syn_store.
  destruct (EntityType_eqb (ent_type obj) Link
            && match find_entity (ent_targetId obj) w with
               | Some _ => false
               | None => true
               end); [apply walk_frame_refl|].
  pose proof (store_file_frame obj w) as Hsf.
  destruct (store_file obj w) as [obj1 w1| |]; [|contradiction|exact I].
  destruct Hsf as (Hents & Hwikis & Howner & Hcounter & Hty & Hname & Hpar).
  assert (Hw1 : walk_frame w w1) by (now apply walk_frame_same).
  assert (Hnew :
    let stored := stamp ("syn" ++ str_of_nat (counter w1)) 1 obj1 in
    let w' := record_activity (ent_id stored) act
                (set_counter (S (counter w1))
                   (set_entities (entities w1 ++ [stored])%list w1)) in
    walk_frame w w' /\ In stored (entities w')
    /\ ent_type stored = ent_type obj
    /\ ent_parentId stored = ent_parentId obj).
  { intros stored w'.
    destruct (record_activity_frame (ent_id stored) act
                (set_counter (S (counter w1))
                   (set_entities (entities w1 ++ [stored])%list w1)))
      as (He & Hw & Ho & Hc).
    cbn [entities wikis ownerId counter set_counter set_entities] in He, Hw,
      Ho, Hc.
    split; [|split; [|split]].
    - eapply walk_frame_trans; [exact Hw1|].
      apply (walk_frame_append w1 w' stored); subst w'; try assumption.
      rewrite Hc. lia.
    - subst w'. rewrite He. apply in_app_iff. right. now left.
    - exact Hty.
    - exact Hpar. }
  destruct (String.eqb_spec (ent_name obj1) "") as [Hempty|Hnonempty];
    [exact Hnew|].
  destruct (find (same_place obj1) (entities w1)) as [old|] eqn:Hfind;
    [|exact Hnew].
  clear Hnew.
  destruct (EntityType_eqb (ent_type old) (ent_type obj1)) eqn:Etype;
    [|exact Hw1].
  apply EntityType_eqb_eq in Etype.
  assert (Hplace : same_place obj1 old = true) by (now apply find_some in Hfind).
  unfold same_place in Hplace. apply andb_true_iff in Hplace.
  destruct Hplace as [Hp Hn]. apply opt_eqb_eq in Hp. apply String.eqb_eq in Hn.
  set (stored := stamp (ent_id old) (S (ent_versionNumber old)) obj1).
  assert (Hkept : entity_kept old stored).
  { unfold entity_kept, stored. cbn [stamp ent_id ent_type ent_parentId ent_name].
    destruct (String.eqb_spec (ent_name obj1) "") as [E|_]; [contradiction|].
    auto. }
  destruct (record_activity_frame (ent_id stored) act
              (set_entities
                 (replace_first (same_place obj1) stored (entities w1)) w1))
    as (He & Hw & Ho & Hc).
  cbn [entities wikis ownerId counter set_entities] in He, Hw, Ho, Hc.
  split; [|split; [|split]].
  - eapply walk_frame_trans; [exact Hw1|].
    split; [assumption|]. split; [assumption|]. split; [lia|].
    intros e Hin. rewrite He.
    destruct (replace_first_kept (same_place obj1) stored old (entities w1) e
                Hfind Hin) as [H|[-> H]].
    + exists e. split; [assumption | apply entity_kept_refl].
    + exists stored. split; assumption.
  - rewrite He. eapply replace_first_stored; eassumption.
  - exact Hty.
  - exact Hpar.
Qed.

Lemma keeps_syn_store obj act : keeps walk_frame (syn_store obj act).
Proof.
  intros w. pose proof (syn_store_outcome obj act w) as H.
  destruct (syn_store obj act w); try exact I; [now destruct H | exact H].
Qed.

Ltac frame_bind :=
  apply (keeps_bind walk_frame walk_frame_trans).
Ltac frame_ret := apply (keeps_ret walk_frame walk_frame_refl).
Ltac frame_raise := apply (keeps_raise walk_frame walk_frame_refl).

Lemma keeps_resolve_provenance setProvenance ent :
  keeps walk_frame (resolve_provenance setProvenance ent).
Proof.
  unfold resolve_provenance.
  destruct (opt_eqb setProvenance (Some "traceback")); [frame_ret|].
  destruct (opt_eqb setProvenance (Some "existing")).
  - apply (keeps_except_SynapseHTTPError walk_frame walk_frame_trans);
      [|frame_ret].
    frame_bind; [apply keeps_syn_getProvenance | intros; frame_ret].
  - destruct (match setProvenance with
              | Some s => String.eqb (lower s) "none"
              | None => true
              end); [frame_ret | frame_raise].
Qed.

Lemma keeps_new_file entity destinationId version profile createdBy ent :
  keeps walk_frame
        (new_file entity destinationId version profile createdBy ent).
Proof.
  unfold new_file.
  destruct (opt_eqb (Some profile) createdBy); [frame_ret|].
  destruct (ent_externalURL ent);
    (frame_bind; [apply keeps_syn_get | intros; frame_ret]).
Qed.

Lemma keeps__copyFile entity destinationId version update setProvenance :
  keeps walk_frame
        (_copyFile entity destinationId version update setProvenance).
Proof.
  unfold _copyFile.
  frame_bind; [apply keeps_syn_get|]. intros ent.
  frame_bind.
  { destruct (negb update); [|frame_ret].
    frame_bind; [apply keeps_syn_query_names|].
    intros; apply (keeps_check_name walk_frame walk_frame_refl walk_frame_trans). }
  intros _. frame_bind; [apply keeps_syn_getUserProfile|]. intros profile.
  frame_bind; [apply keeps_resolve_provenance|]. intros act.
  frame_bind; [apply keeps_syn_restGET_filehandles|]. intros fileHandleList.
  frame_bind; [apply keeps_new_file|]. intros r.
  frame_bind; [|intros; frame_ret].
  destruct act; apply keeps_syn_store.
Qed.

Lemma keeps__copyTable entity destinationId setAnnotations :
  keeps walk_frame (_copyTable entity destinationId setAnnotations).
Proof.
  unfold _copyTable.
  frame_bind; [apply keeps_print|]. intros _.
  frame_bind; [apply keeps_syn_get|]. intros myTableSchema.
  frame_bind; [apply keeps_syn_query_table_names|]. intros search.
  frame_bind;
    [apply (keeps_check_name walk_frame walk_frame_refl walk_frame_trans)|].
  intros _.
  frame_bind; [apply keeps_syn_tableQuery|]. intros d.
  destruct (Nat.ltb 0 (List.length d));
    (frame_bind; [apply keeps_print|]; intros _;
     frame_bind; [apply keeps_syn_store | intros; frame_ret]).
Qed.

Lemma keeps__copyLink entity destinationId :
  keeps walk_frame (_copyLink entity destinationId).
Proof.
  unfold _copyLink.
  frame_bind; [apply keeps_syn_get|]. intros ent.
  frame_bind; [apply keeps_syn_query_names|]. intros search.
  frame_bind;
    [apply (keeps_check_name walk_frame walk_frame_refl walk_frame_trans)|].
  intros _.
  apply (keeps_except_Exception walk_frame walk_frame_trans).
  - frame_bind; [apply keeps_syn_store | intros; frame_ret].
  - intros e. frame_bind; [apply keeps_print | intros; frame_ret].
Qed.

Lemma keeps_report ent copiedId mapping :
  keeps walk_frame (report ent copiedId mapping).
Proof.
  unfold report. frame_bind; [|intros; frame_ret].
  destruct copiedId; apply keeps_print.
Qed.

Lemma keeps__copyFolder rec entity destinationId mapping kwargs :
  (forall e d m k, keeps walk_frame (rec e d m k)) ->
  keeps walk_frame (_copyFolder rec entity destinationId mapping kwargs).
Proof.
  intros Hrec. unfold _copyFolder.
  frame_bind; [apply keeps_syn_get|]. intros oldFolder.
  frame_bind; [apply keeps_syn_query_names|]. intros search.
  frame_bind;
    [apply (keeps_check_name walk_frame walk_frame_refl walk_frame_trans)|].
  intros _.
  frame_bind; [apply keeps_syn_store|]. intros newFolder.
  frame_bind; [apply keeps_syn_chunkedQuery|]. intros entities.
  frame_bind; [|intros; frame_ret].
  apply (keeps_for_each walk_frame walk_frame_refl walk_frame_trans).
  intros acc x. apply Hrec.
Qed.

Lemma keeps__copyRecursive fuel :
  forall entity destinationId mapping kwargs,
    keeps walk_frame (_copyRecursive fuel entity destinationId mapping kwargs).
Proof.
  induction fuel as [|fuel IH]; intros entity destinationId mapping kwargs.
  - apply keeps_out_of_fuel.
  - cbn [_copyRecursive].
    destruct (negb (forallb (fun i => str_in i allowed_excludeTypes)
                            (excludeTypes kwargs))); [frame_raise|].
    frame_bind; [apply keeps_syn_get|]. intros ent.
    destruct (ent_type ent).
    + destruct (version kwargs); [frame_raise|].
      frame_bind; [apply keeps_syn_get|]. intros dest.
      destruct (negb (EntityType_eqb (ent_type dest) Project));
        [frame_raise|].
      frame_bind; [apply keeps_syn_chunkedQuery|]. intros entities.
      frame_bind; [|intros; apply keeps_report].
      apply (keeps_for_each walk_frame walk_frame_refl walk_frame_trans).
      intros acc x. apply IH.
    + destruct (version kwargs); [frame_raise|].
      frame_bind; [now apply keeps__copyFolder|].
      intros r. apply keeps_report.
    + destruct (negb (str_in "file" (excludeTypes kwargs)));
        [|apply keeps_report].
      frame_bind; [apply keeps__copyFile|]. intros; apply keeps_report.
    + destruct (negb (str_in "link" (excludeTypes kwargs)));
        [|apply keeps_report].
      frame_bind; [apply keeps__copyLink|].
      intros [c|]; apply keeps_report.
    + destruct (negb (str_in "table" (excludeTypes kwargs)));
        [|apply keeps_report].
      frame_bind; [apply keeps__copyTable|]. intros; apply keeps_report.
    + frame_raise.
Qed.

(** X10: whatever its outcome, a result or an exception, the walk changes
    no wiki page and no user, and it never deletes, moves, renames or
    retypes an entity: every entity the service held is still held under
    its id, with its type, its parent and its name.  The same holds of
    [copy] when the wiki pages are not to be copied. *)
Theorem walk_never_deletes_or_moves :
  forall fuel entity destinationId mapping kwargs w,
    match _copyRecursive fuel entity destinationId mapping kwargs w with
    | Ok _ w' | Raise _ w' => walk_frame w w'
    | OutOfFuel => True
    end
    /\ match copy fuel entity destinationId false kwargs w with
       | Ok _ w' | Raise _ w' => walk_frame w w'
       | OutOfFuel => True
       end.
Proof.
  intros fuel entity destinationId mapping kwargs w. split.
  - apply (keeps__copyRecursive fuel entity destinationId mapping kwargs w).
  - assert (H : keeps walk_frame (copy fuel entity destinationId false kwargs)).
    { unfold copy. frame_bind; [apply keeps__copyRecursive|].
      intros m. frame_bind; frame_ret. }
    apply (H w).
Qed.

(** * The copy mirrors the tree *)

Lemma placed_kept new new' dest :
  entity_kept new new' -> placed new dest -> placed new' dest.
Proof.
  intros (Hid & Hty & Hpar & _) [H|[Ht Hi]];
    [left; congruence | right; split; congruence].
Qed.

Lemma copy_held_mono w w' c v dest :
  walk_frame w w' -> copy_held w c v dest -> copy_held w' c v dest.
Proof.
  intros (_ & _ & _ & Hkept) (src & new & Hs & Hsid & Hn & Hnid & Hty & Hpl).
  destruct (Hkept src Hs) as (src' & Hs' & Ks).
  destruct (Hkept new Hn) as (new' & Hn' & Kn).
  exists src', new'.
  pose proof (placed_kept _ _ _ Kn Hpl) as Hpl'.
  destruct Ks as (Ks1 & Ks2 & _). destruct Kn as (Kn1 & Kn2 & _).
  repeat split; try assumption; congruence.
Qed.

Lemma child_ids_mono w w' p c :
  walk_frame w w' -> In c (child_ids p w) -> In c (child_ids p w').
Proof.
  intros (_ & _ & _ & Hkept) Hin. unfold child_ids in *.
  apply in_map_iff in Hin. destruct Hin as (e & <- & He).
  apply children_of_in in He. destruct He as [He Hp].
  destruct (Hkept e He) as (e' & He' & Hid & _ & Hpar & _).
  apply in_map_iff. exists e'. split; [assumption|].
  apply children_of_in. split; [assumption | congruence].
Qed.

Lemma syn_store_Ok obj act w stored w' :
  syn_store obj act w = Ok stored w' ->
  walk_frame w w' /\ In stored (entities w')
  /\ ent_type stored = ent_type obj /\ ent_parentId stored = ent_parentId obj.
Proof.
  intros H. pose proof (syn_store_outcome obj act w) as Hout.
  now rewrite H in Hout.
Qed.

Lemma new_file_shape entity destinationId version profile createdBy ent w :
  match new_file entity destinationId version profile createdBy ent w with
  | Ok r _ => ent_type (fst r) = File
              /\ ent_parentId (fst r) = Some destinationId
  | _ => True
  end.
Proof.
  unfold new_file.
  destruct (opt_eqb (Some profile) createdBy); [cbn; auto|].
  destruct (ent_externalURL ent); unfold bind;
    destruct (syn_get entity version _ w); cbn; auto.
Qed.

(** The id a leaf copier returns is that of an entity the service then
    holds, of the kind of the copier, under the destination. *)
Lemma _copyFile_Ok entity destinationId version update setProvenance w v w' :
  _copyFile entity destinationId version update setProvenance w = Ok v w' ->
  exists new, In new (entities w') /\ ent_id new = v
              /\ ent_type new = File
              /\ ent_parentId new = Some destinationId.
Proof.
  unfold _copyFile. intros H.
  apply bind_Ok in H. destruct H as (ent & w1 & _ & H).
  apply bind_Ok in H. destruct H as (u & w2 & _ & H).
  apply bind_Ok in H. destruct H as (profile & w3 & _ & H).
  apply bind_Ok in H. destruct H as (act & w4 & _ & H).
  apply bind_Ok in H. destruct H as (fileHandleList & w5 & _ & H).
  apply bind_Ok in H. destruct H as (r & w6 & Hnew & H).
  pose proof (new_file_shape entity destinationId version profile
                (createdBy_of fileHandleList (ent_dataFileHandleId ent))
                ent w5) as Hshape.
  rewrite Hnew in Hshape. destruct Hshape as [Hty Hpar].
  apply bind_Ok in H. destruct H as (stored & w7 & Hstore & H).
  unfold ret in H. inversion H; subst v w7. clear H.
  assert (Hs : syn_store
                 (set_ent_annotations (ent_annotations (snd r)) (fst r))
                 act w6 = Ok stored w')
    by (destruct act; exact Hstore).
  apply syn_store_Ok in Hs. destruct Hs as (_ & Hin & Ht & Hp).
  exists stored. cbn in Ht, Hp. repeat split; congruence.
Qed.

Lemma _copyTable_Ok entity destinationId setAnnotations w v w' :
  _copyTable entity destinationId setAnnotations w = Ok v w' ->
  exists new, In new (entities w') /\ ent_id new = v
              /\ ent_type new = Schema
              /\ ent_parentId new = Some destinationId.
Proof.
  unfold _copyTable. intros H.
  apply bind_Ok in H. destruct H as (u & w1 & _ & H).
  apply bind_Ok in H. destruct H as (schema & w2 & _ & H).
  apply bind_Ok in H. destruct H as (search & w3 & _ & H).
  apply bind_Ok in H. destruct H as (u' & w4 & _ & H).
  apply bind_Ok in H. destruct H as (d & w5 & _ & H).
  destruct (Nat.ltb 0 (List.length d));
    apply bind_Ok in H; destruct H as (u'' & w6 & _ & H);
    apply bind_Ok in H; destruct H as (stored & w7 & Hstore & H);
    unfold ret in H; inversion H; subst v w7; clear H;
    apply syn_store_Ok in Hstore; destruct Hstore as (_ & Hin & Ht & Hp);
    exists stored; destruct setAnnotations; cbn in Ht, Hp; auto.
Qed.

Lemma _copyLink_Ok entity destinationId w v w' :
  _copyLink entity destinationId w = Ok (Some v) w' ->
  exists new, In new (entities w') /\ ent_id new = v
              /\ ent_type new = Link
              /\ ent_parentId new = Some destinationId.
Proof.
  unfold _copyLink. intros H.
  apply bind_Ok in H. destruct H as (ent & w1 & _ & H).
  apply bind_Ok in H. destruct H as (search & w2 & _ & H).
  apply bind_Ok in H. destruct H as (u & w3 & _ & H).
  unfold except_Exception in H.
  match type of H with
  | match ?c ?w with _ => _ end = _ => destruct (c w) as [r w4|e w4|] eqn:Hc
  end; [| |discriminate].
  - inversion H; subst r w4. clear H.
    apply bind_Ok in Hc. destruct Hc as (stored & w5 & Hstore & Hret).
    unfold ret in Hret. inversion Hret; subst v w5. clear Hret.
    apply syn_store_Ok in Hstore. destruct Hstore as (_ & Hin & Ht & Hp).
    exists stored. cbn in Ht, Hp. auto.
  - unfold bind, print, ret in H. discriminate H.
Qed.

Section MirrorLoop.
Variable fuel : nat.
Hypothesis walk :
  forall entity destinationId mapping kwargs w mapping' w',
    _copyRecursive fuel entity destinationId mapping kwargs w
    = Ok mapping' w' ->
    exists written,
      mapping' = (mapping ++ written)%list
      /\ mirrored w' entity destinationId written.

Lemma loop_mirrors destinationId kwargs cs :
  forall mapping w mapping' w',
    for_each cs
      (fun mapping i =>
         _copyRecursive fuel i destinationId mapping kwargs) mapping w
    = Ok mapping' w' ->
    walk_frame w w'
    /\ exists written,
        mapping' = (mapping ++ written)%list
        /\ children_mirrored w' cs destinationId written.
Proof.
  induction cs as [|c1 cs IH]; intros mapping w mapping' w' Hrun.
  - cbn in Hrun. inversion Hrun; subst.
    split; [apply walk_frame_refl|]. exists []. rewrite app_nil_r.
    split; [reflexivity|]. intros c v [].
  - cbn [for_each] in Hrun. apply bind_Ok in Hrun.
    destruct Hrun as (m1 & w1 & Hstep & Hrest).
    pose proof (keeps_Ok _ _ _ _ _
                  (keeps__copyRecursive fuel c1 destinationId mapping kwargs)
                  Hstep) as Hf1.
    destruct (walk _ _ _ _ _ _ _ Hstep) as (written1 & -> & Hm1).
    destruct (IH _ _ _ _ Hrest) as (Hf2 & written2 & -> & Hm2).
    split; [eapply walk_frame_trans; eassumption|].
    exists (written1 ++ written2)%list.
    split; [now rewrite app_assoc|].
    intros c v Hin. apply in_app_iff in Hin. destruct Hin as [Hin|Hin].
    + destruct (Hm1 c v Hin) as [[-> Hheld]|(p & vp & Hp & Hc & Hheld)].
      * left. split; [now left|]. eapply copy_held_mono; eassumption.
      * right. exists p, vp. split; [apply in_app_iff; now left|].
        split; [eapply child_ids_mono; eassumption|].
        eapply copy_held_mono; eassumption.
    + destruct (Hm2 c v Hin) as [[Hcs Hheld]|(p & vp & Hp & Hc & Hheld)].
      * left. split; [now right | assumption].
      * right. exists p, vp. split; [apply in_app_iff; now right|].
        split; assumption.
Qed.
End MirrorLoop.

Lemma leaf_mirrored w entity destinationId src new v :
  In src (entities w) -> ent_id src = entity ->
  In new (entities w) -> ent_id new = v ->
  ent_type new = ent_type src -> ent_parentId new = Some destinationId ->
  mirrored w entity destinationId [(entity, v)].
Proof.
  intros Hs Hsid Hn Hnid Hty Hpar c v' [E|[]]. inversion E; subst c v'.
  left. split; [reflexivity|]. exists src, new.
  repeat split; try assumption. now left.
Qed.

(** X11: the copies mirror the tree.  After a successful walk every entry
    written to the mapping maps an entity to an entity of the same type that
    the service holds; the copy of the root lies under the destination (a
    Project is mapped to the destination itself), and the copy of every
    other entity lies under the copy of its parent. *)
Theorem copies_mirror_the_tree :
  forall fuel entity destinationId mapping kwargs w mapping' w',
    _copyRecursive fuel entity destinationId mapping kwargs w
    = Ok mapping' w' ->
    exists written,
      mapping' = (mapping ++ written)%list
      /\ mirrored w' entity destinationId written.
Proof.
  induction fuel as [|fuel IH];
    intros entity destinationId mapping kwargs w mapping' w' Hrun;
    [discriminate|].
  pose proof (keeps_Ok _ _ _ _ _
                (keeps__copyRecursive (S fuel) entity destinationId mapping
                                      kwargs) Hrun) as Hframe.
  cbn [_copyRecursive] in Hrun.
  destruct (negb (forallb (fun i => str_in i allowed_excludeTypes)
                          (excludeTypes kwargs))); [discriminate|].
  apply bind_Ok in Hrun. destruct Hrun as (ent & w1 & Hget & Hrun).
  apply syn_get_Ok in Hget.
  destruct (Hget) as (e & Hf & Hid & _ & _ & _ & _ & Hsame).
  destruct (Hsame eq_refl) as [-> ->]. clear Hsame Hget.
  rewrite Hid in Hrun.
  pose proof (find_entity_in _ _ _ Hf) as Hin.
  destruct Hframe as (_ & _ & _ & Hkept).
  destruct (Hkept e Hin) as (src & Hsrc & Ksid & Ksty & _).
  rewrite Hid in Ksid.
  destruct (ent_type e) eqn:Etype.
  - (* Project *)
    destruct (version kwargs); [discriminate|].
    apply bind_Ok in Hrun. destruct Hrun as (dest & w2 & Hgetd & Hrun).
    pose proof (keeps_Ok _ _ _ _ _ (keeps_syn_get _ _ _) Hgetd) as Hf2.
    apply syn_get_Ok in Hgetd.
    destruct Hgetd as (ed & Hfd & Hidd & Htyd & _ & _ & _ & _).
    destruct (EntityType_eqb (ent_type dest) Project) eqn:Edest;
      [|discriminate].
    apply EntityType_eqb_eq in Edest. cbn [negb] in Hrun.
    apply bind_Ok in Hrun. destruct Hrun as (cs & w3 & Hq & Hrun).
    unfold syn_chunkedQuery in Hq. inversion Hq; subst cs w3. clear Hq.
    apply bind_Ok in Hrun. destruct Hrun as (m2 & w4 & Hloop & Hrep).
    pose proof (keeps_Ok _ _ _ _ _ (keeps_report _ _ _) Hrep) as Hf5.
    apply report_Ok in Hrep. destruct Hrep as [-> _].
    destruct (loop_mirrors fuel IH destinationId kwargs _ _ _ _ _ Hloop)
      as (Hf4 & written & -> & Hm).
    assert (Hfd' : walk_frame w w').
    { eapply walk_frame_trans; [exact Hf2|].
      eapply walk_frame_trans; eassumption. }
    assert (Hroot : copy_held w' entity destinationId destinationId).
    { destruct Hfd' as (_ & _ & _ & Hk).
      destruct (Hk ed (find_entity_in _ _ _ Hfd)) as (nd & Hnd & Kid & Kty & _).
      exists src, nd. pose proof (find_entity_id _ _ _ Hfd) as Hedid.
      repeat split; try assumption; try congruence.
      right. split; congruence. }
    exists ((entity, destinationId) :: written).
    split; [unfold dict_set; now rewrite <- app_assoc|].
    intros c v [E|Hcv].
    + inversion E; subst c v. left. split; [reflexivity | exact Hroot].
    + right.
      destruct (Hm c v Hcv) as [[Hcs Hheld]|(p & vp & Hp & Hc & Hheld)].
      * exists entity, destinationId. split; [now left|].
        split.
        -- eapply child_ids_mono; [exact Hf5|].
           eapply child_ids_mono; [exact Hf4|exact Hcs].
        -- apply (copy_held_mono w4 w'); assumption.
      * exists p, vp. split; [now right|].
        split; [apply (child_ids_mono w4 w'); assumption|].
        apply (copy_held_mono w4 w'); assumption.
  - (* Folder *)
    destruct (version kwargs); [discriminate|].
    apply bind_Ok in Hrun. destruct Hrun as (r & w5 & Hfolder & Hrep).
    pose proof (keeps_Ok _ _ _ _ _ (keeps_report _ _ _) Hrep) as Hf5.
    apply report_Ok in Hrep. destruct Hrep as [-> _].
    unfold _copyFolder in Hfolder.
    apply bind_Ok in Hfolder.
    destruct Hfolder as (oldFolder & w2 & Hgeto & Hfolder).
    apply bind_Ok in Hfolder. destruct Hfolder as (search & w2' & Hq & Hfolder).
    unfold syn_query_names in Hq. inversion Hq; subst search w2'. clear Hq.
    apply bind_Ok in Hfolder. destruct Hfolder as (u & w2' & Hc & Hfolder).
    apply check_name_Ok in Hc. subst w2'.
    apply bind_Ok in Hfolder.
    destruct Hfolder as (newFolder & w3 & Hstore & Hfolder).
    apply syn_store_Ok in Hstore. destruct Hstore as (_ & Hnew & Hnty & Hnpar).
    cbn in Hnty, Hnpar.
    apply bind_Ok in Hfolder. destruct Hfolder as (cs & w3' & Hq & Hfolder).
    unfold syn_chunkedQuery in Hq. inversion Hq; subst cs w3'. clear Hq.
    apply bind_Ok in Hfolder. destruct Hfolder as (m2 & w4 & Hloop & Hret).
    unfold ret in Hret. inversion Hret; subst r w5. clear Hret.
    cbn [fst snd] in *.
    destruct (loop_mirrors fuel IH (ent_id newFolder) kwargs _ _ _ _ _ Hloop)
      as (Hf4 & written & -> & Hm).
    assert (Hf34 : walk_frame w3 w')
      by (eapply walk_frame_trans; eassumption).
    assert (Hroot : copy_held w' entity (ent_id newFolder) destinationId).
    { destruct Hf34 as (_ & _ & _ & Hk).
      destruct (Hk newFolder Hnew) as (nf & Hnf & Kid & Kty & Kpar & _).
      exists src, nf. repeat split; try assumption; try congruence.
      left. congruence. }
    exists (written ++ [(entity, ent_id newFolder)])%list.
    split; [unfold dict_set; now rewrite <- app_assoc|].
    intros c v Hcv. apply in_app_iff in Hcv. destruct Hcv as [Hcv|[E|[]]].
    + right.
      destruct (Hm c v Hcv) as [[Hcs Hheld]|(p & vp & Hp & Hc & Hheld)].
      * exists entity, (ent_id newFolder).
        split; [apply in_app_iff; right; now left|].
        split.
        -- eapply child_ids_mono; [exact Hf5|].
           eapply child_ids_mono; [exact Hf4|exact Hcs].
        -- apply (copy_held_mono w4 w'); assumption.
      * exists p, vp. split; [apply in_app_iff; now left|].
        split; [apply (child_ids_mono w4 w'); assumption|].
        apply (copy_held_mono w4 w'); assumption.
    + inversion E; subst c v. left. split; [reflexivity | exact Hroot].
  - (* File *)
    destruct (str_in "file" (excludeTypes kwargs)); cbn [negb] in Hrun.
    + apply report_Ok in Hrun. destruct Hrun as [-> _].
      exists []. rewrite app_nil_r. split; [reflexivity|]. intros c v [].
    + apply bind_Ok in Hrun. destruct Hrun as (copiedId & w2 & Hcopy & Hrep).
      pose proof (keeps_Ok _ _ _ _ _ (keeps_report _ _ _) Hrep) as Hf5.
      apply report_Ok in Hrep. destruct Hrep as [-> _].
      apply _copyFile_Ok in Hcopy.
      destruct Hcopy as (new & Hnew & Hnid & Hnty & Hnpar).
      destruct Hf5 as (_ & _ & _ & Hk).
      destruct (Hk new Hnew) as (new' & Hnew' & Kid & Kty & Kpar & _).
      exists [(entity, copiedId)]. split; [reflexivity|].
      apply (leaf_mirrored w' entity destinationId src new');
        try assumption; congruence.
  - (* Link *)
    destruct (str_in "link" (excludeTypes kwargs)); cbn [negb] in Hrun.
    + apply report_Ok in Hrun. destruct Hrun as [-> _].
      exists []. rewrite app_nil_r. split; [reflexivity|]. intros c v [].
    + apply bind_Ok in Hrun. destruct Hrun as (copiedId & w2 & Hcopy & Hrep).
      destruct copiedId as [copiedId|].
      * pose proof (keeps_Ok _ _ _ _ _ (keeps_report _ _ _) Hrep) as Hf5.
        apply report_Ok in Hrep. destruct Hrep as [-> _].
        apply _copyLink_Ok in Hcopy.
        destruct Hcopy as (new & Hnew & Hnid & Hnty & Hnpar).
        destruct Hf5 as (_ & _ & _ & Hk).
        destruct (Hk new Hnew) as (new' & Hnew' & Kid & Kty & Kpar & _).
        exists [(entity, copiedId)]. split; [reflexivity|].
        apply (leaf_mirrored w' entity destinationId src new');
          try assumption; congruence.
      * apply report_Ok in Hrep. destruct Hrep as [-> _].
        exists []. rewrite app_nil_r. split; [reflexivity|]. intros c v [].
  - (* Schema *)
    destruct (str_in "table" (excludeTypes kwargs)); cbn [negb] in Hrun.
    + apply report_Ok in Hrun. destruct Hrun as [-> _].
      exists []. rewrite app_nil_r. split; [reflexivity|]. intros c v [].
    + apply bind_Ok in Hrun. destruct Hrun as (copiedId & w2 & Hcopy & Hrep).
      pose proof (keeps_Ok _ _ _ _ _ (keeps_report _ _ _) Hrep) as Hf5.
      apply report_Ok in Hrep. destruct Hrep as [-> _].
      apply _copyTable_Ok in Hcopy.
      destruct Hcopy as (new & Hnew & Hnid & Hnty & Hnpar).
      destruct Hf5 as (_ & _ & _ & Hk).
      destruct (Hk new Hnew) as (new' & Hnew' & Kid & Kty & Kpar & _).
      exists [(entity, copiedId)]. split; [reflexivity|].
      apply (leaf_mirrored w' entity destinationId src new');
        try assumption; congruence.
  - discriminate.
Qed.

Lemma copies_mirror_the_tree_witness :
  exists mapping' w' written,
    _copyRecursive 3 "syn1" "syn9" [] default_kwargs sample_world
    = Ok mapping' w'
    /\ mapping' = ([] ++ written)%list
    /\ mirrored w' "syn1" "syn9" written.
Proof.
  eexists. eexists.
  assert (Hrun : _copyRecursive 3 "syn1" "syn9" [] default_kwargs sample_world
                 = Ok ?[m] ?[w]) by (vm_compute; reflexivity).
  destruct (copies_mirror_the_tree _ _ _ _ _ _ _ _ Hrun)
    as (written & E & Hm).
  exists written. split; [exact Hrun|]. split; assumption.
Defined.

(** * Properties of the utility functions *)

(** ** Prefixes and runs of characters *)

Lemma strip_prefix_app p r : strip_prefix p (p ++ r) = Some r.
Proof.
  induction p as [|a p IH]; cbn; [reflexivity|].
  now rewrite Ascii.eqb_refl.
Qed.

Lemma strip_prefix_Some p s r : strip_prefix p s = Some r -> s = p ++ r.
Proof.
  revert s. induction p as [|a p IH]; intros s; cbn.
  - now intros [= ->].
  - destruct s as [|b s]; [discriminate|].
    destruct (Ascii.eqb_spec a b) as [->|_]; [|discriminate].
    intros H. now rewrite (IH s H).
Qed.

Lemma append_empty s : s ++ "" = s.
Proof. induction s as [|c s IH]; cbn; [reflexivity | now rewrite IH]. Qed.

Lemma digits_split s :
  exists rest, s = digits s ++ rest /\ digits rest = ""
               /\ digits (digits s) = digits s.
Proof.
  induction s as [|c s (rest & E & Hr & Hd)]; cbn.
  - exists "". auto.
  - destruct (is_digit c) eqn:Ec.
    + exists rest. cbn. rewrite Ec, Hd. rewrite <- E. auto.
    + exists (String c s). cbn. rewrite Ec. auto.
Qed.

Lemma digits_app ds rest :
  digits ds = ds -> digits rest = "" -> digits (ds ++ rest) = ds.
Proof.
  intros Hds Hrest. induction ds as [|c ds IH]; cbn in *; [assumption|].
  destruct (is_digit c); [|discriminate].
  inversion Hds as [E]. rewrite E. now rewrite (IH E).
Qed.

(** X12: [is_synapse_id] answers a string exactly when the string starts
    with [syn] and at least one digit, and then returns [syn] with the
    whole run of digits, whatever follows; what it returns is itself
    recognised, unchanged. *)
Theorem is_synapse_id_returns_leading_id :
  forall s m,
    (is_synapse_id (PyString s) = Some m
     <-> exists ds rest,
          ds <> "" /\ digits ds = ds /\ digits rest = ""
          /\ s = "syn" ++ ds ++ rest /\ m = "syn" ++ ds)
    /\ (is_synapse_id (PyString s) = Some m ->
        is_synapse_id (PyString m) = Some m).
Proof.
  assert (Hback : forall ds rest,
             ds <> "" -> digits ds = ds -> digits rest = "" ->
             is_synapse_id (PyString ("syn" ++ ds ++ rest))
             = Some ("syn" ++ ds)).
  { intros ds rest Hne Hds Hrest. unfold is_synapse_id.
    rewrite strip_prefix_app, (digits_app ds rest Hds Hrest).
    destruct ds; [contradiction|reflexivity]. }
  assert (Hforth : forall s m,
             is_synapse_id (PyString s) = Some m ->
             exists ds rest,
               ds <> "" /\ digits ds = ds /\ digits rest = ""
               /\ s = "syn" ++ ds ++ rest /\ m = "syn" ++ ds).
  { intros s m H. unfold is_synapse_id in H.
    destruct (strip_prefix "syn" s) as [tl|] eqn:Ep; [|discriminate].
    apply strip_prefix_Some in Ep.
    destruct (digits_split tl) as (rest & Etl & Hrest & Hdd).
    destruct (digits tl) as [|c ds] eqn:Ed; [discriminate|].
    inversion H; subst m.
    exists (String c ds), rest.
    split; [discriminate|]. split; [assumption|]. split; [assumption|].
    split; [|reflexivity]. rewrite Ep, Etl. reflexivity. }
  intros s m. split; [split|].
  - apply Hforth.
  - intros (ds & rest & Hne & Hds & Hrest & -> & ->). now apply Hback.
  - intros H. destruct (Hforth s m H) as (ds & rest & Hne & Hds & _ & _ & ->).
    rewrite <- (append_empty ds) at 1. now apply Hback.
Qed.

Lemma is_synapse_id_returns_leading_id_witness :
  is_synapse_id (PyString "syn123.4") = Some "syn123"
  /\ is_synapse_id (PyString "syn123") = Some "syn123".
Proof.
  destruct (is_synapse_id_returns_leading_id "syn123.4" "syn123")
    as [[_ Hback] Hidem].
  assert (H : is_synapse_id (PyString "syn123.4") = Some "syn123").
  { apply Hback. exists "123", ".4".
    split; [discriminate|]. repeat split; reflexivity. }
  split; [exact H | exact (Hidem H)].
Defined.

(** ** The file name of a content disposition *)

Lemma until_space_no_space s c :
  In c (list_ascii_of_string (until_space s)) -> c <> " "%char.
Proof.
  induction s as [|a s IH]; cbn; [contradiction|].
  destruct (Ascii.eqb_spec a " ") as [->|Hne]; cbn; [contradiction|].
  intros [<-|Hin]; [assumption | now apply IH].
Qed.

Lemma until_space_stops name rest :
  (forall c, In c (list_ascii_of_string name) -> c <> " "%char) ->
  rest = "" \/ (exists rest', rest = String " " rest') ->
  until_space (name ++ rest) = name.
Proof.
  intros Hname Hrest. induction name as [|a name IH]; cbn.
  - destruct Hrest as [->|(rest' & ->)]; reflexivity.
  - destruct (Ascii.eqb_spec a " ") as [->|_].
    + exfalso. apply (Hname " "%char); [now left | reflexivity].
    + rewrite IH; [reflexivity|]. intros c Hc. apply Hname. now right.
Qed.

Lemma strip_prefix_longer p a b :
  String.length p <= String.length a ->
  strip_prefix p (a ++ b)
  = match strip_prefix p a with
    | Some r => Some (r ++ b)
    | None => None
    end.
Proof.
  revert a. induction p as [|x p IH]; intros a Hlen; cbn; [reflexivity|].
  destruct a as [|y a]; [cbn in Hlen; lia|]. cbn.
  destruct (Ascii.eqb x y); [|reflexivity].
  apply IH. cbn in Hlen. lia.
Qed.

Lemma append_length a b :
  String.length (a ++ b) = String.length a + String.length b.
Proof. induction a as [|x a IH]; cbn; [reflexivity | now rewrite IH]. Qed.

Lemma append_assoc3 a b c : (a ++ b) ++ c = a ++ b ++ c.
Proof. induction a as [|x a IH]; cbn; [reflexivity | now rewrite IH]. Qed.

Lemma after_first_here pre x :
  after_first "filename=" (pre ++ "filename") = None ->
  after_first "filename=" (pre ++ "filename=" ++ x) = Some x.
Proof.
  induction pre as [|c pre IH]; intros Hnone; [reflexivity|].
  change (String c pre ++ "filename=" ++ x)
    with (String c (pre ++ "filename=" ++ x)).
  change (String c pre ++ "filename")
    with (String c (pre ++ "filename")) in Hnone.
  cbn [after_first] in Hnone |- *.
  assert (E : pre ++ "filename=" ++ x = (pre ++ "filename") ++ String "=" x)
    by (now rewrite append_assoc3).
  rewrite E.
  change (String c ((pre ++ "filename") ++ String "=" x))
    with (String c (pre ++ "filename") ++ String "=" x).
  rewrite strip_prefix_longer.
  2:{ cbn [String.length]. rewrite append_length. cbn. lia. }
  destruct (strip_prefix "filename=" (String c (pre ++ "filename")));
    [discriminate|].
  rewrite <- E. now apply IH.
Qed.

(** X13: [extract_filename] returns what follows the first [filename=] up
    to the next space or the end of the header, whatever stands before it,
    so a name without a space comes back as it was written (quotes
    included); and what it returns never holds a space. *)
Theorem extract_filename_finds_the_name :
  (forall pre name rest,
      after_first "filename=" (pre ++ "filename") = None ->
      (forall c, In c (list_ascii_of_string name) -> c <> " "%char) ->
      rest = "" \/ (exists rest', rest = String " " rest') ->
      extract_filename (pre ++ "filename=" ++ name ++ rest) = name)
  /\ forall content_disposition c,
      In c (list_ascii_of_string (extract_filename content_disposition)) ->
      c <> " "%char.
Proof.
  split.
  - intros pre name rest Hpre Hname Hrest. unfold extract_filename.
    rewrite (after_first_here pre (name ++ rest) Hpre).
    now apply until_space_stops.
  - intros cd c. unfold extract_filename.
    destruct (after_first "filename=" cd) as [rest|].
    + apply until_space_no_space.
    + cbn. intros H E. subst c.
      repeat (destruct H as [H|H]; [discriminate H|]). destruct H.
Qed.

Lemma extract_filename_finds_the_name_witness :
  extract_filename "attachment; filename=data.csv size=12" = "data.csv".
Proof.
  destruct extract_filename_finds_the_name as [Hname _].
  apply (Hname "attachment; " "data.csv" " size=12").
  - reflexivity.
  - intros c Hin E. subst c. cbn in Hin.
    repeat (destruct Hin as [Hin|Hin]; [discriminate Hin|]). destruct Hin.
  - right. exists "size=12". reflexivity.
Defined.

(** ** Time intervals *)

Lemma total_seconds_app a b :
  total_seconds (a ++ b)%list = (total_seconds a + total_seconds b)%Z.
Proof.
  unfold total_seconds.
  induction a as [|p a IH]; cbn [List.app fold_right]; [reflexivity|].
  rewrite IH. lia.
Qed.

(** One period: nothing is added, or one part that, with the seconds left,
    amounts to the seconds there were. *)
Lemma period_step_part result seconds period :
  (0 < snd period)%Z ->
  exists parts,
    period_step (result, seconds) period
    = ((result ++ map format_part parts)%list,
       (seconds - total_seconds parts)%Z)
    /\ (fst period <> "second" ->
        parts = [] \/ exists v, parts = [(v, period)] /\ (1 <= v)%Z)
    /\ (fst period = "second" ->
        parts = [((seconds / snd period)%Z, period)]).
Proof.
  intros Hunit. destruct period as [name unit]. cbn [fst snd] in *.
  unfold period_step. cbn [fst snd].
  pose proof (Z.div_mod seconds unit (Z.neq_sym _ _ (Z.lt_neq _ _ Hunit)))
    as Hdm.
  assert (Hone : (if (seconds / unit =? 1)%Z
                  then ((result
                         ++ [(str_of_Z (seconds / unit) ++ " "
                              ++ name)%string])%list,
                        (seconds mod unit)%Z)
                  else ((result
                         ++ [(str_of_Z (seconds / unit) ++ " " ++ name
                              ++ "s")%string])%list,
                        (seconds mod unit)%Z))
                 = ((result
                     ++ map format_part [((seconds / unit)%Z, (name, unit))])%list,
                    (seconds
                     - total_seconds [((seconds / unit)%Z, (name, unit))])%Z)).
  { cbn [map total_seconds fold_right fst snd]. unfold format_part.
    cbn [fst snd].
    replace (seconds - (seconds / unit * unit + 0))%Z
      with (seconds mod unit)%Z by lia.
    destruct (seconds / unit =? 1)%Z; reflexivity. }
  destruct (String.eqb_spec name "second") as [Hsec|Hsec].
  - rewrite !orb_true_r. eexists. split; [exact Hone|].
    split; [intros; contradiction | reflexivity].
  - rewrite !orb_false_r.
    destruct (seconds >? unit)%Z eqn:Egt.
    + assert (Hq : (1 <= seconds / unit)%Z)
        by (apply Z.div_le_lower_bound; lia).
      assert (Epos : (seconds / unit >? 0)%Z = true) by lia.
      rewrite Epos. eexists. split; [exact Hone|].
      split; [|intros; contradiction].
      intros _. right. eexists. split; [reflexivity | exact Hq].
    + exists []. cbn. rewrite app_nil_r, Z.sub_0_r.
      split; [reflexivity|]. split; [now left | intros; contradiction].
Qed.

Lemma periods_fold ps :
  Forall (fun period => (0 < snd period)%Z /\ fst period <> "second") ps ->
  forall result seconds,
    exists parts,
      fold_left period_step ps (result, seconds)
      = ((result ++ map format_part parts)%list,
         (seconds - total_seconds parts)%Z)
      /\ Forall (fun part => In (snd part) ps /\ (1 <= fst part)%Z) parts.
Proof.
  induction ps as [|period ps IH]; intros Hps result seconds.
  - exists []. cbn. rewrite app_nil_r, Z.sub_0_r. auto.
  - inversion Hps as [|? ? [Hunit Hname] Hrest]; subst.
    destruct (period_step_part result seconds period Hunit)
      as (parts1 & Hstep & Hfront & _).
    cbn [fold_left]. rewrite Hstep.
    destruct (IH Hrest (result ++ map format_part parts1)%list
                 (seconds - total_seconds parts1)%Z)
      as (parts2 & Hfold & Hall).
    exists (parts1 ++ parts2)%list. rewrite Hfold.
    split.
    + rewrite map_app, app_assoc, total_seconds_app. f_equal. lia.
    + apply Forall_app. split.
      * destruct (Hfront Hname) as [->|(v & -> & Hv)]; [constructor|].
        constructor; [|constructor]. cbn. auto.
      * eapply Forall_impl; [|exact Hall].
        intros part [Hin Hv]. split; [now right | assumption].
Qed.


(** ** Chunks of a file *)

Lemma chunks_loop_total fuel :
  forall remaining chunksize,
    (0 < chunksize)%Z -> (0 <= remaining < Z.of_nat fuel)%Z ->
    exists cs,
      chunks_loop fuel remaining chunksize = Chunks cs
      /\ map chunk_size cs = chunk_sizes remaining chunksize
      /\ Forall (fun c => chunk_position c = 0%Z /\ chunk_closed c = false) cs.
Proof.
  induction fuel as [|fuel IH]; intros remaining chunksize Hc Hr; [lia|].
  cbn [chunks_loop]. unfold chunk_sizes.
  destruct (remaining >? 0)%Z eqn:Epos.
  2:{ assert (remaining = 0%Z) by lia. subst remaining.
      exists []. rewrite Z.div_0_l, Z.mod_0_l by lia. cbn. auto. }
  cbn [new_chunk chunk_size].
  assert (Hneg : (Z.min remaining chunksize <? 0)%Z = false) by lia.
  rewrite Hneg.
  destruct (Z.le_gt_cases chunksize remaining) as [Hle|Hgt].
  - rewrite Z.min_r by lia.
    destruct (IH (remaining - chunksize)%Z chunksize Hc) as (cs & Hrun & Hs & Hf);
      [lia|].
    rewrite Hrun. eexists. split; [reflexivity|]. split.
    + cbn [map chunk_size new_chunk]. rewrite Hs. unfold chunk_sizes.
      replace (remaining - chunksize)%Z with (remaining + (-1) * chunksize)%Z
        by lia.
      rewrite Z.div_add, Z.mod_add by lia.
      assert (Hq : (1 <= remaining / chunksize)%Z)
        by (apply Z.div_le_lower_bound; lia).
      replace (Z.to_nat (remaining / chunksize))
        with (S (Z.to_nat (remaining / chunksize + -1))) by lia.
      reflexivity.
    + constructor; [cbn; auto | assumption].
  - rewrite Z.min_l by lia. rewrite Z.sub_diag.
    destruct (IH 0%Z chunksize Hc) as (cs & Hrun & Hs & Hf); [lia|].
    rewrite Hrun. eexists. split; [reflexivity|].
    destruct fuel as [|fuel]; [lia|]. cbn in Hrun. inversion Hrun; subst cs.
    rewrite Z.div_small, Z.mod_small by lia.
    assert (Hnz : (remaining =? 0)%Z = false) by lia. rewrite Hnz.
    split; [reflexivity|]. repeat constructor.
Qed.

(** X15: for a positive [chunksize], [chunks] cuts a file of [n] bytes
    into [n / chunksize] chunks of [chunksize] bytes and, when [n] is not a
    multiple, a last one for the rest, all new and open; an empty file has
    no chunk.  A negative [chunksize] makes [len(chunk)] fail before the
    first chunk is yielded, and with [chunksize] 0 the generator of a file
    that is not empty never ends. *)
Theorem chunks_cut_the_file :
  forall fuel fileobj chunksize,
    let n := Z.of_nat (List.length (file_bytes fileobj)) in
    ((0 < chunksize)%Z -> List.length (file_bytes fileobj) < fuel ->
     exists cs,
       chunks fuel fileobj chunksize = Chunks cs
       /\ map chunk_size cs = chunk_sizes n chunksize
       /\ Forall (fun c => chunk_position c = 0%Z /\ chunk_closed c = false)
                 cs)
    /\ ((chunksize < 0)%Z -> (0 < n)%Z ->
        chunks (S fuel) fileobj chunksize = ChunksValueError [])
    /\ (chunksize = 0%Z -> (0 < n)%Z ->
        chunks fuel fileobj chunksize = ChunksOutOfFuel).
Proof.
  intros fuel fileobj chunksize n. unfold chunks. fold n.
  split; [|split].
  - intros Hc Hfuel. apply chunks_loop_total; [assumption|]. subst n. lia.
  - intros Hc Hn. cbn [chunks_loop].
    assert (E1 : (n >? 0)%Z = true) by lia. rewrite E1.
    cbn [new_chunk chunk_size].
    assert (E2 : (Z.min n chunksize <? 0)%Z = true) by lia.
    now rewrite E2.
  - intros -> Hn. induction fuel as [|fuel IH]; [reflexivity|].
    cbn [chunks_loop].
    assert (E1 : (n >? 0)%Z = true) by lia. rewrite E1.
    cbn [new_chunk chunk_size].
    rewrite Z.min_r by lia. cbn [Z.ltb Z.compare].
    rewrite Z.sub_0_r. now rewrite IH.
Qed.

Lemma chunks_cut_the_file_witness :
  exists cs,
    chunks 11 (mkFileObj (repeat x00 10) 0) 4 = Chunks cs
    /\ map chunk_size cs = [4; 4; 2]%Z.
Proof.
  destruct (chunks_cut_the_file 11 (mkFileObj (repeat x00 10) 0) 4%Z)
    as (Hcut & _).
  destruct Hcut as (cs & Hrun & Hsizes & _); [lia | cbn; lia |].
  exists cs. split; [exact Hrun | exact Hsizes].
Defined.

(** ** Reading the chunks *)

Lemma firstn_add_skipn {A : Type} (a b : nat) (l : list A) :
  firstn (a + b) l = (firstn a l ++ firstn b (skipn a l))%list.
Proof.
  revert l. induction a as [|a IH]; intros l; [reflexivity|].
  destruct l as [|x l]; cbn.
  - now rewrite firstn_nil.
  - now rewrite IH.
Qed.

Lemma skipn_add {A : Type} (a b : nat) (l : list A) :
  skipn (a + b) l = skipn b (skipn a l).
Proof.
  revert l. induction a as [|a IH]; intros l; [reflexivity|].
  destruct l as [|x l]; cbn; [now rewrite skipn_nil | apply IH].
Qed.

(** The chunks [chunks] yields are new, open and not empty, and their
    sizes add up to the bytes that remained. *)
Lemma chunks_loop_sizes fuel :
  forall remaining chunksize cs,
    (0 < chunksize)%Z -> (0 <= remaining)%Z ->
    chunks_loop fuel remaining chunksize = Chunks cs ->
    Forall (fun c => chunk_position c = 0%Z /\ chunk_closed c = false
                     /\ (0 < chunk_size c <= chunksize)%Z) cs
    /\ fold_right Z.add 0%Z (map chunk_size cs) = remaining.
Proof.
  induction fuel as [|fuel IH]; intros remaining chunksize cs Hc Hr Hrun;
    [discriminate|].
  cbn [chunks_loop] in Hrun.
  destruct (remaining >? 0)%Z eqn:Epos.
  2:{ inversion Hrun; subst cs. cbn. split; [constructor | lia]. }
  cbn [new_chunk chunk_size] in Hrun.
  destruct (Z.min remaining chunksize <? 0)%Z; [discriminate|].
  destruct (chunks_loop fuel (remaining - Z.min remaining chunksize)
                        chunksize) as [cs'| |] eqn:Erest; try discriminate.
  inversion Hrun; subst cs. clear Hrun.
  assert (Hr' : (0 <= remaining - Z.min remaining chunksize)%Z) by lia.
  destruct (IH _ _ _ Hc Hr' Erest) as [Hall Hsum].
  split.
  - constructor; [cbn; repeat split; lia | assumption].
  - cbn [map fold_right chunk_size new_chunk]. rewrite Hsum. lia.
Qed.

Lemma read_whole_chunk chunk bytes offset :
  chunk_position chunk = 0%Z -> chunk_closed chunk = false ->
  (0 < chunk_size chunk)%Z ->
  offset + Z.to_nat (chunk_size chunk) <= List.length bytes ->
  Chunk_read None chunk (mkFileObj bytes offset)
  = (Some (firstn (Z.to_nat (chunk_size chunk)) (skipn offset bytes)),
     (mkChunk (chunk_size chunk) (chunk_size chunk) false,
      mkFileObj bytes (offset + Z.to_nat (chunk_size chunk)))).
Proof.
  intros Hp Hcl Hs Hlen. unfold Chunk_read. rewrite Hp, Hcl, Z.sub_0_r.
  assert (E : (chunk_size chunk <=? 0)%Z = false) by lia. rewrite E.
  cbn [orb file_read fst snd file_bytes file_offset Z.add].
  rewrite length_firstn, length_skipn, Nat.min_l by lia.
  reflexivity.
Qed.

Lemma read_chunks_in_turn bytes cs :
  forall offset,
    Forall (fun c => chunk_position c = 0%Z /\ chunk_closed c = false
                     /\ (0 < chunk_size c)%Z) cs ->
    offset + Z.to_nat (fold_right Z.add 0%Z (map chunk_size cs))
    <= List.length bytes ->
    exists pieces,
      read_chunks cs (mkFileObj bytes offset)
      = (map Some pieces,
         mkFileObj bytes
           (offset + Z.to_nat (fold_right Z.add 0%Z (map chunk_size cs))))
      /\ concat pieces
         = firstn (Z.to_nat (fold_right Z.add 0%Z (map chunk_size cs)))
                  (skipn offset bytes)
      /\ map (fun piece => Z.of_nat (List.length piece)) pieces
         = map chunk_size cs.
Proof.
  induction cs as [|chunk cs IH]; intros offset Hall Hlen.
  - exists []. cbn. rewrite Nat.add_0_r. auto.
  - inversion Hall as [|? ? (Hp & Hcl & Hs) Hrest]; subst.
    cbn [map fold_right] in Hlen |- *.
    assert (Hsum : (0 <= fold_right Z.add 0 (map chunk_size cs))%Z).
    { clear - Hrest. induction Hrest as [|c cs (_ & _ & Hc) _ IH]; cbn; lia. }
    rewrite Z2Nat.inj_add in Hlen |- * by lia.
    cbn [read_chunks].
    rewrite (read_whole_chunk chunk bytes offset Hp Hcl Hs) by lia.
    cbn [fst snd].
    destruct (IH (offset + Z.to_nat (chunk_size chunk)) Hrest)
      as (pieces & Hrun & Hcat & Hlens); [lia|].
    rewrite Hrun. cbn [fst snd].
    exists (firstn (Z.to_nat (chunk_size chunk)) (skipn offset bytes)
            :: pieces).
    split; [|split].
    + cbn [map]. now rewrite Nat.add_assoc.
    + cbn [concat]. rewrite Hcat, firstn_add_skipn. f_equal. f_equal.
      now rewrite <- skipn_add, Nat.add_comm.
    + cbn [map]. rewrite Hlens. f_equal.
      rewrite length_firstn, length_skipn, Nat.min_l by lia. lia.
Qed.

(** X16: the chunks of a file share its file object, so read in the order
    in which [chunks] yields them, each with one [read()], they hand out
    the file piece by piece: every chunk returns as many bytes as its size,
    the pieces put together are the bytes of the file, and the file object
    ends at the end of the file. *)
Theorem reading_the_chunks_gives_the_file :
  forall fuel bytes chunksize cs,
    (0 < chunksize)%Z ->
    chunks fuel (mkFileObj bytes 0) chunksize = Chunks cs ->
    exists pieces,
      read_chunks cs (mkFileObj bytes 0)
      = (map Some pieces, mkFileObj bytes (List.length bytes))
      /\ concat pieces = bytes
      /\ map (fun piece => Z.of_nat (List.length piece)) pieces
         = map chunk_size cs.
Proof.
  intros fuel bytes chunksize cs Hc Hrun. unfold chunks in Hrun.
  cbn [file_bytes] in Hrun.
  destruct (chunks_loop_sizes fuel _ _ _ Hc (Nat2Z.is_nonneg _) Hrun)
    as [Hall Hsum].
  destruct (read_chunks_in_turn bytes cs 0) as (pieces & Hread & Hcat & Hlens).
  - eapply Forall_impl; [|exact Hall]. cbn. intros c (Hp & Hcl & Hs & _).
    auto.
  - rewrite Hsum, Nat2Z.id. lia.
  - exists pieces. rewrite Hsum, Nat2Z.id in Hread, Hcat.
    cbn [skipn Nat.add] in Hread, Hcat. rewrite firstn_all in Hcat.
    auto.
Qed.

Lemma reading_the_chunks_gives_the_file_witness :
  exists pieces,
    read_chunks [new_chunk 2; new_chunk 1] (mkFileObj [x61; x62; x63] 0)
    = (map Some pieces, mkFileObj [x61; x62; x63] 3)
    /\ concat pieces = [x61; x62; x63].
Proof.
  destruct (reading_the_chunks_gives_the_file 4 [x61; x62; x63] 2
              [new_chunk 2; new_chunk 1]) as (pieces & Hread & Hcat & _).
  - lia.
  - reflexivity.
  - exists pieces. split; assumption.
Defined.

(** ** What a chunk hands out *)

Lemma Chunk_read_bounded size self fileobj :
  (0 <= chunk_position self <= chunk_size self)%Z ->
  let r := Chunk_read size self fileobj in
  chunk_size (fst (snd r)) = chunk_size self
  /\ chunk_closed (fst (snd r)) = chunk_closed self
  /\ (chunk_position self <= chunk_position (fst (snd r))
      <= chunk_size self)%Z
  /\ (Z.of_nat (match fst r with
                | Some data => List.length data
                | None => 0
                end)
      <= chunk_position (fst (snd r)) - chunk_position self)%Z
  /\ (chunk_closed self = true -> r = (None, (self, fileobj))).
Proof.
  intros Hinv. unfold Chunk_read.
  set (e := match size with
            | Some size0 =>
                if (size0 <=? 0)%Z
                then (chunk_size self - chunk_position self)%Z
                else Z.min size0 (chunk_size self - chunk_position self)
            | None => (chunk_size self - chunk_position self)%Z
            end).
  assert (He : (e <= chunk_size self - chunk_position self)%Z).
  { subst e. destruct size as [n|]; [|lia].
    destruct (n <=? 0)%Z; lia. }
  destruct (chunk_closed self) eqn:Ecl; cbn [orb].
  - cbn. repeat split; try lia; auto.
  - destruct (e <=? 0)%Z eqn:Epos.
    + cbn. repeat split; try lia; auto; discriminate.
    + cbn [fst snd chunk_size chunk_position chunk_closed file_read].
      repeat split; try lia; try discriminate.
      rewrite length_firstn. lia.
Qed.

(** X17: however a chunk is read, with whatever sizes and however often,
    it never hands out more bytes than lie between its position and its
    size, its position never passes its size, and once it is closed every
    read returns [None] and moves nothing. *)
Theorem chunk_never_reads_past_its_size :
  forall sizes self fileobj,
    (0 <= chunk_position self <= chunk_size self)%Z ->
    let r := read_many sizes self fileobj in
    (Z.of_nat (bytes_read (fst r))
     <= chunk_size self - chunk_position self)%Z
    /\ (chunk_position self <= chunk_position (fst (snd r))
        <= chunk_size self)%Z
    /\ (chunk_closed self = true ->
        Forall (fun result => result = None) (fst r)
        /\ snd r = (self, fileobj)).
Proof.
  induction sizes as [|size sizes IH]; intros self fileobj Hinv.
  - cbn. repeat split; try lia; auto.
  - cbn [read_many fst snd].
    destruct (Chunk_read_bounded size self fileobj Hinv)
      as (Hsize & Hclosed & Hpos & Hdata & Hcl).
    set (r1 := Chunk_read size self fileobj) in *.
    destruct (IH (fst (snd r1)) (snd (snd r1))) as (Hbytes & Hpos' & Hcl');
      [lia|].
    set (rest := read_many sizes (fst (snd r1)) (snd (snd r1))) in *.
    split; [|split].
    + unfold bytes_read in *. cbn [map list_sum fold_right].
      change (fold_right Nat.add 0
                (map (fun r => match r with
                               | Some data => List.length data
                               | None => 0
                               end) (fst rest)))
        with (list_sum (map (fun r => match r with
                                      | Some data => List.length data
                                      | None => 0
                                      end) (fst rest))).
      lia.
    + lia.
    + intros Hc. specialize (Hcl Hc).
      assert (E1 : fst r1 = None) by (now rewrite Hcl).
      assert (E2 : snd r1 = (self, fileobj)) by (now rewrite Hcl).
      destruct Hcl' as [Hall Hsame]; [now rewrite Hclosed|].
      split; [constructor; assumption|].
      rewrite Hsame, E2. reflexivity.
Qed.

Lemma chunk_never_reads_past_its_size_witness :
  (Z.of_nat (bytes_read
               (fst (read_many [Some 3; None; Some 5]%Z (new_chunk 4)
                               (mkFileObj [x61; x62; x63; x64; x65] 0))))
   <= 4)%Z.
Proof.
  destruct (chunk_never_reads_past_its_size [Some 3; None; Some 5]%Z
              (new_chunk 4) (mkFileObj [x61; x62; x63; x64; x65] 0))
    as (Hbytes & _); [cbn; lia|].
  exact Hbytes.
Defined.

(** ** Iterating over a chunk *)

Lemma firstn_nonempty {A : Type} (n : nat) (l : list A) :
  0 < n -> 0 < List.length l -> firstn n l <> [].
Proof.
  destruct n as [|n], l as [|x l]; cbn; intros Hn Hl; try lia.
  discriminate.
Qed.

Lemma Chunk_iterate_rest bytes fuel :
  forall size position offset,
    (0 <= position <= size)%Z ->
    offset + Z.to_nat (size - position) <= List.length bytes ->
    Z.to_nat (size - position) < fuel ->
    exists pieces,
      Chunk_iterate fuel (mkChunk size position false)
                    (mkFileObj bytes offset)
      = Some (pieces,
              (mkChunk size size false,
               mkFileObj bytes (offset + Z.to_nat (size - position))))
      /\ concat pieces
         = firstn (Z.to_nat (size - position)) (skipn offset bytes)
      /\ Forall (fun piece =>
                   0 < List.length piece
                   /\ (Z.of_nat (List.length piece) <= BUFFER_SIZE)%Z)
                pieces.
Proof.
  induction fuel as [|fuel IH]; intros size position offset Hp Hlen Hfuel;
    [lia|].
  cbn [Chunk_iterate]. unfold Chunk_next, Chunk_read.
  cbn [chunk_closed chunk_size chunk_position orb].
  assert (HB : (BUFFER_SIZE <=? 0)%Z = false) by reflexivity. rewrite HB.
  set (e := Z.min BUFFER_SIZE (size - position)).
  destruct (e <=? 0)%Z eqn:Ee.
  - assert (position = size) by (unfold BUFFER_SIZE in *; lia). subst position.
    cbn [fst snd]. rewrite Z.sub_diag. cbn [Z.to_nat firstn concat].
    exists []. rewrite Nat.add_0_r. auto.
  - assert (He : (0 < e <= size - position)%Z) by lia.
    assert (HeB : (e <= BUFFER_SIZE)%Z) by lia.
    clearbody e.
    cbn [fst snd file_read file_bytes file_offset].
    destruct (firstn (Z.to_nat e) (skipn offset bytes)) as [|b data']
      eqn:Edata.
    { exfalso. apply (firstn_nonempty (Z.to_nat e) (skipn offset bytes));
        [lia | rewrite length_skipn; lia | exact Edata]. }
    assert (Hdata : List.length (b :: data') = Z.to_nat e).
    { rewrite <- Edata, length_firstn, length_skipn. apply Nat.min_l. lia. }
    cbn [fst snd].
    destruct (IH size (position + e)%Z (offset + List.length (b :: data')))
      as (pieces & Hrun & Hcat & Hall); try lia.
    rewrite Hrun. cbn [fst snd].
    exists ((b :: data') :: pieces). split; [|split].
    + rewrite Hdata.
      replace (offset + Z.to_nat e + Z.to_nat (size - (position + e)))
        with (offset + Z.to_nat (size - position)) by lia.
      reflexivity.
    + cbn [concat]. rewrite Hcat.
      replace (Z.to_nat (size - position))
        with (Z.to_nat e + Z.to_nat (size - (position + e))) by lia.
      rewrite firstn_add_skipn, Edata, Hdata. f_equal. f_equal.
      now rewrite <- skipn_add, Nat.add_comm.
    + constructor; [|assumption]. rewrite Hdata. lia.
Qed.

(** X18: iterating over a new chunk that lies within the file yields
    buffers of at most [BUFFER_SIZE] bytes, none empty, which put together
    are the bytes of the chunk, from where the file object stood; the chunk
    ends at its size and the file object past the chunk. *)
Theorem iterating_a_chunk_gives_its_bytes :
  forall fuel size bytes offset,
    (0 <= size)%Z ->
    offset + Z.to_nat size <= List.length bytes ->
    Z.to_nat size < fuel ->
    exists pieces,
      Chunk_iterate fuel (new_chunk size) (mkFileObj bytes offset)
      = Some (pieces,
              (mkChunk size size false,
               mkFileObj bytes (offset + Z.to_nat size)))
      /\ concat pieces = firstn (Z.to_nat size) (skipn offset bytes)
      /\ Forall (fun piece =>
                   0 < List.length piece
                   /\ (Z.of_nat (List.length piece) <= BUFFER_SIZE)%Z)
                pieces.
Proof.
  intros fuel size bytes offset Hs Hlen Hfuel. unfold new_chunk.
  destruct (Chunk_iterate_rest bytes fuel size 0%Z offset)
    as (pieces & Hrun & Hcat & Hall);
    rewrite ?Z.sub_0_r; try lia.
  exists pieces. rewrite Z.sub_0_r in Hrun, Hcat. auto.
Qed.

Lemma iterating_a_chunk_gives_its_bytes_witness :
  exists pieces,
    Chunk_iterate 3 (new_chunk 2) (mkFileObj [x61; x62; x63] 1)
    = Some (pieces, (mkChunk 2 2 false, mkFileObj [x61; x62; x63] 3))
    /\ concat pieces = [x62; x63].
Proof.
  destruct (iterating_a_chunk_gives_its_bytes 3 2 [x61; x62; x63] 1)
    as (pieces & Hrun & Hcat & _); [lia | cbn; lia | cbn; lia |].
  exists pieces. split; assumption.
Defined.

(** ** Subclasses *)

Section Subclasses.
Variable C : Type.
Variable C_eqb : C -> C -> bool.
Hypothesis C_eqb_eq : forall x y, C_eqb x y = true <-> x = y.
Variable subclasses_of : C -> list C.

Lemma seen_In x seen : existsb (C_eqb x) seen = true <-> In x seen.
Proof.
  rewrite existsb_exists. split.
  - intros (y & Hy & E). apply C_eqb_eq in E. now subst.
  - intros H. exists x. split; [assumption | now apply C_eqb_eq].
Qed.

Lemma seen_not_In x seen : existsb (C_eqb x) seen = false <-> ~ In x seen.
Proof.
  rewrite <- seen_In. destruct (existsb (C_eqb x) seen); split; intros H;
    try reflexivity; try discriminate; try (intros E; discriminate).
  exfalso. now apply H.
Qed.

Lemma unseen_mono us seen seen' :
  incl seen seen' ->
  List.length (unseen C_eqb us seen') <= List.length (unseen C_eqb us seen).
Proof.
  intros Hincl. unfold unseen.
  induction us as [|u us IH]; cbn [filter]; [lia|].
  destruct (existsb (C_eqb u) seen') eqn:E'; cbn [negb].
  - destruct (existsb (C_eqb u) seen); cbn [negb List.length]; lia.
  - apply seen_not_In in E'.
    assert (E : existsb (C_eqb u) seen = false).
    { apply seen_not_In. intros H. apply E'. now apply Hincl. }
    rewrite E. cbn [negb List.length]. lia.
Qed.

Lemma unseen_less us sub seen :
  In sub us -> ~ In sub seen ->
  List.length (unseen C_eqb us (sub :: seen))
  < List.length (unseen C_eqb us seen).
Proof.
  intros Hin Hnew.
  induction us as [|u us IH]; [contradiction|].
  assert (Hle := unseen_mono us seen (sub :: seen) (incl_tl sub (incl_refl seen))).
  unfold unseen in *. cbn [filter].
  destruct Hin as [->|Hin].
  - assert (E : existsb (C_eqb sub) (sub :: seen) = true).
    { apply seen_In. now left. }
    rewrite E. cbn [negb].
    apply seen_not_In in Hnew. rewrite Hnew. cbn [negb List.length]. lia.
  - specialize (IH Hin).
    destruct (existsb (C_eqb u) (sub :: seen)) eqn:E1; cbn [negb];
      destruct (existsb (C_eqb u) seen) eqn:E2; cbn [negb List.length];
      try lia.
    exfalso. apply seen_not_In in E1. apply seen_In in E2.
    apply E1. now right.
Qed.

Lemma below_child cls sub x :
  In sub (subclasses_of cls) -> subclass_below subclasses_of sub x ->
  subclass_below subclasses_of cls x.
Proof.
  intros Hsub H. induction H as [x Hx | y x Hy IH Hx].
  - apply below_step with sub; [now apply below_direct | assumption].
  - apply below_step with y; assumption.
Qed.

Variable universe : list C.
Hypothesis universe_closed :
  forall x y, In x universe -> In y (subclasses_of x) -> In y universe.

Section SubclassLoop.
Variable fuel : nat.
Variable rec : C -> list C -> option (list C * list C).
Hypothesis rec_ok : forall cls seen,
  In cls universe -> List.length (unseen C_eqb universe seen) < fuel ->
  exists out seen',
    rec cls seen = Some (out, seen') /\
    yielded_ok subclasses_of (subclass_below subclasses_of cls) seen out seen' /\
    (forall y, In y (subclasses_of cls) -> In y seen').

Lemma subclasses_loop_ok subs : forall seen,
  (forall s, In s subs -> In s universe) ->
  List.length (unseen C_eqb universe seen) <= fuel ->
  exists out seen',
    subclasses_loop C_eqb rec subs seen = Some (out, seen') /\
    yielded_ok subclasses_of (fun x => exists s, In s subs /\
                  (x = s \/ subclass_below subclasses_of s x))
               seen out seen' /\
    (forall s, In s subs -> In s seen').
Proof.
  induction subs as [|sub rest IH]; intros seen Hu Hfuel; cbn [subclasses_loop].
  - exists [], seen. split; [reflexivity|]. split.
    + repeat split.
      * constructor.
      * destruct H.
      * destruct H.
      * now left.
      * intros [H|[]]; assumption.
      * intros x y [].
    + intros s [].
  - destruct (existsb (C_eqb sub) seen) eqn:Eseen.
    + apply seen_In in Eseen.
      destruct (IH seen (fun s H => Hu s (or_intror H)) Hfuel)
        as (out & seen' & Erun & (Hnd & Hnew & Hseen & Hcl) & Hsubs).
      exists out, seen'. split; [assumption|]. split.
      * split; [assumption|]. split; [|split; assumption].
        intros x Hx. destruct (Hnew x Hx) as (Hn & s & Hs & Hfrom).
        split; [assumption|]. exists s. split; [now right | assumption].
      * intros s [<-|Hs]; [apply Hseen; now left | now apply Hsubs].
    + apply seen_not_In in Eseen.
      assert (Hsub_u : In sub universe) by (apply Hu; now left).
      assert (Hless := unseen_less universe sub seen Hsub_u Eseen).
      destruct (rec_ok sub (sub :: seen) Hsub_u ltac:(lia))
        as (out1 & seen1 & Erec & (Hnd1 & Hnew1 & Hseen1 & Hcl1) & Hch1).
      rewrite Erec.
      assert (Hincl1 : incl seen seen1).
      { intros x Hx. apply Hseen1. left. now right. }
      assert (Hfuel1 := unseen_mono universe seen seen1 Hincl1).
      destruct (IH seen1 (fun s H => Hu s (or_intror H)) ltac:(lia))
        as (out2 & seen2 & Erun & (Hnd2 & Hnew2 & Hseen2 & Hcl2) & Hsubs2).
      rewrite Erun.
      exists (sub :: out1 ++ out2)%list, seen2. split; [reflexivity|].
      assert (Hsub1 : In sub seen1) by (apply Hseen1; left; now left).
      split; [split; [|split; [|split]]|].
      * constructor.
        -- intros Hin. apply in_app_or in Hin. destruct Hin as [Hin|Hin].
           ++ apply (Hnew1 sub Hin). now left.
           ++ now apply (Hnew2 sub Hin).
        -- apply NoDup_app; try assumption.
           intros x Hx1 Hx2. apply (Hnew2 x Hx2). apply Hseen1. now right.
      * intros x [<-|Hx].
        -- split; [assumption|]. exists sub. split; [now left | now left].
        -- apply in_app_or in Hx. destruct Hx as [Hx|Hx].
           ++ destruct (Hnew1 x Hx) as (Hn & Hb). split.
              ** intros H. apply Hn. now right.
              ** exists sub. split; [now left | now right].
           ++ destruct (Hnew2 x Hx) as (Hn & s & Hs & Hfrom). split.
              ** intros H. apply Hn. now apply Hincl1.
              ** exists s. split; [now right | assumption].
      * intros x. rewrite Hseen2, Hseen1. cbn [In]. rewrite in_app_iff.
        tauto.
      * intros x y [<-|Hx] Hy.
        -- apply Hseen2. left. now apply Hch1.
        -- apply in_app_or in Hx. destruct Hx as [Hx|Hx].
           ++ apply Hseen2. left. now apply (Hcl1 x).
           ++ now apply (Hcl2 x).
      * intros s [<-|Hs].
        -- apply Hseen2. now left.
        -- now apply Hsubs2.
Qed.
End SubclassLoop.

Lemma itersubclasses_ok fuel : forall cls seen,
  In cls universe -> List.length (unseen C_eqb universe seen) < fuel ->
  exists out seen',
    itersubclasses C_eqb subclasses_of fuel cls seen = Some (out, seen') /\
    yielded_ok subclasses_of (subclass_below subclasses_of cls) seen out seen' /\
    (forall y, In y (subclasses_of cls) -> In y seen').
Proof.
  induction fuel as [|fuel IH]; intros cls seen Hcls Hfuel; [lia|].
  cbn [itersubclasses].
  destruct (subclasses_loop_ok fuel _ IH (subclasses_of cls) seen
              (fun s H => universe_closed cls s Hcls H) ltac:(lia))
    as (out & seen' & Erun & (Hnd & Hnew & Hseen & Hcl) & Hsubs).
  exists out, seen'. split; [assumption|]. split; [|assumption].
  split; [assumption|]. split; [|split; assumption].
  intros x Hx. destruct (Hnew x Hx) as (Hn & s & Hs & [->|Hb]).
  - split; [assumption | now apply below_direct].
  - split; [assumption | now apply below_child with s].
Qed.

(** X19 ([itersubclasses]): in a finite hierarchy ([universe] holds [cls]
    and the subclasses of each of its classes), the generator started
    without [_seen] runs to its end once the fuel exceeds the number of
    classes, and yields every subclass of [cls], direct or not, exactly
    once and nothing else; a class reached along several paths, or [cls]
    itself on a cycle, is not yielded twice. *)
Theorem itersubclasses_yields_each_subclass_once (cls : C) (fuel : nat) :
  In cls universe ->
  List.length universe < fuel ->
  exists out seen',
    itersubclasses C_eqb subclasses_of fuel cls [] = Some (out, seen') /\
    NoDup out /\
    (forall x, In x out <-> subclass_below subclasses_of cls x).
Proof.
  intros Hcls Hfuel.
  assert (Hlen : List.length (unseen C_eqb universe []) < fuel).
  { unfold unseen. pose proof (filter_length_le
      (fun x => negb (existsb (C_eqb x) [])) universe). lia. }
  destruct (itersubclasses_ok fuel cls [] Hcls Hlen)
    as (out & seen' & Erun & (Hnd & Hnew & Hseen & Hcl) & Hsubs).
  exists out, seen'. split; [assumption|]. split; [assumption|].
  assert (Hout : forall x, In x seen' -> In x out).
  { intros x Hx. apply Hseen in Hx. destruct Hx as [[]|Hx]. assumption. }
  intros x. split.
  - intros Hx. now apply Hnew.
  - intros Hb. apply Hout. induction Hb as [x Hx | y x Hy IH Hx].
    + now apply Hsubs.
    + apply (Hcl y x); [apply Hout, IH | assumption].
Qed.
End Subclasses.

Lemma itersubclasses_yields_each_subclass_once_witness :
  exists out seen',
    itersubclasses String.eqb docstring_subclasses 6 "A" []
    = Some (out, seen') /\
    NoDup out /\
    (forall x, In x out <-> subclass_below docstring_subclasses "A" x).
Proof.
  apply (itersubclasses_yields_each_subclass_once string String.eqb
           String.eqb_eq docstring_subclasses ["A"; "B"; "C"; "D"; "E"]).
  - intros x y Hx Hy. cbn [In] in Hx.
    destruct Hx as [<-|[<-|[<-|[<-|[<-|[]]]]]]; cbn in Hy;
      repeat (destruct Hy as [<-|Hy]; [cbn; tauto|]); destruct Hy.
  - cbn. tauto.
  - cbn. lia.
Defined.

(** ** What a wiki copy leaves as it is *)

Section KeepsTo.
Variable R : World -> World -> Prop.
Hypothesis R_refl : forall w, R w w.
Hypothesis R_trans : forall w1 w2 w3, R w1 w2 -> R w2 w3 -> R w1 w3.

Lemma keeps_to_ret {A : Type} (P : A -> Prop) (a : A) :
  P a -> keeps_to R P (ret a).
Proof. intros H w. split; [apply R_refl | assumption]. Qed.

Lemma keeps_to_raise {A : Type} (P : A -> Prop) (e : Exn) :
  keeps_to R P (raise e).
Proof. intros w. apply R_refl. Qed.

Lemma keeps_to_bind {A B : Type} (P : A -> Prop) (Q : B -> Prop)
  (c : M A) (k : A -> M B) :
  keeps_to R P c -> (forall a, P a -> keeps_to R Q (k a)) ->
  keeps_to R Q (bind c k).
Proof.
  intros Hc Hk w. unfold bind. specialize (Hc w).
  destruct (c w) as [a w1|e w1|]; [|assumption|exact I].
  destruct Hc as (HR & HP). specialize (Hk a HP w1).
  destruct (k a w1) as [b w2|e w2|]; try exact I.
  - destruct Hk as (HR2 & HQ). split; [eapply R_trans; eassumption|assumption].
  - eapply R_trans; eassumption.
Qed.

Lemma keeps_to_for_each {A S : Type} (Inv : S -> Prop) (xs : list A)
  (body : S -> A -> M S) :
  (forall acc x, Inv acc -> keeps_to R Inv (body acc x)) ->
  forall acc, Inv acc -> keeps_to R Inv (for_each xs body acc).
Proof.
  intros Hbody. induction xs as [|x xs IH]; intros acc Hacc; cbn [for_each].
  - now apply keeps_to_ret.
  - apply keeps_to_bind with Inv; auto.
Qed.

Lemma keeps_to_weaken {A : Type} (P Q : A -> Prop) (c : M A) :
  (forall a, P a -> Q a) -> keeps_to R P c -> keeps_to R Q c.
Proof.
  intros HPQ Hc w. specialize (Hc w).
  destruct (c w); try assumption. destruct Hc. split; auto.
Qed.

Lemma keeps_to_keeps {A : Type} (P : A -> Prop) (c : M A) :
  keeps_to R P c -> keeps R c.
Proof.
  intros Hc w. specialize (Hc w). destruct (c w); try assumption.
  now destruct Hc.
Qed.

Lemma keeps_keeps_to {A : Type} (c : M A) :
  keeps R c -> keeps_to R (fun _ => True) c.
Proof.
  intros Hc w. specialize (Hc w). destruct (c w); try assumption.
  now split.
Qed.
End KeepsTo.

Lemma keeps_weaken {A : Type} (R R' : World -> World -> Prop) (c : M A) :
  (forall w w', R w w' -> R' w w') -> keeps R c -> keeps R' c.
Proof.
  intros HR Hc w. specialize (Hc w). destruct (c w); auto.
Qed.

Lemma wiki_frame_refl dest w : wiki_frame dest w w.
Proof. repeat split; auto. Qed.

Lemma wiki_frame_trans dest w1 w2 w3 :
  wiki_frame dest w1 w2 -> wiki_frame dest w2 w3 -> wiki_frame dest w1 w3.
Proof.
  intros (He1 & Hp1 & Ho1 & Hf1) (He2 & Hp2 & Ho2 & Hf2).
  repeat split; try congruence.
  - intros owner Hne. rewrite (Ho2 owner Hne). now apply Ho1.
  - intros i Hi. apply Hf2, Hf1, Hi.
Qed.

(** A step that touches neither the entities, the provenance records nor
    the pages. *)
Lemma wiki_frame_same dest w w' :
  entities w' = entities w -> provenance w' = provenance w ->
  wikis w' = wikis w -> wiki_frame dest w w'.
Proof.
  intros He Hp Hw. unfold wiki_frame, find_wiki, pages_of.
  rewrite He, Hp, Hw. repeat split; auto.
Qed.

Lemma upload_attachments_untouched paths : forall w,
  wikis (snd (upload_attachments paths w)) = wikis w
  /\ entities (snd (upload_attachments paths w)) = entities w
  /\ provenance (snd (upload_attachments paths w)) = provenance w.
Proof.
  induction paths as [|p paths IH]; intros w; cbn [upload_attachments snd].
  - auto.
  - destruct (IH (add_transfer (Upload p) (set_counter (S (counter w)) w)))
      as (Hw & He & Hp).
    rewrite Hw, He, Hp. repeat split.
Qed.

Lemma find_wiki_owner owner i w p :
  find_wiki owner i w = Some p -> wiki_ownerId p = owner.
Proof.
  unfold find_wiki, pages_of. intros H. apply find_some in H.
  destruct H as (Hin & _). apply filter_In in Hin.
  now apply String.eqb_eq.
Qed.

Lemma replace_wiki_other stored owner ps :
  owner <> wiki_ownerId stored ->
  filter (fun p => String.eqb (wiki_ownerId p) owner) (replace_wiki stored ps)
  = filter (fun p => String.eqb (wiki_ownerId p) owner) ps.
Proof.
  intros Hne. induction ps as [|q ps IH]; cbn [replace_wiki]; [reflexivity|].
  destruct (String.eqb_spec (wiki_ownerId q) (wiki_ownerId stored)) as [Eo|No];
    cbn [andb].
  - destruct (String.eqb (wiki_id q) (wiki_id stored)); cbn [filter].
    + assert (E1 : String.eqb (wiki_ownerId stored) owner = false).
      { apply String.eqb_neq. congruence. }
      assert (E2 : String.eqb (wiki_ownerId q) owner = false).
      { apply String.eqb_neq. congruence. }
      now rewrite E1, E2.
    + now rewrite IH.
  - cbn [filter]. now rewrite IH.
Qed.

Lemma replace_wiki_still stored ps i :
  find (fun p => String.eqb (wiki_id p) i)
       (filter (fun p => String.eqb (wiki_ownerId p) (wiki_ownerId stored)) ps)
  <> None ->
  find (fun p => String.eqb (wiki_id p) i)
       (filter (fun p => String.eqb (wiki_ownerId p) (wiki_ownerId stored))
               (replace_wiki stored ps))
  <> None.
Proof.
  induction ps as [|q ps IH]; cbn [replace_wiki filter]; [auto|].
  destruct (String.eqb (wiki_ownerId q) (wiki_ownerId stored)) eqn:Eo;
    cbn [andb find].
  - destruct (String.eqb (wiki_id q) (wiki_id stored)) eqn:Ei;
      cbn [filter find].
    + rewrite String.eqb_refl. cbn [find].
      apply String.eqb_eq in Ei. rewrite Ei.
      destruct (String.eqb (wiki_id stored) i); [discriminate | auto].
    + rewrite Eo. cbn [find].
      destruct (String.eqb (wiki_id q) i); [discriminate | auto].
  - cbn [filter]. rewrite Eo. auto.
Qed.

Lemma find_app_still {A : Type} (f : A -> bool) (l l' : list A) :
  find f l <> None -> find f (l ++ l')%list <> None.
Proof.
  induction l as [|a l IH]; cbn [find List.app]; [congruence|].
  destruct (f a); [discriminate | assumption].
Qed.

(** [syn.store] of a page of [dest] writes to the pages of [dest] only, and
    returns a page of [dest]. *)
Lemma keeps_to_syn_store_wiki dest wiki :
  wiki_ownerId wiki = dest ->
  keeps_to (wiki_frame dest) (fun stored => wiki_ownerId stored = dest)
           (syn_store_wiki wiki).
Proof.
  intros Hown w. unfold syn_store_wiki.
  destruct (upload_attachments_untouched (wiki_attachments wiki) w)
    as (Hw & He & Hp).
  set (w1 := snd (upload_attachments (wiki_attachments wiki) w)) in *.
  destruct (String.eqb (wiki_id wiki) "").
  - cbn [entities provenance wikis set_counter set_wikis wiki_ownerId].
    split; [|assumption].
    unfold wiki_frame, find_wiki, pages_of.
    cbn [entities provenance wikis set_counter set_wikis].
    rewrite Hw. repeat split; try assumption.
    + intros owner Hne. rewrite filter_app. cbn [filter wiki_ownerId].
      assert (E : String.eqb (wiki_ownerId wiki) owner = false).
      { apply String.eqb_neq. congruence. }
      rewrite E. apply app_nil_r.
    + intros i Hi. rewrite filter_app. now apply find_app_still.
  - destruct (find_wiki (wiki_ownerId wiki) (wiki_id wiki) w1) eqn:Efind.
    + cbn [wiki_ownerId]. split; [|assumption].
      unfold wiki_frame, find_wiki, pages_of.
      cbn [entities provenance wikis set_wikis].
      rewrite Hw. repeat split; try assumption.
      * intros owner Hne. apply replace_wiki_other. cbn [wiki_ownerId].
        congruence.
      * intros i Hi. subst dest.
        match goal with
        | |- context [replace_wiki ?s _] =>
            apply (replace_wiki_still s (wikis w) i); exact Hi
        end.
    + now apply wiki_frame_same.
Qed.

Ltac wf_bind P :=
  apply (keeps_to_bind (wiki_frame _) (wiki_frame_trans _)) with P.

Lemma keeps_to_unchanged dest {A : Type} (P : A -> Prop) (c : M A) :
  (forall w,
     match c w with
     | Ok a w' => w' = w /\ P a
     | Raise _ w' => w' = w
     | OutOfFuel => True
     end) ->
  keeps_to (wiki_frame dest) P c.
Proof.
  intros H w. specialize (H w). destruct (c w) as [a w'|e w'|]; auto.
  - destruct H as (-> & HP). split; [apply wiki_frame_refl | assumption].
  - subst. apply wiki_frame_refl.
Qed.

Lemma keeps_to_print dest (P : unit -> Prop) line :
  P tt -> keeps_to (wiki_frame dest) P (print line).
Proof.
  intros HP w. unfold print. split; [|assumption].
  now apply wiki_frame_same.
Qed.

Lemma keeps_to_syn_get dest entity :
  keeps_to (wiki_frame dest) (fun e => ent_id e = entity)
           (syn_get entity None false).
Proof.
  intros w. unfold syn_get.
  destruct (find_entity entity w) as [e|] eqn:Efind;
    [|apply wiki_frame_refl].
  assert (Hid : ent_id e = entity).
  { unfold find_entity in Efind. apply find_some in Efind.
    now apply String.eqb_eq. }
  destruct (ent_type e), (ent_dataFileHandleId e), (ent_externalURL e);
    split; try assumption; apply wiki_frame_refl.
Qed.

Lemma keeps_to_syn_getWikiHeaders dest owner :
  keeps_to (wiki_frame dest) (fun _ => True) (syn_getWikiHeaders owner).
Proof.
  apply keeps_to_unchanged. intros w. unfold syn_getWikiHeaders.
  destruct (pages_of (ent_id owner) w); auto.
Qed.

Lemma keeps_to_syn_getWiki dest owner i :
  keeps_to (wiki_frame dest) (fun p => wiki_ownerId p = ent_id owner)
           (syn_getWiki owner i).
Proof.
  apply keeps_to_unchanged. intros w. unfold syn_getWiki.
  destruct (find_wiki (ent_id owner) i w) eqn:E; [|reflexivity].
  split; [reflexivity|]. eapply find_wiki_owner; eassumption.
Qed.

Lemma dict_get_In {V : Type} (k : string) (d : Dict V) (v : V) :
  dict_get k d = Some v -> exists k', In (k', v) d.
Proof.
  induction d as [|[k' v'] d IH]; cbn [dict_get]; [discriminate|].
  destruct (dict_get k d) as [v''|].
  - intros [= ->]. destruct (IH eq_refl) as (k'' & Hin).
    exists k''. now right.
  - destruct (String.eqb k k'); [|discriminate].
    intros [= ->]. exists k'. now left.
Qed.

Lemma keeps_to_dict_lookup_page dest k newWikis :
  pages_owned dest newWikis ->
  keeps_to (wiki_frame dest) (fun p => wiki_ownerId p = dest)
           (dict_lookup k newWikis).
Proof.
  intros Hown. apply keeps_to_unchanged. intros w. unfold dict_lookup.
  destruct (dict_get k newWikis) as [p|] eqn:E; [|reflexivity].
  split; [reflexivity|]. apply dict_get_In in E. destruct E as (k' & Hin).
  unfold pages_owned in Hown. rewrite Forall_forall in Hown.
  apply (Hown (k', p) Hin).
Qed.

Lemma keeps_to_dict_lookup dest {V : Type} k (d : Dict V) :
  keeps_to (wiki_frame dest) (fun _ => True) (dict_lookup k d).
Proof.
  apply keeps_to_unchanged. intros w. unfold dict_lookup.
  destruct (dict_get k d); cbn; auto.
Qed.

Lemma pages_owned_set dest k p newWikis :
  pages_owned dest newWikis -> wiki_ownerId p = dest ->
  pages_owned dest (dict_set k p newWikis).
Proof.
  intros Hown Hp. unfold pages_owned, dict_set. apply Forall_app. split;
    [assumption|]. constructor; [assumption | constructor].
Qed.

Lemma keeps_to_download_attachments dest wiki :
  keeps_to (wiki_frame dest) (fun _ => True) (download_attachments wiki).
Proof.
  unfold download_attachments.
  destruct (wiki_attachmentFileHandleIds wiki) as [|h hs].
  - now apply (keeps_to_ret (wiki_frame dest) (wiki_frame_refl dest)).
  - wf_bind (fun _ : list FileHandle => True).
    + apply keeps_to_unchanged. intros w.
      unfold syn_restGET_attachmenthandles.
      destruct (find_wiki (wiki_ownerId wiki) (wiki_id wiki) w); auto.
    + intros results _.
      apply (keeps_to_for_each (wiki_frame dest) (wiki_frame_refl dest)
               (wiki_frame_trans dest) (fun _ => True)); [|exact I].
      intros acc fhid _.
      wf_bind (fun _ : FileHandle => True); [apply keeps_to_dict_lookup|].
      intros fh _. wf_bind (fun _ : string => True).
      * intros w. unfold syn_downloadWikiAttachment. split; [|exact I].
        now apply wiki_frame_same.
      * intros path _.
        now apply (keeps_to_ret (wiki_frame dest) (wiki_frame_refl dest)).
Qed.

Lemma keeps_to_copy_page dest oldOwn newOwn destinationSubPageId maps i :
  ent_id newOwn = dest -> pages_owned dest (snd maps) ->
  keeps_to (wiki_frame dest) (fun maps => pages_owned dest (snd maps))
           (copy_page oldOwn newOwn destinationSubPageId maps i).
Proof.
  intros Hdest Hown. unfold copy_page.
  wf_bind (fun _ : WikiPage => True).
  { eapply keeps_to_weaken; [|apply keeps_to_syn_getWiki]. auto. }
  intros wiki _. wf_bind (fun _ : unit => True);
    [now apply keeps_to_print|].
  intros _ _. wf_bind (fun _ : list string => True);
    [apply keeps_to_download_attachments|].
  intros attachments _.
  wf_bind (fun p : WikiPage => wiki_ownerId p = dest).
  - destruct (h_parentId i).
    + wf_bind (fun _ : string => True); [apply keeps_to_dict_lookup|].
      intros parentWikiId _. now apply keeps_to_syn_store_wiki.
    + destruct destinationSubPageId as [d|].
      * wf_bind (fun p : WikiPage => wiki_ownerId p = dest).
        -- rewrite <- Hdest. apply keeps_to_syn_getWiki.
        -- intros wNew HwNew. now apply keeps_to_syn_store_wiki.
      * now apply keeps_to_syn_store_wiki.
  - intros wNew HwNew.
    apply (keeps_to_ret (wiki_frame dest) (wiki_frame_refl dest)).
    cbn [snd]. now apply pages_owned_set.
Qed.

Lemma keeps_to_update_links dest updateLinks entity wikiIdMap newWikis :
  pages_owned dest newWikis ->
  keeps_to (wiki_frame dest) (pages_owned dest)
           (update_links updateLinks entity dest wikiIdMap newWikis).
Proof.
  intros Hown. unfold update_links. destruct updateLinks.
  - wf_bind (fun _ : unit => True); [now apply keeps_to_print|].
    intros _ _.
    apply (keeps_to_for_each (wiki_frame dest) (wiki_frame_refl dest)
             (wiki_frame_trans dest) (pages_owned dest)); [|assumption].
    intros acc oldWikiId Hacc.
    wf_bind (fun _ : string => True); [apply keeps_to_dict_lookup|].
    intros newWikiId _.
    wf_bind (fun p : WikiPage => wiki_ownerId p = dest);
      [now apply keeps_to_dict_lookup_page|].
    intros newWiki HnewWiki.
    wf_bind (fun _ : unit => True); [now apply keeps_to_print|].
    intros _ _.
    apply (keeps_to_ret (wiki_frame dest) (wiki_frame_refl dest)).
    now apply pages_owned_set.
  - now apply (keeps_to_ret (wiki_frame dest) (wiki_frame_refl dest)).
Qed.

Lemma keeps_to_update_synIds dest updateSynIds entityMap wikiIdMap newWikis :
  pages_owned dest newWikis ->
  keeps_to (wiki_frame dest) (pages_owned dest)
           (update_synIds updateSynIds entityMap wikiIdMap newWikis).
Proof.
  intros Hown. unfold update_synIds.
  destruct updateSynIds, entityMap as [entityMap|];
    try (now apply (keeps_to_ret (wiki_frame dest) (wiki_frame_refl dest))).
  wf_bind (fun _ : unit => True); [now apply keeps_to_print|].
  intros _ _.
  apply (keeps_to_for_each (wiki_frame dest) (wiki_frame_refl dest)
           (wiki_frame_trans dest) (pages_owned dest)); [|assumption].
  intros acc oldWikiId Hacc.
  wf_bind (fun _ : string => True); [apply keeps_to_dict_lookup|].
  intros newWikiId _.
  wf_bind (fun p : WikiPage => wiki_ownerId p = dest);
    [now apply keeps_to_dict_lookup_page|].
  intros newWiki HnewWiki.
  wf_bind (fun _ : unit => True); [now apply keeps_to_print|].
  intros _ _.
  wf_bind (fun _ : unit => True); [now apply keeps_to_print|].
  intros _ _.
  apply (keeps_to_ret (wiki_frame dest) (wiki_frame_refl dest)).
  now apply pages_owned_set.
Qed.

Lemma keeps_to_store_wikis dest wikiIdMap newWikis :
  pages_owned dest newWikis ->
  keeps_to (wiki_frame dest) (pages_owned dest)
           (store_wikis wikiIdMap newWikis).
Proof.
  intros Hown. unfold store_wikis.
  wf_bind (fun _ : unit => True); [now apply keeps_to_print|].
  intros _ _.
  apply (keeps_to_for_each (wiki_frame dest) (wiki_frame_refl dest)
           (wiki_frame_trans dest) (pages_owned dest)); [|assumption].
  intros acc oldWikiId Hacc.
  wf_bind (fun _ : string => True); [apply keeps_to_dict_lookup|].
  intros newWikiId _.
  wf_bind (fun p : WikiPage => wiki_ownerId p = dest);
    [now apply keeps_to_dict_lookup_page|].
  intros page Hpage.
  wf_bind (fun p : WikiPage => wiki_ownerId p = dest);
    [now apply keeps_to_syn_store_wiki|].
  intros stored Hstored.
  wf_bind (fun _ : unit => True); [now apply keeps_to_print|].
  intros _ _.
  apply (keeps_to_ret (wiki_frame dest) (wiki_frame_refl dest)).
  now apply pages_owned_set.
Qed.

Lemma keeps_copyWiki fuel entity destinationId entitySubPageId
      destinationSubPageId updateLinks updateSynIds entityMap :
  keeps (wiki_frame destinationId)
        (copyWiki fuel entity destinationId entitySubPageId
                  destinationSubPageId updateLinks updateSynIds entityMap).
Proof.
  set (dest := destinationId).
  apply keeps_to_keeps with (P := fun _ : WikiResult => True).
  unfold copyWiki.
  wf_bind (fun _ : Entity => True).
  { eapply keeps_to_weaken; [|apply keeps_to_syn_get]. auto. }
  intros oldOwn _.
  wf_bind (fun _ : option (list WikiHeader) => True).
  { apply keeps_to_unchanged. intros w.
    unfold except_SynapseHTTPError, bind, syn_getWikiHeaders, ret.
    destruct (pages_of (ent_id oldOwn) w); auto. }
  intros [oldWh|] _;
    [|now apply (keeps_to_ret (wiki_frame dest) (wiki_frame_refl dest))].
  wf_bind (fun _ : list WikiHeader => True).
  { destruct (restrict_headers fuel oldWh entitySubPageId).
    - now apply (keeps_to_ret (wiki_frame dest) (wiki_frame_refl dest)).
    - intros w. exact I. }
  intros oldWh' _.
  wf_bind (fun e : Entity => ent_id e = dest); [apply keeps_to_syn_get|].
  intros newOwn HnewOwn.
  wf_bind (fun maps : Dict string * Dict WikiPage =>
             pages_owned dest (snd maps)).
  { apply (keeps_to_for_each (wiki_frame dest) (wiki_frame_refl dest)
             (wiki_frame_trans dest)
             (fun maps : Dict string * Dict WikiPage =>
                pages_owned dest (snd maps))).
    - intros acc x Hacc. now apply keeps_to_copy_page.
    - constructor. }
  intros maps Hmaps.
  wf_bind (pages_owned dest); [now apply keeps_to_update_links|].
  intros newWikis1 H1.
  wf_bind (pages_owned dest); [now apply keeps_to_update_synIds|].
  intros newWikis2 H2.
  wf_bind (pages_owned dest); [now apply keeps_to_store_wikis|].
  intros newWikis3 H3.
  wf_bind (fun _ : list WikiHeader => True);
    [apply keeps_to_syn_getWikiHeaders|].
  intros newWh _.
  now apply (keeps_to_ret (wiki_frame dest) (wiki_frame_refl dest)).
Qed.

Lemma entities_kept_refl w : entities_kept w w.
Proof. intros e He. exists e. split; [assumption | apply entity_kept_refl]. Qed.

Lemma entities_kept_trans w1 w2 w3 :
  entities_kept w1 w2 -> entities_kept w2 w3 -> entities_kept w1 w3.
Proof.
  intros H12 H23 e He. destruct (H12 e He) as (e2 & He2 & K2).
  destruct (H23 e2 He2) as (e3 & He3 & K3).
  exists e3. split; [assumption | eapply entity_kept_trans; eassumption].
Qed.

(** X20: whatever its outcome, a result or an exception part of the way,
    [copyWiki] changes no entity and no provenance record, leaves the wiki
    pages of every owner but [destinationId] as they were (so the source
    wiki is only read), and deletes no page of [destinationId].  With it,
    [copy] never deletes, moves, renames or retypes an entity, whether the
    wiki pages are copied or not. *)
Theorem copyWiki_writes_only_destination_pages :
  forall fuel entity destinationId entitySubPageId destinationSubPageId
         updateLinks updateSynIds entityMap copyWikiPage kwargs w,
    match copyWiki fuel entity destinationId entitySubPageId
                   destinationSubPageId updateLinks updateSynIds entityMap w
    with
    | Ok _ w' | Raise _ w' => wiki_frame destinationId w w'
    | OutOfFuel => True
    end
    /\ match copy fuel entity destinationId copyWikiPage kwargs w with
       | Ok _ w' | Raise _ w' => entities_kept w w'
       | OutOfFuel => True
       end.
Proof.
  intros fuel entity destinationId entitySubPageId destinationSubPageId
         updateLinks updateSynIds entityMap copyWikiPage kwargs w.
  split.
  - apply (keeps_copyWiki fuel entity destinationId entitySubPageId
             destinationSubPageId updateLinks updateSynIds entityMap w).
  - assert (H : keeps entities_kept
                  (copy fuel entity destinationId copyWikiPage kwargs)).
    { unfold copy.
      apply (keeps_bind entities_kept entities_kept_trans).
      - apply keeps_weaken with walk_frame;
          [|apply keeps__copyRecursive].
        intros w1 w2 (_ & _ & _ & H). exact H.
      - intros m.
        apply (keeps_bind entities_kept entities_kept_trans);
          [|intros; apply (keeps_ret entities_kept entities_kept_refl)].
        destruct copyWikiPage;
          [|apply (keeps_ret entities_kept entities_kept_refl)].
        apply (keeps_for_ entities_kept entities_kept_refl
                 entities_kept_trans).
        intros oldEnt.
        apply (keeps_bind entities_kept entities_kept_trans).
        + unfold dict_lookup. destruct (dict_get oldEnt m).
          * apply (keeps_ret entities_kept entities_kept_refl).
          * apply (keeps_raise entities_kept entities_kept_refl).
        + intros newEnt.
          apply (keeps_bind entities_kept entities_kept_trans);
            [|intros; apply (keeps_ret entities_kept entities_kept_refl)].
          apply keeps_weaken with (wiki_frame newEnt);
            [|apply keeps_copyWiki].
          intros w1 w2 (He & _) e Hin. exists e. rewrite He.
          split; [assumption | apply entity_kept_refl]. }
    apply (H w).
Qed.

(** ** Whitespace *)

Lemma is_space_blank c : is_space c = true -> is_blank c = true.
Proof. intros H. unfold is_blank. rewrite H. apply orb_true_r. Qed.

Lemma visible_lstrip s : visible (lstrip s) = visible s.
Proof.
  induction s as [|c s IH]; cbn [lstrip visible]; [reflexivity|].
  destruct (is_space c) eqn:E.
  - rewrite (is_space_blank c E). assumption.
  - reflexivity.
Qed.

Lemma visible_rstrip s : visible (rstrip s) = visible s.
Proof.
  induction s as [|c s IH]; cbn [rstrip]; [reflexivity|].
  destruct (rstrip s) as [|d r].
  - cbn [visible] in *. destruct (is_space c) eqn:E.
    + rewrite (is_space_blank c E). assumption.
    + cbn [visible]. now rewrite <- IH.
  - cbn [visible] in *. now rewrite IH.
Qed.

Lemma visible_sub_blank_runs s : forall b,
  visible (sub_blank_runs b s) = visible s.
Proof.
  induction s as [|c s IH]; intros b; cbn [sub_blank_runs visible];
    [reflexivity|].
  destruct (is_blank c) eqn:E.
  - destruct b; [apply IH|]. cbn [visible].
    change (is_blank " ") with true. cbn iota. apply IH.
  - cbn [visible]. rewrite E. now rewrite IH.
Qed.

Lemma sub_blank_runs_chars s : forall b c,
  In c (list_ascii_of_string (sub_blank_runs b s)) ->
  is_blank c = true -> c = " "%char.
Proof.
  induction s as [|a s IH]; intros b c;
    cbn [sub_blank_runs list_ascii_of_string]; [intros []|].
  destruct (is_blank a) eqn:E.
  - destruct b; [apply IH|]. cbn [list_ascii_of_string In].
    intros [<-|Hin] Hc; [reflexivity | now apply (IH true)].
  - cbn [list_ascii_of_string In]. intros [<-|Hin] Hc;
      [congruence | now apply (IH false)].
Qed.

Lemma sub_blank_runs_single_spaced s : forall b,
  single_spaced_from b (sub_blank_runs b s) = true.
Proof.
  induction s as [|a s IH]; intros b; cbn [sub_blank_runs];
    [reflexivity|].
  destruct (is_blank a) eqn:E.
  - destruct b; [apply IH|]. cbn [single_spaced_from].
    change (Ascii.eqb " " " ") with true. cbn [negb andb]. apply IH.
  - cbn [single_spaced_from].
    destruct (Ascii.eqb_spec a " ") as [->|_]; [discriminate | apply IH].
Qed.

Lemma sub_blank_runs_fixed r : forall b,
  (forall c, In c (list_ascii_of_string r) -> is_blank c = true ->
             c = " "%char) ->
  single_spaced_from b r = true ->
  sub_blank_runs b r = r.
Proof.
  induction r as [|a r IH]; intros b Hchars Hss; cbn [sub_blank_runs];
    [reflexivity|].
  assert (Hrest : forall c, In c (list_ascii_of_string r) ->
                            is_blank c = true -> c = " "%char).
  { intros c Hc. apply Hchars. now right. }
  cbn [single_spaced_from] in Hss.
  destruct (is_blank a) eqn:E.
  - assert (Ha : a = " "%char) by (apply Hchars; [now left | assumption]).
    subst a. change (Ascii.eqb " " " ") with true in Hss. cbn iota in Hss.
    apply andb_prop in Hss. destruct Hss as (Hb & Hss).
    destruct b; [discriminate|]. now rewrite (IH true).
  - destruct (Ascii.eqb_spec a " ") as [->|_]; [discriminate|].
    now rewrite (IH false).
Qed.

Lemma starts_visible_lstrip s : starts_visible (lstrip s) = true.
Proof.
  induction s as [|c s IH]; cbn [lstrip]; [reflexivity|].
  destruct (is_space c) eqn:E; [assumption|].
  cbn [starts_visible]. now rewrite E.
Qed.

Lemma starts_visible_rstrip s :
  starts_visible s = true -> starts_visible (rstrip s) = true.
Proof.
  destruct s as [|c s]; cbn [rstrip starts_visible]; [reflexivity|].
  intros H. destruct (rstrip s).
  - apply negb_true_iff in H. rewrite H. cbn [starts_visible].
    now rewrite H.
  - assumption.
Qed.

Lemma starts_visible_fixed s : starts_visible s = true -> lstrip s = s.
Proof.
  destruct s as [|c s]; cbn [starts_visible lstrip]; [reflexivity|].
  intros H. apply negb_true_iff in H. now rewrite H.
Qed.

Lemma ends_visible_rstrip s : forall ok,
  rstrip s <> EmptyString \/ ok = true ->
  ends_visible ok (rstrip s) = true.
Proof.
  induction s as [|c s IH]; intros ok H; cbn [rstrip] in *.
  - destruct H as [H|H]; [contradiction | assumption].
  - destruct (rstrip s) as [|d r] eqn:Er.
    + destruct (is_space c) eqn:E.
      * destruct H as [H|H]; [contradiction | assumption].
      * cbn [ends_visible]. now rewrite E.
    + cbn [ends_visible]. cbn [ends_visible] in IH.
      apply (IH (negb (is_space c))). left. discriminate.
Qed.

Lemma ends_visible_fixed s : forall ok,
  ends_visible ok s = true -> rstrip s = s.
Proof.
  induction s as [|c s IH]; intros ok H; cbn [rstrip]; [reflexivity|].
  cbn [ends_visible] in H. rewrite (IH _ H).
  destruct s as [|d s]; [|reflexivity].
  cbn [ends_visible] in H. apply negb_true_iff in H. now rewrite H.
Qed.

Lemma ends_visible_sub_blank_runs s : forall b ok,
  (forall c, In c (list_ascii_of_string s) -> is_blank c = true ->
             is_space c = true) ->
  (b = true -> ok = false) ->
  ends_visible ok (sub_blank_runs b s) = ends_visible ok s.
Proof.
  induction s as [|a s IH]; intros b ok Hchars Hb; cbn [sub_blank_runs];
    [reflexivity|].
  assert (Hrest : forall c, In c (list_ascii_of_string s) ->
                            is_blank c = true -> is_space c = true).
  { intros c Hc. apply Hchars. now right. }
  cbn [ends_visible].
  destruct (is_blank a) eqn:E.
  - assert (Ha : is_space a = true) by (apply Hchars; [now left | assumption]).
    rewrite Ha. cbn [negb]. destruct b.
    + rewrite (Hb eq_refl). now apply IH.
    + cbn [ends_visible]. change (negb (is_space " ")) with false.
      now apply IH.
  - assert (Ha : is_space a = false).
    { destruct (is_space a) eqn:Ea; [|reflexivity].
      apply is_space_blank in Ea. congruence. }
    cbn [ends_visible]. rewrite Ha. cbn [negb]. apply IH; [assumption|].
    discriminate.
Qed.

Lemma lstrip_chars s c :
  In c (list_ascii_of_string (lstrip s)) -> In c (list_ascii_of_string s).
Proof.
  induction s as [|a s IH]; cbn [lstrip]; [auto|].
  destruct (is_space a); [|auto].
  intros H. right. now apply IH.
Qed.

Lemma rstrip_chars s c :
  In c (list_ascii_of_string (rstrip s)) -> In c (list_ascii_of_string s).
Proof.
  induction s as [|a s IH]; cbn [rstrip]; [auto|].
  destruct (rstrip s) as [|d r].
  - destruct (is_space a); cbn [list_ascii_of_string In]; [intros []|].
    intros [<-|[]]. now left.
  - cbn [list_ascii_of_string In] in *. intros [<-|H]; [now left|].
    right. now apply IH.
Qed.

(** X21 ([normalize_whitespace]): in the result every character of the
    class (code 32 or below) is a space and no two spaces are neighbours;
    the other characters of [s] are all there, in their order.  The strip
    removes whitespace only: a string that starts with another character
    of the class, such as a NUL, gives a result that starts with a space. *)
Theorem normalize_whitespace_collapses_runs (s : string) :
  (forall c, In c (list_ascii_of_string (normalize_whitespace s)) ->
             is_blank c = true -> c = " "%char)
  /\ single_spaced (normalize_whitespace s) = true
  /\ visible (normalize_whitespace s) = visible s
  /\ (forall c s', is_blank c = true -> is_space c = false ->
        exists rest, normalize_whitespace (String c s') = String " " rest).
Proof.
  unfold normalize_whitespace, single_spaced. repeat split.
  - apply sub_blank_runs_chars.
  - apply sub_blank_runs_single_spaced.
  - rewrite visible_sub_blank_runs. unfold strip.
    now rewrite visible_rstrip, visible_lstrip.
  - intros c s' Hblank Hspace. unfold strip. cbn [lstrip]. rewrite Hspace.
    cbn [rstrip].
    destruct (rstrip s') as [|d r]; [rewrite Hspace|];
      cbn [sub_blank_runs]; rewrite Hblank; eexists; reflexivity.
Qed.

(** X22 ([normalize_whitespace]): when the only characters of [s] with
    code 32 or below are whitespace, the result has no whitespace at
    either end and is normalized: normalizing it again changes nothing. *)
Theorem normalize_whitespace_idempotent_on_text (s : string) :
  (forall c, In c (list_ascii_of_string s) -> is_blank c = true ->
             is_space c = true) ->
  strip (normalize_whitespace s) = normalize_whitespace s
  /\ normalize_whitespace (normalize_whitespace s) = normalize_whitespace s.
Proof.
  intros Htext.
  assert (Hstrip : forall c, In c (list_ascii_of_string (strip s)) ->
                             is_blank c = true -> is_space c = true).
  { intros c Hc. apply Htext. now apply lstrip_chars, rstrip_chars. }
  assert (Hstart : starts_visible (strip s) = true).
  { apply starts_visible_rstrip, starts_visible_lstrip. }
  assert (Hend : ends_visible true (strip s) = true).
  { apply ends_visible_rstrip. now right. }
  assert (Hfix : strip (normalize_whitespace s) = normalize_whitespace s).
  { unfold normalize_whitespace at 1. unfold strip at 1.
    fold (normalize_whitespace s).
    assert (Hl : lstrip (normalize_whitespace s) = normalize_whitespace s).
    { apply starts_visible_fixed. unfold normalize_whitespace.
      destruct (strip s) as [|c t] eqn:Et; [reflexivity|].
      cbn [starts_visible] in Hstart. apply negb_true_iff in Hstart.
      cbn [sub_blank_runs].
      destruct (is_blank c) eqn:Eb.
      - rewrite (Hstrip c (or_introl eq_refl) Eb) in Hstart. discriminate.
      - cbn [starts_visible]. now rewrite Hstart. }
    rewrite Hl. apply (ends_visible_fixed _ true).
    unfold normalize_whitespace.
    rewrite ends_visible_sub_blank_runs; [assumption | assumption |].
    discriminate. }
  split; [assumption|].
  unfold normalize_whitespace at 1. rewrite Hfix.
  apply sub_blank_runs_fixed.
  - apply sub_blank_runs_chars.
  - apply sub_blank_runs_single_spaced.
Qed.

Lemma normalize_whitespace_idempotent_on_text_witness :
  strip (normalize_whitespace ("  two " ++ tab ++ nl ++ " words  "))
  = normalize_whitespace ("  two " ++ tab ++ nl ++ " words  ")
  /\ normalize_whitespace
       (normalize_whitespace ("  two " ++ tab ++ nl ++ " words  "))
     = normalize_whitespace ("  two " ++ tab ++ nl ++ " words  ").
Proof.
  apply (normalize_whitespace_idempotent_on_text
           ("  two " ++ tab ++ nl ++ " words  ")).
  intros c Hc. cbn in Hc.
  repeat (destruct Hc as [<-|Hc]; [vm_compute; auto|]). destruct Hc.
Defined.
